(** * vite-md: the markdown-to-Vue compile pipeline

    A shallow embedding of [packages/plugin-md/src/md/markdownToVue.ts],
    [packages/plugin-md/src/md/utils/parseHeader.ts] and
    [utils/tsToJs] together with the properties the specification states
    about them.

    JavaScript strings are sequences of UTF-16 code units; a code unit is
    modelled as an [N] and a string as a list of them. *)

From Stdlib Require Import List String Ascii NArith ZArith QArith Qround Qabs Bool Arith Lia.
From Stdlib Require Import DecimalString.
Import ListNotations.
Close Scope Q_scope.
Close Scope Z_scope.
Open Scope nat_scope.
Open Scope list_scope.

Set Implicit Arguments.
Set Warnings "-register-all".

(* ===================================================================== *)
(** * Strings *)
(* ===================================================================== *)

Module JsString.

Definition char := N.
Definition jstring := list char.

(** Code units of an ASCII literal. *)
Fixpoint js (s : string) : jstring :=
  match s with
  | EmptyString => []
  | String a s' => N_of_ascii a :: js s'
  end.

Definition char_eqb (a b : char) : bool := N.eqb a b.

Fixpoint jstring_eqb (s t : jstring) : bool :=
  match s, t with
  | [], [] => true
  | a :: s', b :: t' => char_eqb a b && jstring_eqb s' t'
  | _, _ => false
  end.

(** [prefixb p s]: [p] occurs in [s] at index 0. *)
Fixpoint prefixb (p s : jstring) : bool :=
  match p, s with
  | [], _ => true
  | a :: p', b :: s' => char_eqb a b && prefixb p' s'
  | _ :: _, [] => false
  end.

(** [occursb p s]: [p] occurs in [s] at some index. *)
Fixpoint occursb (p s : jstring) : bool :=
  match s with
  | [] => prefixb p []
  | _ :: s' => prefixb p s || occursb p s'
  end.

(** ** White space

    [String.prototype.trim] and the regular-expression class [\s] share
    one set: ECMAScript WhiteSpace plus LineTerminator. *)

Definition is_line_terminator (c : char) : bool :=
  existsb (N.eqb c) [10; 13; 8232; 8233]%N.

Definition is_space (c : char) : bool :=
  existsb (N.eqb c) [9; 10; 11; 12; 13; 32; 160; 5760; 8232; 8233; 8239; 8287; 12288; 65279]%N
  || (N.leb 8192 c && N.leb c 8202).

Fixpoint trim_start (s : jstring) : jstring :=
  match s with
  | [] => []
  | c :: s' => if is_space c then trim_start s' else s
  end.

Definition trim_end (s : jstring) : jstring := rev (trim_start (rev s)).

(** [s.trim()] *)
Definition trim (s : jstring) : jstring := trim_end (trim_start s).

(** ** Replacement of a literal pattern

    [s.replace(/literal/g, r)] for a pattern without metacharacters and a
    replacement text without [$]: scan from the left, and at each index
    where the pattern occurs emit [r] and continue after the occurrence.
    [skip] counts the code units of a matched occurrence still to be
    passed over. *)

Fixpoint replace_from (p r : jstring) (skip : nat) (s : jstring) : jstring :=
  match s with
  | [] => []
  | c :: s' =>
      match skip with
      | S k => replace_from p r k s'
      | O => if prefixb p s
             then r ++ replace_from p r (List.length p - 1) s'
             else c :: replace_from p r 0 s'
      end
  end.

Definition replace_all (p r s : jstring) : jstring := replace_from p r 0 s.

(** [s.replace('literal', r)]: a string pattern replaces the first
    occurrence only. *)
Fixpoint replace_first (p r s : jstring) : jstring :=
  match s with
  | [] => if prefixb p [] then r else []
  | c :: s' => if prefixb p s then r ++ skipn (List.length p) s
               else c :: replace_first p r s'
  end.

(** [s.split(sep)[0]]: the text before the first occurrence of [sep],
    all of [s] when there is none. *)
Fixpoint before_first (sep s : jstring) : jstring :=
  match s with
  | [] => []
  | c :: s' => if prefixb sep s then [] else c :: before_first sep s'
  end.

End JsString.
Import JsString.

(* ===================================================================== *)
(** * The template escaper *)
(* ===================================================================== *)

Module Escaper.

Definition import_meta : jstring := Eval cbv in js "import.meta".
Definition import_wbr_meta : jstring := Eval cbv in js "import.<wbr/>meta".
Definition process_env : jstring := Eval cbv in js "process.env".
Definition process_wbr_env : jstring := Eval cbv in js "process.<wbr/>env".

(** markdownToVue.ts, lines 50-52 (and again 98-100, 119-121):
<<
    html.replace(/import\.meta/g, 'import.<wbr/>meta')
        .replace(/process\.env/g, 'process.<wbr/>env')
>> *)
Definition escape (html : jstring) : jstring :=
  replace_all process_env process_wbr_env
    (replace_all import_meta import_wbr_meta html).

End Escaper.

(* ===================================================================== *)
(** * Regular expressions *)
(* ===================================================================== *)

(** A backtracking matcher for the fragment of ECMAScript regular
    expressions the sources use, written after the continuation-passing
    semantics of the language specification (22.2.2): alternatives are
    tried left to right, quantifiers are greedy or lazy, an iteration of
    an optional repetition that consumes nothing is rejected.  No pattern
    of the sources places a group under a quantifier, so captures need no
    reset between iterations. *)

Module Regex.

Inductive regex : Type :=
| Eps                                          (* empty pattern *)
| Chr (c : char)                               (* a literal code unit *)
| Dot                                          (* .   *)
| Cls (neg : bool) (cs : list char)            (* [..] and [^..] *)
| Spc                                          (* \s  *)
| Bol                                          (* ^   *)
| Eol                                          (* $   *)
| Cat (r1 r2 : regex)
| Alt (r1 r2 : regex)                          (* r1|r2 *)
| Rep (lo : nat) (hi : option nat) (greedy : bool) (r : regex)
| Grp (i : nat) (r : regex)                    (* i-th capturing group *)
| Ref (i : nat).                               (* \i  *)

Definition Star := Rep 0 None true.           (* r*  *)
Definition Plus := Rep 1 None true.           (* r+  *)
Definition LazyStar := Rep 0 None false.      (* r*? *)

Fixpoint Seq (rs : list regex) : regex :=
  match rs with
  | [] => Eps
  | [r] => r
  | r :: rs' => Cat r (Seq rs')
  end.

Definition ch (a : ascii) : char := N_of_ascii a.

(** What is left of the input, and the captures so far. *)
Record mstate : Type := MState { rest : jstring; caps : list (nat * jstring) }.

Inductive outcome : Type :=
| Matched (st : mstate)
| Failed
| OutOfFuel.

Fixpoint get_cap (i : nat) (cs : list (nat * jstring)) : option jstring :=
  match cs with
  | [] => None
  | (j, w) :: cs' => if Nat.eqb i j then Some w else get_cap i cs'
  end.

Definition step_if (ok : char -> bool) (st : mstate) (k : mstate -> outcome) : outcome :=
  match rest st with
  | a :: t => if ok a then k (MState t (caps st)) else Failed
  | [] => Failed
  end.

Section Matcher.

Variable multiline : bool.
Variable input : jstring.

(** The code unit before the current position, if any. *)
Definition prev_char (st : mstate) : option char :=
  match List.length input - List.length (rest st) with
  | O => None
  | S i => nth_error input i
  end.

Definition at_bol (st : mstate) : bool :=
  match prev_char st with
  | None => true
  | Some c => multiline && is_line_terminator c
  end.

Definition at_eol (st : mstate) : bool :=
  match rest st with
  | [] => true
  | c :: _ => multiline && is_line_terminator c
  end.

Definition consumed (st st' : mstate) : jstring :=
  firstn (List.length (rest st) - List.length (rest st')) (rest st).

(** Repetition of a matcher [mr] between [lo] and [hi] times.  Every
    iteration beyond the mandatory ones has to consume input, so that
    [lo] plus the length of the input, plus one, is fuel enough. *)
Fixpoint rep_loop (mr : mstate -> (mstate -> outcome) -> outcome) (greedy : bool)
    (k : mstate -> outcome) (fuel lo : nat) (hi : option nat) (st : mstate)
    {struct fuel} : outcome :=
  match fuel with
  | O => OutOfFuel
  | S fuel' =>
      match hi with
      | Some O => k st
      | _ =>
          let hi' := option_map Nat.pred hi in
          match lo with
          | S lo' => mr st (fun st' => rep_loop mr greedy k fuel' lo' hi' st')
          | O =>
              let again :=
                mr st (fun st' =>
                  if Nat.eqb (List.length (rest st')) (List.length (rest st))
                  then Failed
                  else rep_loop mr greedy k fuel' O hi' st') in
              if greedy
              then match again with Failed => k st | o => o end
              else match k st with Failed => again | o => o end
          end
      end
  end.

Fixpoint m (r : regex) (st : mstate) (k : mstate -> outcome) {struct r} : outcome :=
  match r with
  | Eps => k st
  | Chr c => step_if (char_eqb c) st k
  | Dot => step_if (fun a => negb (is_line_terminator a)) st k
  | Cls neg cs => step_if (fun a => xorb neg (existsb (char_eqb a) cs)) st k
  | Spc => step_if is_space st k
  | Bol => if at_bol st then k st else Failed
  | Eol => if at_eol st then k st else Failed
  | Cat r1 r2 => m r1 st (fun st' => m r2 st' k)
  | Alt r1 r2 =>
      match m r1 st k with
      | Failed => m r2 st k
      | o => o
      end
  | Rep lo hi greedy r' =>
      rep_loop (m r') greedy k (lo + List.length (rest st) + 1) lo hi st
  | Grp i r' =>
      m r' st (fun st' => k (MState (rest st') ((i, consumed st st') :: caps st')))
  | Ref i =>
      match get_cap i (caps st) with
      | None => k st
      | Some w =>
          if prefixb w (rest st)
          then k (MState (skipn (List.length w) (rest st)) (caps st))
          else Failed
      end
  end.

(** One attempt at the position where [s] starts. *)
Definition match_here (r : regex) (s : jstring) : outcome :=
  m r (MState s []) Matched.

End Matcher.

(** [s.match(r)] for a pattern without the global flag: the leftmost
    position at which the pattern matches; [None] stands for [null]. *)
Fixpoint search (multiline : bool) (input : jstring) (r : regex) (s : jstring)
  : option mstate :=
  match match_here multiline input r s with
  | Matched st => Some st
  | _ => match s with
         | [] => None
         | _ :: s' => search multiline input r s'
         end
  end.

Definition regex_match (multiline : bool) (r : regex) (s : jstring) : option mstate :=
  search multiline s r s.

(** Replacement text: literal pieces and [$n] references. *)
Inductive repl_item : Type :=
| Lit (w : jstring)
| Cap (i : nat).

Fixpoint expand (t : list repl_item) (cs : list (nat * jstring)) : jstring :=
  match t with
  | [] => []
  | Lit w :: t' => w ++ expand t' cs
  | Cap i :: t' =>
      match get_cap i cs with Some w => w | None => [] end ++ expand t' cs
  end.

(** [s.replace(r, t)] for a pattern with the global flag. *)
Fixpoint replace_loop (multiline : bool) (input : jstring) (r : regex)
    (t : list repl_item) (skip : nat) (s : jstring) : jstring :=
  match skip with
  | S k => match s with
           | [] => []
           | _ :: s' => replace_loop multiline input r t k s'
           end
  | O =>
      match match_here multiline input r s with
      | Matched st =>
          expand t (caps st) ++
          match s with
          | [] => []
          | c :: s' =>
              match List.length s - List.length (rest st) with
              | O => c :: replace_loop multiline input r t 0 s'
              | S n => replace_loop multiline input r t n s'
              end
          end
      | _ => match s with
             | [] => []
             | c :: s' => c :: replace_loop multiline input r t 0 s'
             end
      end
  end.

Definition regex_replace (multiline : bool) (r : regex) (t : list repl_item)
    (s : jstring) : jstring :=
  replace_loop multiline s r t 0 s.

End Regex.
Import Regex.

(* ===================================================================== *)
(** * utils/parseHeader.ts *)
(* ===================================================================== *)

Module ParseHeader.

(** [unescapeHtml], lines 12-19. *)
Definition unescapeHtml (html : jstring) : jstring :=
  replace_all (js "&gt;") (js ">")
    (replace_all (js "&lt;") (js "<")
      (replace_all (js "&#x3A;") (js ":")
        (replace_all (js "&#39;") (js "'")
          (replace_all (js "&quot;") [34%N] html)))).

(** [/(\[(.[^\]]+)\]\((.[^)]+)\))/g] *)
Definition re_link : regex :=
  Grp 1 (Seq [Chr (ch "["); Grp 2 (Cat Dot (Plus (Cls true [ch "]"])));
              Chr (ch "]"); Chr (ch "(");
              Grp 3 (Cat Dot (Plus (Cls true [ch ")"]))); Chr (ch ")")]).

(** [/(`|\*{1,3}|_)(.*?[^\\])\1/g] *)
Definition re_emphasis : regex :=
  Seq [Grp 1 (Alt (Chr (ch "`")) (Alt (Rep 1 (Some 3) true (Chr (ch "*"))) (Chr (ch "_"))));
       Grp 2 (Cat (LazyStar Dot) (Cls true [ch "\"]));
       Ref 1].

(** [/(\\)(\*|_|`|\!|<|\$)/g] *)
Definition re_escaped : regex :=
  Cat (Grp 1 (Chr (ch "\")))
      (Grp 2 (Alt (Chr (ch "*")) (Alt (Chr (ch "_")) (Alt (Chr (ch "`"))
             (Alt (Chr (ch "!")) (Alt (Chr (ch "<")) (Chr (ch "$")))))))).

(** [removeMarkdownTokens], lines 21-27. *)
Definition removeMarkdownTokens (str : jstring) : jstring :=
  regex_replace false re_escaped [Cap 2]
    (regex_replace false re_emphasis [Cap 2]
      (regex_replace false re_link [Cap 2] str)).

(** [/(^|[^><`\\])<.*>([^><`]|$)/g] *)
Definition re_html : regex :=
  Seq [Grp 1 (Alt Bol (Cls true [ch ">"; ch "<"; ch "`"; ch "\"]));
       Chr (ch "<"); Star Dot; Chr (ch ">");
       Grp 2 (Alt (Cls true [ch ">"; ch "<"; ch "`"]) Eol)].

(** [removeNonCodeWrappedHTML], lines 35-37. *)
Definition removeNonCodeWrappedHTML (str : jstring) : jstring :=
  regex_replace false re_html [Cap 1; Cap 2] str.

(** [compose], lines 39-47: the processors are applied first to last. *)
Definition compose (processors : list (jstring -> jstring)) : jstring -> jstring :=
  match processors with
  | [] => fun input => input
  | p :: ps => fold_left (fun prev next => fun str => next (prev str)) ps p
  end.

(** [parseHeader], lines 50-55, and [deeplyParseHeader], line 56. *)
Definition parseHeader : jstring -> jstring :=
  compose [unescapeHtml; removeMarkdownTokens; trim].

Definition deeplyParseHeader : jstring -> jstring :=
  compose [removeNonCodeWrappedHTML; parseHeader].

End ParseHeader.
Import ParseHeader.


(* ===================================================================== *)
(** * JavaScript numbers *)
(* ===================================================================== *)

(** [String] applied to a Number is Number::toString of the language
    specification (6.1.6.1.20) with radix 10: the shortest decimal that
    denotes the value, printed plainly between [1e-6] and [1e21] and with
    an exponent outside. *)

Module JsNumber.

(** A Number value: an IEEE 754 binary64 value.  [Fin q] is the value
    nearest to the rational [q], ties going to the even significand; it
    is an infinity when [q] is out of range, and zero when [q] is too
    small. *)
Inductive number : Type :=
| NaN
| Inf (negative : bool)
| Fin (q : Q).

Definition pow2 (e : Z) : Q := Qpower (2 # 1) e.
Definition pow10 (e : Z) : Q := Qpower (10 # 1) e.

(** [floor (log2 q)] for [q > 0]. *)
Definition ilog2 (q : Q) : Z :=
  let e := (Z.log2 (Qnum q) - Z.log2 (Zpos (Qden q)))%Z in
  if Qle_bool (pow2 e) q then e else (e - 1)%Z.

(** The integer nearest to [q >= 0], halves going to the even one. *)
Definition round_half_even (q : Q) : Z :=
  let fl := Qfloor q in
  match Qcompare (q - inject_Z fl)%Q (1 # 2) with
  | Lt => fl
  | Gt => (fl + 1)%Z
  | Eq => if Z.even fl then fl else (fl + 1)%Z
  end.

(** The binary64 value nearest to [q > 0], as a rational: 53 bits of
    significand from the exponent -1022 on, fewer below; [None] when
    the value is an infinity (from [2^1024] on). *)
Definition nearest (q : Q) : option Q :=
  let u := (Z.max (ilog2 q) (-1022) - 52)%Z in
  let v := (inject_Z (round_half_even (q / pow2 u)) * pow2 u)%Q in
  if Qle_bool (pow2 1024) v then None else Some v.

(** The digits of a positive integer. *)
Definition digits (z : Z) : jstring :=
  js (NilZero.string_of_uint (N.to_uint (Z.to_N z))).

(** [n] with [10^(n-1) <= v < 10^n], for [v > 0]. *)
Definition decimal_exponent (v : Q) : Z :=
  let n := (Z.of_nat (List.length (digits (Qnum v)))
            - Z.of_nat (List.length (digits (Zpos (Qden v)))))%Z in
  if Qle_bool (pow10 n) v then (n + 1)%Z else n.

Definition denotes (s : Z) (e : Z) (v : Q) : bool :=
  match nearest (inject_Z s * pow10 e)%Q with
  | Some v' => Qeq_bool v' v
  | None => false
  end.

(** Number::toString, step 5: the least [k] and an [s] of [k] digits with
    [s * 10^(n-k)] denoting [v]; of two such [s] the one nearer to [v],
    the even one when they are as near. *)
Fixpoint shortest (fuel : nat) (k : Z) (n : Z) (v : Q) : Z * Z :=
  let e := (n - k)%Z in
  let lo := Qfloor (v / pow10 e) in
  let hi := (lo + 1)%Z in
  let pick :=
    match denotes lo e v, denotes hi e v with
    | true, true =>
        match Qcompare (v - inject_Z lo * pow10 e)%Q (inject_Z hi * pow10 e - v)%Q with
        | Lt => Some lo
        | Gt => Some hi
        | Eq => Some (if Z.even lo then lo else hi)
        end
    | true, false => Some lo
    | false, true => Some hi
    | false, false => None
    end in
  match pick with
  | Some s => (s, k)
  | None =>
      match fuel with
      | O => (lo, k)
      | S fuel' => shortest fuel' (k + 1)%Z n v
      end
  end.

Definition zeros (n : Z) : jstring := repeat (N_of_ascii "0") (Z.to_nat n).

(** Number::toString for a positive value, steps 5 to 13. *)
Definition positive_to_string (v : Q) : jstring :=
  let n0 := decimal_exponent v in
  let (s0, k0) := shortest 20 1 n0 v in
  (* [s0] is [10^k0] when the value sits just below a power of ten *)
  let '(s, k, n) := if Z.eqb s0 (10 ^ k0)%Z then (1%Z, 1%Z, (n0 + 1)%Z) else (s0, k0, n0) in
  let d := digits s in
  if ((-5 <=? n) && (n <=? 21))%Z then
    if (k <=? n)%Z then d ++ zeros (n - k)
    else if (0 <? n)%Z then firstn (Z.to_nat n) d ++ js "." ++ skipn (Z.to_nat n) d
    else js "0." ++ zeros (- n) ++ d
  else
    let e := (n - 1)%Z in
    let sign := if (0 <=? e)%Z then js "+" else js "-" in
    firstn 1 d ++ (if Z.eqb k 1 then [] else js "." ++ skipn 1 d)
      ++ js "e" ++ sign ++ digits (Z.abs e).

(** [String(x)] for a Number, Number::toString with radix 10. *)
Definition number_to_string (x : number) : jstring :=
  match x with
  | NaN => js "NaN"
  | Inf false => js "Infinity"
  | Inf true => js "-Infinity"
  | Fin q =>
      let sign := match Qcompare q 0 with Lt => js "-" | _ => [] end in
      match nearest (Qabs q) with
      | None => sign ++ js "Infinity"
      | Some v => if Qeq_bool v 0 then js "0" else sign ++ positive_to_string v
      end
  end.

(** ToBoolean: zero and NaN are falsy. *)
Definition number_truthy (x : number) : bool :=
  match x with
  | NaN => false
  | Inf _ => true
  | Fin q =>
      match nearest (Qabs q) with
      | None => true
      | Some v => negb (Qeq_bool v 0)
      end
  end.

End JsNumber.
Import JsNumber.


(* ===================================================================== *)
(** * JavaScript values *)
(* ===================================================================== *)

(** Frontmatter, renderer headers and the demo payload are data: what a
    YAML document or a JSON text can denote.  An object is an ordinary
    object with the prototype [Object.prototype]; it keeps its own
    properties, all of them data properties, in insertion order.  A date
    (a YAML timestamp) is known by the text [Date.prototype.toString]
    gives for it, which depends on the time zone of the host. *)

Module JsValue.

Inductive value : Type :=
| VUndefined
| VNull
| VBool (b : bool)
| VNum (x : number)
| VStr (s : jstring)
| VDate (text : jstring)
| VArr (l : list value)
| VObj (o : list (jstring * value)).

Definition obj := list (jstring * value).

(** The Number value of an integer. *)
Definition VInt (z : Z) : value := VNum (Fin (inject_Z z)).

(** ToBoolean *)
Definition truthy (v : value) : bool :=
  match v with
  | VUndefined | VNull => false
  | VBool b => b
  | VNum x => number_truthy x
  | VStr s => match s with [] => false | _ => true end
  | VDate _ | VArr _ | VObj _ => true
  end.

Fixpoint join (sep : jstring) (l : list jstring) : jstring :=
  match l with
  | [] => []
  | [s] => s
  | s :: l' => s ++ sep ++ join sep l'
  end.

(** [o.k] on an object: the own property, [undefined] when absent. *)
Fixpoint obj_get (k : jstring) (o : obj) : value :=
  match o with
  | [] => VUndefined
  | (k', v) :: o' => if jstring_eqb k k' then v else obj_get k o'
  end.

Fixpoint obj_has (k : jstring) (o : obj) : bool :=
  match o with
  | [] => false
  | (k', _) :: o' => jstring_eqb k k' || obj_has k o'
  end.

(** [String(v)]; [None] stands for a [TypeError].  An array is joined
    with commas, [undefined] and [null] elements giving nothing.  An
    object takes [toString] from its prototype and prints
    [[object Object]], unless it has a [toString] of its own: that one
    is data, not callable, the inherited [valueOf] returns the object
    itself, and the conversion throws. *)
Fixpoint to_string (v : value) : option jstring :=
  match v with
  | VUndefined => Some (js "undefined")
  | VNull => Some (js "null")
  | VBool true => Some (js "true")
  | VBool false => Some (js "false")
  | VNum x => Some (number_to_string x)
  | VStr s => Some s
  | VDate text => Some text
  | VArr l =>
      option_map (join (js ","))
        ((fix elements (l : list value) : option (list jstring) :=
            match l with
            | [] => Some []
            | e :: l' =>
                match (match e with
                       | VUndefined | VNull => Some []
                       | _ => to_string e
                       end) with
                | Some s => option_map (cons s) (elements l')
                | None => None
                end
            end) l)
  | VObj o => if obj_has (js "toString") o then None else Some (js "[object Object]")
  end.

(** [o.k = v]: an existing property keeps its place, a new one is
    appended. *)
Fixpoint obj_set (k : jstring) (v : value) (o : obj) : obj :=
  match o with
  | [] => [(k, v)]
  | (k', v') :: o' =>
      if jstring_eqb k k' then (k', v) :: o' else (k', v') :: obj_set k v o'
  end.

(** An object literal [{ k1: v1, ...src, k2: v2 }] is evaluated left to
    right; each entry of the literal is a property definition or a
    spread of the own properties of an object. *)
Inductive literal_entry : Type :=
| Prop_ (k : jstring) (v : value)
| Spread (src : obj).

Definition obj_spread (src o : obj) : obj :=
  fold_left (fun acc kv => obj_set (fst kv) (snd kv) acc) src o.

Definition obj_literal (entries : list literal_entry) : obj :=
  fold_left (fun acc e =>
               match e with
               | Prop_ k v => obj_set k v acc
               | Spread src => obj_spread src acc
               end) entries [].

(** [v.k] on an arbitrary value that is neither [undefined] nor [null]:
    primitives, arrays and dates have none of the properties read here. *)
Definition get_prop (k : jstring) (v : value) : value :=
  match v with
  | VObj o => obj_get k o
  | _ => VUndefined
  end.

(** [a === b] against a string constant. *)
Definition strict_eq_str (v : value) (s : jstring) : bool :=
  match v with
  | VStr t => jstring_eqb t s
  | _ => false
  end.

End JsValue.
Import JsValue.

(* ===================================================================== *)
(** * The compile cache *)
(* ===================================================================== *)

(** Modelled from the spec: the [lru-cache] package ([LRUCache]) is an
    external dependency whose code is not part of the sources.  The
    specification describes it as a mapping from raw source string to
    compile result of bounded capacity with least-recently-used eviction,
    recency being refreshed by both [get] and [set]; an insert evicts the
    least-recently-used entry once over capacity.  The entries are kept
    most recently used first. *)

Module Lru.

Section Cache.

Variable V : Type.

Definition lru := list (jstring * V).

Fixpoint find (k : jstring) (c : lru) : option V :=
  match c with
  | [] => None
  | (k', v) :: c' => if jstring_eqb k k' then Some v else find k c'
  end.

Fixpoint remove_key (k : jstring) (c : lru) : lru :=
  match c with
  | [] => []
  | (k', v) :: c' =>
      if jstring_eqb k k' then remove_key k c' else (k', v) :: remove_key k c'
  end.

Definition keys (c : lru) : list jstring := map fst c.

(** [cache.get(k)] *)
Definition get (k : jstring) (c : lru) : option V * lru :=
  match find k c with
  | Some v => (Some v, (k, v) :: remove_key k c)
  | None => (None, c)
  end.

(** [cache.set(k, v)] with capacity [max] *)
Definition set (max : nat) (k : jstring) (v : V) (c : lru) : lru :=
  match find k c with
  | Some _ => (k, v) :: remove_key k c
  | None =>
      if Nat.leb max (List.length c)
      then (k, v) :: removelast c
      else (k, v) :: c
  end.

End Cache.

End Lru.

(* ===================================================================== *)
(** * markdownToVue.ts *)
(* ===================================================================== *)

Module MarkdownToVue.

(** ** Data *)

(** [PageData] (imported from [../shared]); a header is an object read
    only through its [title] and [content] properties. *)
Record PageData : Type := {
  title : jstring;
  description : value;
  frontmatter : obj;
  headers : list obj;
  relativePath : jstring;
  content : jstring;
  html : jstring;
  lastUpdated : Z
}.

(** [MarkdownCompileResult], lines 22-25. *)
Record MarkdownCompileResult : Type := {
  vueSrc : jstring;
  pageData : PageData
}.

(** What [md.render] returns: the HTML and the parsed data. *)
Record RenderOutput : Type := {
  r_html : jstring;
  r_headers : list obj;
  r_vueCode : option jstring
}.

(** The second argument of [fetchCode]. *)
Inductive part : Type := PTemplate | PScript | PStyle | PScriptContent.

(** ** Exceptions *)

Inductive error : Type :=
| FrontmatterError
| RenderError
| MissingFileError
| TranspileError
| TypeError.

Inductive result (A : Type) : Type :=
| Ok (a : A)
| Throw (e : error).
Arguments Ok {A} a.
Arguments Throw {A} e.

(** ** Collaborators

    Everything the module imports and does not define: [path.relative],
    [slash], [gray-matter], the markdown renderer, [escape-html],
    [fs.statSync], [./utils/fetchCode], Babel's [transformSync], ESLint's
    [lintText], [JSON.stringify] and base64 encoding.  Each is a
    deterministic function of its argument; those that can throw return
    a [result]. *)
Record Env : Type := {
  path_relative : jstring -> jstring -> jstring;
  slash : jstring -> jstring;
  matter : jstring -> result (jstring * obj);
  md_render : jstring -> result RenderOutput;
  escapeHtml : jstring -> jstring;
  statSync_mtimeMs : jstring -> result Q;
  fetchCode : jstring -> part -> jstring;
  transformSync : jstring -> result jstring;
  lintText : jstring -> result (option jstring);
  JSON_stringify : value -> jstring;
  base64 : jstring -> jstring
}.

(** ** State and effects

    The module-level [cache] (line 27) is the only state the compile
    function owns.  The world also records each invocation of a
    collaborator with an observable cost or effect, in order. *)

Inductive event : Type :=
| EvMatter (src : jstring)
| EvRender (text : jstring)
| EvStat (file : jstring)
| EvTransform (script : jstring)
| EvLint (code : jstring).

Record world : Type := {
  cache : Lru.lru MarkdownCompileResult;
  trace : list event
}.

(** [new LRUCache({ max: 1024 })] *)
Definition cache_max : nat := 1024.
Definition initial_world : world := {| cache := []; trace := [] |}.

(** A computation reads and updates the world and returns or throws; the
    world survives a throw. *)
Definition M (A : Type) : Type := world -> result A * world.

Definition ret {A} (a : A) : M A := fun w => (Ok a, w).

Definition bind {A B} (c : M A) (f : A -> M B) : M B :=
  fun w =>
    match c w with
    | (Ok a, w') => f a w'
    | (Throw e, w') => (Throw e, w')
    end.

Definition lift {A} (r : result A) : M A := fun w => (r, w).

(** Invoke a collaborator: the invocation is recorded whether it returns
    or throws. *)
Definition call {A} (ev : event) (r : result A) : M A :=
  fun w => (r, {| cache := cache w; trace := trace w ++ [ev] |}).

Definition cache_get (k : jstring) : M (option MarkdownCompileResult) :=
  fun w =>
    let (v, c) := Lru.get k (cache w) in
    (Ok v, {| cache := c; trace := trace w |}).

Definition cache_set (k : jstring) (v : MarkdownCompileResult) : M unit :=
  fun w => (Ok tt, {| cache := Lru.set cache_max k v (cache w); trace := trace w |}).

Declare Scope m_scope.
Delimit Scope m_scope with m.
Notation "x <- c1 ;; c2" := (bind c1 (fun x => c2))
  (at level 61, c1 at next level, right associativity) : m_scope.
Notation "c1 ;; c2" := (bind c1 (fun _ => c2))
  (at level 61, right associativity) : m_scope.
Local Open Scope m_scope.

(** ** Small helpers *)

Definition LF : jstring := [10%N].
Definition DQ : jstring := [34%N].

(** [Math.round]: the nearest integer, halves rounded up. *)
Definition Math_round (q : Q) : Z := Qfloor (Qplus q (Qmake 1 2)).

(** [`\`\`\`vue\n${code}\n\`\`\``] *)
Definition fence (code : jstring) : jstring :=
  js "```vue" ++ LF ++ code ++ LF ++ js "```".

(** ** [inferTitle], lines 149-161

    [frontmatter.title] is any value; [deeplyParseHeader] starts with
    [String(str)] (parseHeader.ts, line 36), which is [to_string] here
    and throws a [TypeError] where [String] does.  The first group of
    the pattern takes part in every match; were it not to,
    [match[1]?.trim()] would be [undefined], of which [String] makes the
    text [undefined]. *)

(** Line 156, with the [m] flag: [^], [\s*], [#+], [\s+], then a group
    capturing [.*] (the rest of the line). *)
Definition re_heading : regex :=
  Seq [Bol; Star Spc; Plus (Chr (ch "#")); Plus Spc; Grp 1 (Star Dot)].

Definition inferTitle (frontmatter : obj) (content : jstring) : result jstring :=
  if truthy (obj_get (js "home") frontmatter) then Ok (js "Home")
  else if truthy (obj_get (js "title") frontmatter)
  then
    match to_string (obj_get (js "title") frontmatter) with
    | Some s => Ok (deeplyParseHeader s)
    | None => Throw TypeError
    end
  else
    match regex_match true re_heading content with
    | Some st =>
        Ok (deeplyParseHeader
              (match get_cap 1 (caps st) with
               | Some w => trim w
               | None => js "undefined"
               end))
    | None => Ok []
    end.

(** ** [getHeadMetaContent] and [inferDescription], lines 163-180 *)

(** The predicate given to [head.find]:
    [([tag, attrs = {}]) => tag === 'meta' && attrs.name === name && attrs.content].
    Destructuring throws on an entry that is not iterable; the code
    points of a string entry never equal ['meta']. *)
Definition is_meta_named (name : jstring) (entry : value) : result bool :=
  match entry with
  | VArr l =>
      let tag := nth 0 l VUndefined in
      let attrs := match nth 1 l VUndefined with
                   | VUndefined => VObj []
                   | a => a
                   end in
      if strict_eq_str tag (js "meta") then
        match attrs with
        | VNull => Throw TypeError
        | _ =>
            if strict_eq_str (get_prop (js "name") attrs) name
            then Ok (truthy (get_prop (js "content") attrs))
            else Ok false
        end
      else Ok false
  | VStr _ => Ok false
  | _ => Throw TypeError
  end.

Fixpoint find_meta (name : jstring) (head : list value) : result (option value) :=
  match head with
  | [] => Ok None
  | e :: head' =>
      match is_meta_named name e with
      | Throw x => Throw x
      | Ok true => Ok (Some e)
      | Ok false => find_meta name head'
      end
  end.

Definition getHeadMetaContent (head : value) (name : jstring) : result value :=
  match head with
  | VArr l =>
      match l with
      | [] => Ok VUndefined
      | _ =>
          match find_meta name l with
          | Throw x => Throw x
          | Ok None => Ok VUndefined
          | Ok (Some (VArr m)) => Ok (get_prop (js "content") (nth 1 m VUndefined))
          | Ok (Some _) => Throw TypeError
          end
      end
  | VStr s => match s with [] => Ok VUndefined | _ => Throw TypeError end
  | VObj o => if truthy (obj_get (js "length") o) then Throw TypeError else Ok VUndefined
  | _ => Ok VUndefined
  end.

Definition inferDescription (frontmatter : obj) : result value :=
  if negb (truthy (obj_get (js "head") frontmatter)) then Ok (VStr [])
  else
    match getHeadMetaContent (obj_get (js "head") frontmatter) (js "description") with
    | Throw x => Throw x
    | Ok v => Ok (if truthy v then v else VStr [])
    end.

Definition pageData_value (p : PageData) : value :=
  VObj [ (js "title", VStr (title p));
         (js "description", description p);
         (js "frontmatter", VObj (frontmatter p));
         (js "headers", VArr (map VObj (headers p)));
         (js "relativePath", VStr (relativePath p));
         (js "content", VStr (content p));
         (js "html", VStr (html p));
         (js "lastUpdated", VInt (lastUpdated p)) ].

Section Compile.

Variable E : Env.
Variable root : jstring.

(** ** [tsToJs] (utils/tsToJs) *)

(** [undefined] is [None]: ESLint reports no [output] when it fixed
    nothing. *)
Definition tsToJs (content : jstring) : M (option jstring) :=
  match content with
  | [] => ret (Some [])
  | _ =>
      code <- call (EvTransform content) (transformSync E content) ;;
      output <- call (EvLint code) (lintText E code) ;;
      ret (match output with
           | Some [] => Some []
           | Some o => Some (trim o)
           | None => None
           end)
  end.

(** ** [genComponentCode], lines 86-147 *)

(** [headers.find(h => h.title === t)?.content] *)
Definition header_content (t : jstring) (hs : list obj) : value :=
  match List.find (fun h => strict_eq_str (obj_get (js "title") h) t) hs with
  | Some h => obj_get (js "content") h
  | None => VUndefined
  end.

(** The script wrapper of the vanilla variant, lines 105-110. *)
Definition wrap_script (out : option jstring) : jstring :=
  match option_map trim out with
  | Some (c :: j) => js "<script>" ++ LF ++ (c :: j) ++ LF ++ js "</script>"
  | _ => []
  end.

(** Lines 111-115. *)
Definition assemble (template jsCode style : jstring) : jstring :=
  trim (LF ++ template ++ LF ++ jsCode ++ LF ++ style ++ LF ++ js "  ").

(** The object literal of lines 124-132. *)
Definition payload (us cn : value) (pd : PageData) (vueCode jsSourceCode : jstring) : obj :=
  obj_literal
    [ Prop_ (js "us") us;
      Prop_ (js "cn") cn;
      Prop_ (js "docHtml")
        (VStr (before_first (js "<pre class=" ++ DQ ++ js "language-vue" ++ DQ ++ js " v-pre>")
                 (html pd)));
      Spread (frontmatter pd);
      Prop_ (js "relativePath") (VStr (relativePath pd));
      Prop_ (js "sourceCode") (VStr (base64 E vueCode));
      Prop_ (js "jsSourceCode") (VStr (base64 E jsSourceCode)) ].

(** The vanilla variant of a demo source: lines 101-115. *)
Definition vanilla (vueCode : jstring) : M jstring :=
  let template := fetchCode E vueCode PTemplate in
  let style := fetchCode E vueCode PStyle in
  let scriptContent := fetchCode E vueCode PScriptContent in
  out <- tsToJs scriptContent ;;
  ret (assemble template (wrap_script out) style).

Definition genComponentCode (data : RenderOutput) (vueCode : jstring) (pd : PageData)
  : M jstring :=
  let cn := header_content (js "zh-CN") (r_headers data) in
  let us := header_content (js "en-US") (r_headers data) in
  r1 <- call (EvRender (fence (trim vueCode))) (md_render E (fence (trim vueCode))) ;;
  let html1 := Escaper.escape (r_html r1) in
  let template := fetchCode E vueCode PTemplate in
  let script := fetchCode E vueCode PScript in
  let style := fetchCode E vueCode PStyle in
  jsSourceCode <- vanilla vueCode ;;
  r2 <- call (EvRender (fence jsSourceCode)) (md_render E (fence jsSourceCode)) ;;
  let jsVersion := Escaper.escape (r_html r2) in
  let jsfiddle :=
    escapeHtml E (JSON_stringify E (VObj (payload us cn pd vueCode jsSourceCode))) in
  ret (LF ++
       js "    <template>" ++ LF ++
       js "      <demo-box :jsfiddle=" ++ DQ ++ jsfiddle ++ DQ ++ js ">" ++ LF ++
       js "        " ++
         replace_first (js "<template>") (js "<template v-slot:default>") template ++ LF ++
       js "        <template #htmlCode>" ++ html1 ++ js "</template>" ++ LF ++
       js "        <template #jsVersionHtml>" ++ jsVersion ++ js "</template>" ++ LF ++
       js "      </demo-box>" ++ LF ++
       js "    </template>" ++ LF ++
       js "    " ++ script ++ LF ++
       js "    " ++ style ++ LF ++
       js "    ").

(** The component of a page without a demo, lines 67-74. *)
Definition plain_component (html' : jstring) (pd : PageData) (body : jstring) : jstring :=
  LF ++
  js "<template><article class=" ++ DQ ++ js "markdown" ++ DQ ++ js ">" ++ html' ++
    js "</article></template>" ++ LF ++
  LF ++
  js "<script>" ++ LF ++
  js "export default { pageData: " ++ JSON_stringify E (pageData_value pd) ++ js " }" ++ LF ++
  js "</script>" ++ LF ++
  fetchCode E body PStyle ++ LF.

(** ** The compile function, lines 35-83 *)

Definition compile (src file : jstring) : M MarkdownCompileResult :=
  let relativePath := slash E (path_relative E root file) in
  cached <- cache_get src ;;
  match cached with
  | Some hit => ret hit
  | None =>
      fm <- call (EvMatter src) (matter E src) ;;
      let (body, frontmatter) := (fm : jstring * obj) in
      rendered <- call (EvRender body) (md_render E body) ;;
      let html' := Escaper.escape (r_html rendered) in
      title <- lift (inferTitle frontmatter body) ;;
      description <- lift (inferDescription frontmatter) ;;
      let content := escapeHtml E body in
      mtimeMs <- call (EvStat file) (statSync_mtimeMs E file) ;;
      let pd := {| title := title;
                   description := description;
                   frontmatter := frontmatter;
                   headers := r_headers rendered;
                   relativePath := relativePath;
                   content := content;
                   html := html';
                   lastUpdated := Math_round mtimeMs |} in
      newContent <-
        match r_vueCode rendered with
        | Some (c :: v) => genComponentCode rendered (c :: v) pd
        | _ => ret (plain_component html' pd body)
        end ;;
      let result := {| vueSrc := trim newContent; pageData := pd |} in
      cache_set src result ;;
      ret result
  end.

End Compile.

End MarkdownToVue.
Import MarkdownToVue.

(* ===================================================================== *)
(** * The title as the specification words it *)
(* ===================================================================== *)

(** The specification's title rule, to be compared with [inferTitle]:
    "if frontmatter marks the page as home, title = Home; else if
    frontmatter provides a title, sanitize it via the deep header
    pipeline; else scan body for the first top-level heading line and
    sanitize its captured text; else empty string".  A top-level heading
    line opens with a single [#]. *)

Module TitleSpec.

Definition re_top_level_heading : regex :=
  Seq [Bol; Star Spc; Chr (ch "#"); Plus Spc; Grp 1 (Star Dot)].

Definition first_top_level_heading (body : jstring) : option jstring :=
  match regex_match true re_top_level_heading body with
  | Some st => get_cap 1 (caps st)
  | None => None
  end.

Definition title_of (frontmatter : obj) (body : jstring) : result jstring :=
  if truthy (obj_get (js "home") frontmatter) then Ok (js "Home")
  else if truthy (obj_get (js "title") frontmatter)
  then
    match to_string (obj_get (js "title") frontmatter) with
    | Some s => Ok (deeplyParseHeader s)
    | None => Throw TypeError
    end
  else
    match first_top_level_heading body with
    | Some captured => Ok (deeplyParseHeader (trim captured))
    | None => Ok []
    end.

End TitleSpec.

(* ===================================================================== *)
(** * The title rule as the code has it *)
(* ===================================================================== *)

(** The amended title rule, in words, to be compared with [inferTitle]:
    scan the body for the first line start, that is the start of the
    body or the position after a line terminator, at which a heading
    opens.  A heading opens with optional white space, one or more [#]
    and one or more white space; white space includes the line
    terminators, so either run may go over line ends.  The text of the
    heading is what is left of the line after that white space. *)

Module TitleRule.

Fixpoint take_while (ok : char -> bool) (s : jstring) : jstring :=
  match s with
  | c :: s' => if ok c then c :: take_while ok s' else []
  | [] => []
  end.

Fixpoint drop_while (ok : char -> bool) (s : jstring) : jstring :=
  match s with
  | c :: s' => if ok c then drop_while ok s' else s
  | [] => []
  end.

Definition is_hash (c : char) : bool := char_eqb (ch "#") c.

Definition on_line (c : char) : bool := negb (is_line_terminator c).

(** The text of the heading that opens where [s] starts, if one does. *)
Definition heading_text (s : jstring) : option jstring :=
  let marks := drop_while is_space s in
  let gap := drop_while is_hash marks in
  match take_while is_hash marks, take_while is_space gap with
  | _ :: _, _ :: _ => Some (take_while on_line (drop_while is_space gap))
  | _, _ => None
  end.

(** The first heading from [s] on; [line_start] tells whether [s] starts
    at a line start. *)
Fixpoint scan (line_start : bool) (s : jstring) : option jstring :=
  match (if line_start then heading_text s else None), s with
  | Some text, _ => Some text
  | None, c :: s' => scan (is_line_terminator c) s'
  | None, [] => None
  end.

Definition first_heading (body : jstring) : option jstring := scan true body.

End TitleRule.

(* ===================================================================== *)
(** * Runs of the compile function *)
(* ===================================================================== *)

(** A run is a sequence of calls [(src, file)] made one after the other
    against the shared cache; a call that throws leaves the later calls
    to go on with the world it left.  Besides the final world the run
    tells which sources were compiled with success, the most recent
    first. *)
Fixpoint run (E : Env) (root : jstring) (calls : list (jstring * jstring))
    (w : world) (used : list jstring) : world * list jstring :=
  match calls with
  | [] => (w, used)
  | (src, file) :: calls' =>
      match compile E root src file w with
      | (Ok _, w') => run E root calls' w' (src :: used)
      | (Throw _, w') => run E root calls' w' used
      end
  end.

(** The worlds a process can be in. *)
Inductive reachable (E : Env) (root : jstring) : world -> Prop :=
| reach_init : reachable E root initial_world
| reach_compile w src file :
    reachable E root w ->
    reachable E root (snd (compile E root src file w)).

(** The distinct elements of a list, each at its first place. *)
Fixpoint remove_str (k : jstring) (l : list jstring) : list jstring :=
  match l with
  | [] => []
  | x :: l' => if jstring_eqb k x then remove_str k l' else x :: remove_str k l'
  end.

Fixpoint distinct (l : list jstring) : list jstring :=
  match l with
  | [] => []
  | x :: l' => x :: remove_str x (distinct l')
  end.

(* ===================================================================== *)
(** * Collaborators for concrete runs *)
(* ===================================================================== *)

(** Small stand-ins for the collaborators, right on the inputs used
    below: POSIX paths under the root or relative to it (the root being
    the working directory), sources without a frontmatter block, files
    that exist except one, and one demo source whose script holds a type
    alias and nothing else.  The base64 encoding is left out (the
    identity), and the JSON text is right for strings without escapes. *)

Module Sample.

Definition root : jstring := js "/r".

Definition sample_relative (from to : jstring) : jstring :=
  if prefixb (from ++ js "/") to
  then skipn (List.length from + 1) to
  else to.

Definition sample_slash (path : jstring) : jstring :=
  map (fun c => if char_eqb c (ch "\") then ch "/" else c) path.

Definition sample_escapeHtml (s : jstring) : jstring :=
  flat_map (fun c =>
    if char_eqb c 34%N then js "&quot;"
    else if char_eqb c (ch "&") then js "&amp;"
    else if char_eqb c (ch "'") then js "&#39;"
    else if char_eqb c (ch "<") then js "&lt;"
    else if char_eqb c (ch ">") then js "&gt;"
    else [c]) s.

Definition demo : jstring :=
  js "<template><b/></template><script>type A = number</script><style>b{}</style>".

(** The page [demo page] carries the demo source. *)
Definition sample_render (text : jstring) : result RenderOutput :=
  Ok {| r_html := js "<p>" ++ text ++ js "</p>";
        r_headers := [];
        r_vueCode := if jstring_eqb text (js "demo page") then Some demo else None |}.

Definition sample_stat (file : jstring) : result Q :=
  if jstring_eqb file (js "/r/missing.md")
  then Throw MissingFileError
  else Ok (Qmake 1700000000000 1).

Definition sample_fetchCode (code : jstring) (p : part) : jstring :=
  if jstring_eqb code demo then
    match p with
    | PTemplate => js "<template><b/></template>"
    | PScript => js "<script>type A = number</script>"
    | PStyle => js "<style>b{}</style>"
    | PScriptContent => js "type A = number"
    end
  else [].

Definition sample_transformSync (script : jstring) : result jstring :=
  if jstring_eqb script (js "type A = number") then Ok [] else Ok script.

(** JSON text of a value whose strings need no escapes, whose numbers
    are finite and that holds no date. *)
Fixpoint sample_json (v : value) : jstring :=
  match v with
  | VUndefined | VNull => js "null"
  | VBool b => if b then js "true" else js "false"
  | VNum x => number_to_string x
  | VStr s | VDate s => DQ ++ s ++ DQ
  | VArr l => js "[" ++ join (js ",") (map sample_json l) ++ js "]"
  | VObj o =>
      js "{" ++
      join (js ",")
        (flat_map (fun kv =>
           match kv with
           | (_, VUndefined) => []
           | (k, v') => [DQ ++ k ++ DQ ++ js ":" ++ sample_json v']
           end) o) ++
      js "}"
  end.

Definition env : Env :=
  {| path_relative := sample_relative;
     slash := sample_slash;
     matter := fun src => Ok (src, []);
     md_render := sample_render;
     escapeHtml := sample_escapeHtml;
     statSync_mtimeMs := sample_stat;
     fetchCode := sample_fetchCode;
     transformSync := sample_transformSync;
     lintText := fun _ => Ok None;
     JSON_stringify := sample_json;
     base64 := fun s => s |}.

End Sample.

(** The same collaborators with a linter that fixes something: it
    reports the code it was given between white space. *)
Module SampleLint.

Definition env : Env :=
  {| path_relative := path_relative Sample.env;
     slash := slash Sample.env;
     matter := matter Sample.env;
     md_render := md_render Sample.env;
     escapeHtml := escapeHtml Sample.env;
     statSync_mtimeMs := statSync_mtimeMs Sample.env;
     fetchCode := fetchCode Sample.env;
     transformSync := fun s => Ok s;
     lintText := fun code => Ok (Some (js "  " ++ code ++ LF));
     JSON_stringify := JSON_stringify Sample.env;
     base64 := base64 Sample.env |}.

End SampleLint.

(* ===================================================================== *)
(** * index.ts *)
(* ===================================================================== *)

Module Plugin.

(** [s.endsWith(suffix)] *)
Definition endsWith (s suffix : jstring) : bool := prefixb (rev suffix) (rev s).

(** What [transform] hands back to the build tool; [map] is [null]. *)
Record TransformResult : Type := {
  code : jstring;
  map : value
}.

Section Transform.

Variable E : Env.
Variable root : jstring.

Local Open Scope m_scope.

(** [transform(code, id)], lines 15-18: [None] is [undefined], returned
    for an id that does not end in [.md]. *)
Definition transform (code id : jstring) : M (option TransformResult) :=
  if endsWith id (js ".md")
  then r <- compile E root code id ;;
       ret (Some {| code := vueSrc r; map := VNull |})
  else ret None.

End Transform.

End Plugin.


(* ===================================================================== *)
(** * Notions used in the statements and their proofs *)
(* ===================================================================== *)

(** ** Texts *)

(** White space only. *)
Definition blank (s : jstring) : Prop := forallb is_space s = true.

(** No line terminator. *)
Definition no_line_end (text : jstring) : Prop :=
  forallb (fun a => negb (is_line_terminator a)) text = true.

(** A run of code units of the class [ok] ends where [tail] starts. *)
Definition stops (ok : char -> bool) (tail : jstring) : Prop :=
  match tail with
  | [] => True
  | c :: _ => ok c = false
  end.

Definition hashes (n : nat) : jstring := repeat (ch "#") n.

(** The pattern that matches the text [p] and nothing else. *)
Definition literal (p : jstring) : regex := Seq (map Chr p).

Definition backticked_tag : jstring := Eval cbv in js "`<a>` b".

Definition two_headings : jstring := js "## Sub" ++ LF ++ js "# Top".

(** The heading pattern of [inferTitle] from its [#]s on, and from the
    white space behind them on. *)
Definition from_marks : regex := Seq [Plus (Chr (ch "#")); Plus Spc; Grp 1 (Star Dot)].

Definition after_marks : regex := Seq [Plus Spc; Grp 1 (Star Dot)].

(** ** The matcher *)

(** A continuation that does not run out of fuel on what is left of an
    input of length [n]. *)
Definition total_on (n : nat) (k : mstate -> outcome) : Prop :=
  forall st, List.length (rest st) <= n -> k st <> OutOfFuel.

(** ** Computations *)

Section Notions.

Variable E : Env.
Variable root : jstring.

Local Open Scope m_scope.

(** [steady c r]: whatever the world, [c] returns or throws [r], keeps
    the cache and only adds to the trace. *)
Definition steady {A} (c : M A) (r : result A) : Prop :=
  forall w, fst (c w) = r /\ cache (snd (c w)) = cache w /\
            exists t, trace (snd (c w)) = trace w ++ t.

Definition settled {A} (c : M A) : Prop := exists r, steady c r.

(** Two computations that return or throw the same, whatever the worlds
    they start from. *)
Definition same_result {A} (c1 c2 : M A) : Prop :=
  forall w1 w2, fst (c1 w1) = fst (c2 w2).

(** The part of [compile] between the cache lookup and the cache store,
    lines 44-80. *)
Definition build_page (src file : jstring) : M MarkdownCompileResult :=
  let relativePath := slash E (path_relative E root file) in
  fm <- call (EvMatter src) (matter E src) ;;
  let (body, frontmatter) := (fm : jstring * obj) in
  rendered <- call (EvRender body) (md_render E body) ;;
  let html' := Escaper.escape (r_html rendered) in
  title <- lift (inferTitle frontmatter body) ;;
  description <- lift (inferDescription frontmatter) ;;
  mtimeMs <- call (EvStat file) (statSync_mtimeMs E file) ;;
  let pd := {| title := title;
               description := description;
               frontmatter := frontmatter;
               headers := r_headers rendered;
               relativePath := relativePath;
               content := escapeHtml E body;
               html := html';
               lastUpdated := Math_round mtimeMs |} in
  newContent <-
    match r_vueCode rendered with
    | Some (c :: v) => genComponentCode E rendered (c :: v) pd
    | _ => ret (plain_component E html' pd body)
    end ;;
  ret {| vueSrc := trim newContent; pageData := pd |}.

(** Its result: a function of the source and the file. *)
Definition page_result (src file : jstring) : result MarkdownCompileResult :=
  fst (build_page src file initial_world).

(** A cache entry whose [content] belongs to its key. *)
Definition content_ok (src : jstring) (r : MarkdownCompileResult) : Prop :=
  exists body fm,
    matter E src = Ok (body, fm) /\ content (pageData r) = escapeHtml E body.

Definition cache_content_ok (w : world) : Prop :=
  forall k v, In (k, v) (cache w) -> content_ok k v.

End Notions.

(** The cache lists the [max] most recently used keys, the most recent
    first: [used] is the history of the keys written or hit. *)
Definition lists_recent {V} (max : nat) (c : Lru.lru V) (used : list jstring) : Prop :=
  Lru.keys c = firstn max (distinct used).

(** ** Frontmatter head lists *)

(** A head entry as the frontmatter is meant to give it: [[tag, attrs]]. *)
Definition head_entry (e : jstring * obj) : value :=
  VArr [VStr (fst e); VObj (snd e)].

(** The entry sought by [inferDescription]: a [meta] tag named
    [description] with a truthy [content]. *)
Definition describes (e : jstring * obj) : bool :=
  jstring_eqb (fst e) (js "meta") &&
  strict_eq_str (obj_get (js "name") (snd e)) (js "description") &&
  truthy (obj_get (js "content") (snd e)).

(** The values a destructuring pattern [[a, b]] can take apart. *)
Definition iterable (v : value) : bool :=
  match v with
  | VArr _ | VStr _ => true
  | _ => false
  end.

(** ** The demo payload *)

(** The mark of the highlighted demo in the page, line 127. *)
Definition demo_marker : jstring :=
  js "<pre class=" ++ DQ ++ js "language-vue" ++ DQ ++ js " v-pre>".

(** The property names the payload computes itself. *)
Definition payload_names : list jstring :=
  [js "us"; js "cn"; js "docHtml"; js "relativePath"; js "sourceCode"; js "jsSourceCode"].

(** ** Entities *)

Definition entities : list jstring :=
  [js "&quot;"; js "&#39;"; js "&#x3A;"; js "&lt;"; js "&gt;"].

(** ** Texts without markup *)

(** None of the code units [cs] occurs in [s]. *)
Definition free_of (cs : list char) (s : jstring) : bool :=
  forallb (fun c => negb (existsb (char_eqb c) cs)) s.

(** The code units at which a pattern of [removeMarkdownTokens] can
    start: [[], the emphasis and code delimiters, and the backslash. *)
Definition md_marks : list char := [ch "["; ch "`"; ch "*"; ch "_"; ch "\"].

(** The code units before a [<] that keep [removeNonCodeWrappedHTML]
    from taking a tag away. *)
Definition tag_guards : list char := [ch ">"; ch "<"; ch "`"; ch "\"].

(** Every [<] but one at the very start has a guard right before it. *)
Fixpoint guarded (s : jstring) : bool :=
  match s with
  | a :: (b :: _) as s' =>
      (negb (char_eqb b (ch "<")) || existsb (char_eqb a) tag_guards) && guarded s'
  | _ => true
  end.

(** The delimiter pairs of the second pattern of [removeMarkdownTokens]. *)
Definition delimiters : list jstring :=
  [js "`"; js "*"; js "**"; js "***"; js "_"].

(** The marks that a backslash escapes, third pattern of
    [removeMarkdownTokens]. *)
Definition escapable : list char :=
  [ch "*"; ch "_"; ch "`"; ch "!"; ch "<"; ch "$"].

(** No attempt of the pattern at the position where [s] starts matches. *)
Definition no_match (multiline : bool) (input : jstring) (r : regex) (s : jstring)
  : Prop :=
  forall st, match_here multiline input r s <> Matched st.

(** The text starts with none of the code units [cs]. *)
Definition head_not_in (cs : list char) (s : jstring) : Prop :=
  match s with
  | c :: _ => existsb (char_eqb c) cs = false
  | [] => True
  end.

(** A tag can be taken away at the position where [s] starts: [s] opens
    with [<] at the very start of the input, or with a code unit that is
    no guard followed by [<]. *)
Definition tag_start (first : bool) (s : jstring) : bool :=
  match s with
  | a :: tl =>
      (first && char_eqb a (ch "<"))
      || (negb (existsb (char_eqb a) tag_guards)
          && match tl with b :: _ => char_eqb b (ch "<") | [] => false end)
  | [] => false
  end.

(** The code units that make the header sanitizer do more than trim. *)
Definition markup : list char := ch "&" :: ch "<" :: md_marks.

(** ** Proof automation *)

Create HintDb settled.

(** Arithmetic on the lengths of lists of code units. *)
Ltac length_lia :=
  repeat rewrite ?length_app, ?repeat_length; cbn [List.length];
  repeat match goal with
         | |- context [@List.length ?A ?l] =>
             let x := fresh "len" in generalize (@List.length A l); intro x
         end;
  lia.

Ltac lengths_lia :=
  cbn [List.length] in *;
  repeat rewrite ?length_app, ?repeat_length, ?length_skipn, ?length_firstn in *;
  cbn [List.length] in *;
  repeat match goal with
         | |- context [@List.length ?A ?l] =>
             let x := fresh "len" in
             generalize dependent (@List.length A l); intro x
         | H : context [@List.length ?A ?l] |- _ =>
             let x := fresh "len" in
             generalize dependent (@List.length A l); intro x
         end;
  lia.

(* ===================================================================== *)
(** * Properties of strings *)
(* ===================================================================== *)

Lemma jstring_eqb_spec s t : reflect (s = t) (jstring_eqb s t).
Proof.
  revert t; induction s as [|a s IH]; intros [|b t]; simpl;
    try (constructor; congruence).
  unfold char_eqb; destruct (N.eqb_spec a b) as [->|Hab]; simpl.
  - destruct (IH t) as [->|Hst]; constructor; congruence.
  - constructor; congruence.
Qed.

Lemma jstring_eqb_refl s : jstring_eqb s s = true.
Proof. destruct (jstring_eqb_spec s s); congruence. Qed.

Lemma jstring_eqb_eq s t : jstring_eqb s t = true <-> s = t.
Proof. destruct (jstring_eqb_spec s t); split; congruence. Qed.

Lemma jstring_eqb_neq s t : jstring_eqb s t = false <-> s <> t.
Proof. destruct (jstring_eqb_spec s t); split; congruence. Qed.

Lemma prefixb_cons a q c s :
  prefixb (a :: q) (c :: s) = char_eqb a c && prefixb q s.
Proof. reflexivity. Qed.

Lemma prefixb_split p s :
  prefixb p s = true -> s = p ++ skipn (List.length p) s.
Proof.
  revert s; induction p as [|a p IH]; intros [|c s]; simpl; try congruence.
  intros H; apply andb_prop in H as [Hac Hps].
  apply N.eqb_eq in Hac; subst c. f_equal; auto.
Qed.

Lemma prefixb_nil_false p : p <> [] -> prefixb p [] = false.
Proof. destruct p; simpl; congruence. Qed.

Lemma occursb_skipn q n s :
  occursb q s = false -> occursb q (skipn n s) = false.
Proof.
  revert s; induction n as [|n IH]; intros [|c s] H; simpl in *; auto.
  apply orb_false_elim in H as [_ H]; auto.
Qed.

Lemma replace_from_skipn p r k s :
  replace_from p r k s = replace_all p r (skipn k s).
Proof.
  revert k; induction s as [|c s IH]; intros [|k]; try reflexivity.
  simpl replace_from at 1. rewrite IH. reflexivity.
Qed.

Lemma replace_all_cons p r c s :
  replace_all p r (c :: s) =
  if prefixb p (c :: s)
  then r ++ replace_all p r (skipn (List.length p - 1) s)
  else c :: replace_all p r s.
Proof.
  unfold replace_all at 1; simpl replace_from.
  destruct (prefixb p (c :: s)); [|reflexivity].
  now rewrite replace_from_skipn.
Qed.

(** A text in which the pattern does not occur is left as it is. *)
Lemma replace_all_absent p r s :
  occursb p s = false -> replace_all p r s = s.
Proof.
  induction s as [|c s IH]; intros H; [reflexivity|].
  simpl in H; apply orb_false_elim in H as [Hpre Hocc].
  rewrite replace_all_cons, Hpre, IH; auto.
Qed.

(** ** Inserting a marker

    The replacement [r] repeats a prefix [u] of the pattern and continues
    with a code unit [mk].  A text [q] free of [mk] that is seen in the
    output at a given place was already there in the input. *)

Section Marker.

Variables (p r u v w : jstring) (mk : char).
Hypothesis Hp : p = u ++ v.
Hypothesis Hr : r = u ++ mk :: w.

Lemma prefixb_before_marker q x y :
  ~ In mk q -> prefixb q (u ++ mk :: x) = true -> prefixb q (u ++ y) = true.
Proof.
  clear Hp Hr.
  revert q; induction u as [|a u' IH]; intros [|b q] Hq H; simpl in *; auto.
  - apply andb_prop in H as [H _]. apply N.eqb_eq in H. subst. tauto.
  - apply andb_prop in H as [H1 H2]. rewrite H1. simpl.
    apply IH; auto.
Qed.

Lemma prefixb_replace_all q s :
  ~ In mk q -> prefixb q (replace_all p r s) = true -> prefixb q s = true.
Proof.
  revert s; induction q as [|a q IH]; intros s Hq H; [reflexivity|].
  destruct s as [|c s]; [discriminate H|].
  rewrite replace_all_cons in H.
  destruct (prefixb p (c :: s)) eqn:Hpre.
  - apply prefixb_split in Hpre. rewrite Hpre, Hp, <- app_assoc.
    rewrite Hr, <- app_assoc in H. simpl in H.
    eapply prefixb_before_marker; eauto.
  - rewrite prefixb_cons in *. apply andb_prop in H as [H1 H2].
    rewrite H1; simpl. apply IH; auto. simpl in Hq; tauto.
Qed.

Lemma prefixb_cons_replace_all q c s :
  ~ In mk q -> prefixb q (c :: s) = false ->
  prefixb q (c :: replace_all p r s) = false.
Proof.
  intros Hq H. destruct q as [|a q]; [discriminate H|].
  rewrite prefixb_cons in *.
  destruct (char_eqb a c); simpl in *; auto.
  destruct (prefixb q (replace_all p r s)) eqn:Hx; auto.
  apply prefixb_replace_all in Hx; [congruence|tauto].
Qed.

(** The output holds no occurrence of [q], if [q] is the pattern itself
    or did not occur in the input, and no occurrence of [q] starts inside
    the replacement text. *)
Lemma occursb_replace_all q :
  q <> [] -> ~ In mk q ->
  (forall t, occursb q (r ++ t) = occursb q t) ->
  forall s, q = p \/ occursb q s = false ->
  occursb q (replace_all p r s) = false.
Proof.
  intros Hne Hq Hin s.
  remember (List.length s) as n eqn:Hn.
  assert (Hle : List.length s <= n) by lia. clear Hn.
  revert s Hle; induction n as [|n IH]; intros [|c s] Hle Hcase;
    simpl in Hle; try lia; try (now apply prefixb_nil_false).
  rewrite replace_all_cons.
  destruct (prefixb p (c :: s)) eqn:Hpre.
  - rewrite Hin. apply IH.
    + rewrite length_skipn. lia.
    + destruct Hcase as [Hqp|H]; [now left|right].
      simpl in H. apply orb_false_elim in H as [_ H].
      now apply occursb_skipn.
  - simpl occursb. apply orb_false_intro.
    + apply prefixb_cons_replace_all; auto.
      destruct Hcase as [Hqp|H]; [now rewrite Hqp|].
      simpl in H. now apply orb_false_elim in H as [H _].
    + apply IH; [lia|].
      destruct Hcase as [Hqp|H]; [now left|right].
      simpl in H. now apply orb_false_elim in H as [_ H].
Qed.

End Marker.

(* ===================================================================== *)
(** * The template escaper is idempotent *)
(* ===================================================================== *)

Section EscaperFacts.

Import Escaper.

Lemma import_meta_absent_after_first s :
  occursb import_meta (replace_all import_meta import_wbr_meta s) = false.
Proof.
  apply (@occursb_replace_all import_meta import_wbr_meta
           (js "import.") (js "meta") (js "wbr/>meta") (ch "<"));
    try reflexivity; try discriminate; auto.
  cbv; intuition discriminate.
Qed.

Lemma process_env_absent_after_second s :
  occursb process_env (replace_all process_env process_wbr_env s) = false.
Proof.
  apply (@occursb_replace_all process_env process_wbr_env
           (js "process.") (js "env") (js "wbr/>env") (ch "<"));
    try reflexivity; try discriminate; auto.
  cbv; intuition discriminate.
Qed.

Lemma import_meta_absent_after_second s :
  occursb import_meta s = false ->
  occursb import_meta (replace_all process_env process_wbr_env s) = false.
Proof.
  intros H.
  apply (@occursb_replace_all process_env process_wbr_env
           (js "process.") (js "env") (js "wbr/>env") (ch "<"));
    try reflexivity; try discriminate; auto.
  cbv; intuition discriminate.
Qed.

(** The escaped text holds neither reserved sequence. *)
Lemma escape_clean x :
  occursb import_meta (escape x) = false /\
  occursb process_env (escape x) = false.
Proof.
  unfold escape; split.
  - apply import_meta_absent_after_second, import_meta_absent_after_first.
  - apply process_env_absent_after_second.
Qed.

(** C5: the template escaper is idempotent, [escape (escape x) = escape x]
    for every string [x]. *)
Theorem escape_idempotent (x : jstring) :
  Escaper.escape (Escaper.escape x) = Escaper.escape x.
Proof.
  destruct (escape_clean x) as [H1 H2].
  unfold escape at 1.
  rewrite (@replace_all_absent import_meta) by exact H1.
  now rewrite (@replace_all_absent process_env) by exact H2.
Qed.

End EscaperFacts.

(* ===================================================================== *)
(** * Properties of the cache *)
(* ===================================================================== *)

Section LruFacts.

Variable V : Type.
Implicit Types (c : Lru.lru V) (k : jstring) (v : V).

Lemma find_remove_key_same k c : Lru.find k (Lru.remove_key k c) = None.
Proof.
  induction c as [|[k' v'] c IH]; simpl; auto.
  destruct (jstring_eqb k k') eqn:Hk; simpl; auto. now rewrite Hk.
Qed.

Lemma remove_key_absent k c : Lru.find k c = None -> Lru.remove_key k c = c.
Proof.
  induction c as [|[k' v'] c IH]; simpl; auto.
  destruct (jstring_eqb k k'); [discriminate|]. intros H; now rewrite IH.
Qed.

Lemma find_removelast_none k c :
  Lru.find k c = None -> Lru.find k (removelast c) = None.
Proof.
  induction c as [|[k' v'] c IH]; simpl; auto.
  destruct (jstring_eqb k k') eqn:Hk; [discriminate|]. intros H.
  destruct c as [|e c]; [reflexivity|].
  change (Lru.find k ((k', v') :: removelast (e :: c)) = None).
  simpl Lru.find at 1. rewrite Hk. auto.
Qed.

Lemma find_In k v c : Lru.find k c = Some v -> In (k, v) c.
Proof.
  induction c as [|[k' v'] c IH]; simpl; [discriminate|].
  destruct (jstring_eqb_spec k k') as [->|Hk].
  - intros [= ->]. now left.
  - intros H; right; auto.
Qed.

Lemma In_remove_key k e c : In e (Lru.remove_key k c) -> In e c.
Proof.
  induction c as [|[k' v'] c IH]; simpl; auto.
  destruct (jstring_eqb k k'); simpl; intuition.
Qed.

Lemma In_removelast (A : Type) (e : A) (l : list A) : In e (removelast l) -> In e l.
Proof.
  induction l as [|a l IH]; simpl; auto.
  destruct l as [|b l]; simpl in *; intuition.
Qed.

(** What [get] and [set] leave in the cache was there before or is the
    entry just written. *)
Lemma In_get k c e : In e (snd (Lru.get k c)) -> In e c.
Proof.
  unfold Lru.get. destruct (Lru.find k c) as [v|] eqn:Hf; simpl; auto.
  intros [<-|H]; [now apply find_In|]. eapply In_remove_key; eauto.
Qed.

Lemma In_set max k v c e : In e (Lru.set max k v c) -> e = (k, v) \/ In e c.
Proof.
  unfold Lru.set. destruct (Lru.find k c) as [v0|].
  - intros [<-|H]; auto. right. eapply In_remove_key; eauto.
  - destruct (Nat.leb max (List.length c)); intros [<-|H]; auto.
    right. now apply In_removelast.
Qed.

(** A hit right after a write of the same key leaves the cache as it is. *)
Lemma get_after_set max k v c :
  0 < max ->
  Lru.get k (Lru.set max k v c) = (Some v, Lru.set max k v c).
Proof.
  intros Hmax. unfold Lru.set.
  destruct (Lru.find k c) as [v0|] eqn:Hf.
  - unfold Lru.get. simpl. rewrite jstring_eqb_refl. simpl.
    now rewrite remove_key_absent by apply find_remove_key_same.
  - destruct (Nat.leb max (List.length c)); unfold Lru.get; simpl;
      rewrite jstring_eqb_refl; simpl.
    + now rewrite remove_key_absent by now apply find_removelast_none.
    + now rewrite remove_key_absent.
Qed.

Lemma get_after_hit k v c c' :
  Lru.get k c = (Some v, c') -> Lru.get k c' = (Some v, c').
Proof.
  unfold Lru.get at 1. destruct (Lru.find k c) as [v0|] eqn:Hf; [|discriminate].
  intros [= -> <-]. unfold Lru.get. simpl. rewrite jstring_eqb_refl. simpl.
  now rewrite remove_key_absent by apply find_remove_key_same.
Qed.

Lemma get_miss k c c' : Lru.get k c = (None, c') -> c' = c /\ Lru.find k c = None.
Proof.
  unfold Lru.get. destruct (Lru.find k c); [discriminate|]. now intros [= <-].
Qed.

Lemma length_remove_key k c : List.length (Lru.remove_key k c) <= List.length c.
Proof.
  induction c as [|[k' v'] c IH]; simpl; auto.
  destruct (jstring_eqb k k'); simpl; lia.
Qed.

Lemma length_remove_key_found k v c :
  Lru.find k c = Some v -> List.length (Lru.remove_key k c) < List.length c.
Proof.
  induction c as [|[k' v'] c IH]; simpl; [discriminate|].
  destruct (jstring_eqb k k').
  - intros _. pose proof (length_remove_key k c). lia.
  - intros H. simpl. apply IH in H. lia.
Qed.

Lemma length_get_le k c : List.length (snd (Lru.get k c)) <= List.length c.
Proof.
  unfold Lru.get. destruct (Lru.find k c) as [v|] eqn:Hf; simpl; auto.
  apply length_remove_key_found in Hf. lia.
Qed.

Lemma get_fixed k v c :
  Lru.get k c = (Some v, c) ->
  Lru.find k c = Some v /\ (k, v) :: Lru.remove_key k c = c.
Proof.
  unfold Lru.get. destruct (Lru.find k c) as [v0|]; [|discriminate].
  intros [= -> H]. auto.
Qed.

Lemma length_set max k v c :
  0 < max -> List.length c <= max -> List.length (Lru.set max k v c) <= max.
Proof.
  intros Hmax Hc. unfold Lru.set.
  destruct (Lru.find k c) as [v0|] eqn:Hf.
  - simpl. apply length_remove_key_found in Hf. lia.
  - destruct (Nat.leb_spec max (List.length c)); simpl.
    + rewrite removelast_firstn_len, length_firstn. lia.
    + lia.
Qed.

End LruFacts.

(* ===================================================================== *)
(** * Properties of the compile function *)
(* ===================================================================== *)

Section CompileFacts.

Variable E : Env.
Variable root : jstring.

Local Open Scope m_scope.

(** ** Computations that leave the cache alone *)

Lemma steady_ret A (a : A) : steady (ret a) (Ok a).
Proof. intros w; simpl; repeat split. exists []. now rewrite app_nil_r. Qed.

Lemma steady_lift A (r : result A) : steady (lift r) r.
Proof. intros w; simpl; repeat split. exists []. now rewrite app_nil_r. Qed.

Lemma steady_call A ev (r : result A) : steady (call ev r) r.
Proof. intros w; simpl; repeat split. now exists [ev]. Qed.

Lemma steady_bind_ok A B (c : M A) (f : A -> M B) a r :
  steady c (Ok a) -> steady (f a) r -> steady (bind c f) r.
Proof.
  intros Hc Hf w. unfold bind.
  destruct (Hc w) as (H1 & H2 & t1 & H3).
  destruct (c w) as [[a'|e] w1]; simpl in *; [|discriminate].
  injection H1 as ->.
  destruct (Hf w1) as (H4 & H5 & t2 & H6).
  repeat split; auto; try congruence.
  exists (t1 ++ t2). now rewrite H6, H3, app_assoc.
Qed.

Lemma steady_bind_throw A B (c : M A) (f : A -> M B) e :
  steady c (Throw e) -> steady (bind c f) (Throw e).
Proof.
  intros Hc w. unfold bind.
  destruct (Hc w) as (H1 & H2 & H3).
  destruct (c w) as [[a'|e'] w1]; simpl in *; [discriminate|].
  injection H1 as ->. simpl. repeat split; auto.
Qed.

Lemma settled_ret A (a : A) : settled (ret a).
Proof. eexists; apply steady_ret. Qed.

Lemma settled_lift A (r : result A) : settled (lift r).
Proof. eexists; apply steady_lift. Qed.

Lemma settled_call A ev (r : result A) : settled (call ev r).
Proof. eexists; apply steady_call. Qed.

Lemma settled_bind A B (c : M A) (f : A -> M B) :
  settled c -> (forall a, settled (f a)) -> settled (bind c f).
Proof.
  intros [[a|e] Hc] Hf.
  - destruct (Hf a) as [r Hr]. exists r. eapply steady_bind_ok; eauto.
  - exists (Throw e). now apply steady_bind_throw.
Qed.

#[local] Hint Resolve settled_ret settled_lift settled_call settled_bind : settled.

Lemma settled_tsToJs s : settled (tsToJs E s).
Proof. unfold tsToJs. destruct s; auto 6 with settled. Qed.

Lemma settled_vanilla v : settled (vanilla E v).
Proof.
  unfold vanilla. apply settled_bind; [apply settled_tsToJs|auto with settled].
Qed.

Lemma settled_genComponentCode data v pd : settled (genComponentCode E data v pd).
Proof.
  unfold genComponentCode.
  apply settled_bind; [auto with settled|intros r1].
  apply settled_bind; [apply settled_vanilla|intros j].
  auto 6 with settled.
Qed.

(** ** The pipeline behind the cache *)

Lemma settled_build_page src file : settled (build_page E root src file).
Proof.
  unfold build_page.
  apply settled_bind; [auto with settled|intros [body fm]].
  apply settled_bind; [auto with settled|intros rendered].
  apply settled_bind; [auto with settled|intros t].
  apply settled_bind; [auto with settled|intros d].
  apply settled_bind; [auto with settled|intros mt].
  apply settled_bind; [|auto with settled].
  destruct (r_vueCode rendered) as [[|c v]|]; auto with settled.
  apply settled_genComponentCode.
Qed.

(** [compile] is the cache lookup, then the pipeline, then the store. *)
Lemma compile_unfold src file w :
  compile E root src file w =
  (cached <- cache_get src ;;
   match cached with
   | Some hit => ret hit
   | None =>
       result <- build_page E root src file ;;
       cache_set src result ;;
       ret result
   end) w.
Proof.
  unfold compile, build_page, bind.
  destruct (cache_get src w) as [[[hit|]|e] w0]; try reflexivity.
  destruct (call (EvMatter src) (matter E src) w0) as [[[body fm]|e] w1];
    try reflexivity.
  destruct (call (EvRender body) (md_render E body) w1) as [[rendered|e] w2];
    try reflexivity.
  destruct (lift (inferTitle fm body) w2) as [[t|e] w2']; try reflexivity.
  destruct (lift (inferDescription fm) w2') as [[d|e] w3]; try reflexivity.
  destruct (call (EvStat file) (statSync_mtimeMs E file) w3) as [[mt|e] w4];
    try reflexivity.
  match goal with
  | |- context [match ?c w4 with _ => _ end] => destruct (c w4) as [[nc|e] w5]
  end; reflexivity.
Qed.

Lemma build_page_steady src file : steady (build_page E root src file) (page_result E root src file).
Proof.
  destruct (settled_build_page src file) as [r Hr].
  unfold page_result. now destruct (Hr initial_world) as [-> _].
Qed.

(** A hit returns the entry and moves it to the front. *)
Lemma compile_hit src file w hit :
  Lru.find src (cache w) = Some hit ->
  compile E root src file w =
  (Ok hit, {| cache := (src, hit) :: Lru.remove_key src (cache w); trace := trace w |}).
Proof.
  intros Hf. rewrite compile_unfold. unfold bind, cache_get, Lru.get.
  now rewrite Hf.
Qed.

(** A miss runs the pipeline, and stores the result if there is one. *)
Lemma compile_miss src file w :
  Lru.find src (cache w) = None ->
  exists t,
    compile E root src file w =
    match page_result E root src file with
    | Ok r => (Ok r, {| cache := Lru.set cache_max src r (cache w);
                        trace := trace w ++ t |})
    | Throw e => (Throw e, {| cache := cache w; trace := trace w ++ t |})
    end.
Proof.
  intros Hf. rewrite compile_unfold. unfold bind at 1, cache_get, Lru.get.
  rewrite Hf. unfold bind.
  destruct (build_page_steady src file {| cache := cache w; trace := trace w |})
    as (H1 & H2 & t & H3).
  destruct (build_page E root src file {| cache := cache w; trace := trace w |})
    as [res [c1 t1]]; simpl in *. subst. exists t.
  destruct (page_result E root src file); reflexivity.
Qed.

Lemma compile_fresh src file :
  fst (compile E root src file initial_world) = page_result E root src file.
Proof.
  destruct (compile_miss src file initial_world eq_refl) as [t ->].
  now destruct (page_result E root src file).
Qed.

(** What the pipeline puts in [content]. *)
Lemma page_result_content src file r :
  page_result E root src file = Ok r ->
  exists body fm,
    matter E src = Ok (body, fm) /\ content (pageData r) = escapeHtml E body.
Proof.
  unfold page_result, build_page, bind, call, lift.
  destruct (matter E src) as [[body fm]|e]; simpl; [|discriminate].
  destruct (md_render E body) as [rendered|e]; simpl; [|discriminate].
  destruct (inferTitle fm body) as [t|e]; simpl; [|discriminate].
  destruct (inferDescription fm) as [d|e]; simpl; [|discriminate].
  destruct (statSync_mtimeMs E file) as [mt|e]; simpl; [|discriminate].
  match goal with
  | |- context [match ?c ?w with _ => _ end] => destruct (c w) as [[nc|e] w5]
  end; simpl; [|discriminate].
  intros [= <-]. exists body, fm. auto.
Qed.

End CompileFacts.

(** C1: a second compile of a source right after a successful one is a
    cache hit: it returns the same result, and leaves the trace of
    collaborator invocations (frontmatter, renderer, transpiler, linter,
    file stat) and the cache as they were, whatever file is named. *)
Theorem compile_twice_is_cache_hit
    (E : Env) (root src file file' : jstring) (w w' : world)
    (r : MarkdownCompileResult) :
  compile E root src file w = (Ok r, w') ->
  fst (compile E root src file' w') = Ok r /\
  trace (snd (compile E root src file' w')) = trace w' /\
  cache (snd (compile E root src file' w')) = cache w'.
Proof.
  intros H.
  assert (Hfix : Lru.get src (cache w') = (Some r, cache w')).
  { destruct (Lru.find src (cache w)) as [hit|] eqn:Hf.
    - rewrite (compile_hit E root src file w Hf) in H.
      injection H as -> <-. simpl.
      apply (@get_after_hit _ src r (cache w) _).
      unfold Lru.get. now rewrite Hf.
    - destruct (compile_miss E root src file w Hf) as [t Ht].
      rewrite Ht in H.
      destruct (page_result E root src file) as [r'|e]; [|discriminate].
      injection H as -> <-. simpl.
      apply get_after_set. unfold cache_max. lia. }
  apply get_fixed in Hfix as [Hfind Hfront].
  rewrite (compile_hit E root src file' w' Hfind). simpl. auto.
Qed.

Lemma compile_twice_is_cache_hit_witness :
  exists r w',
    compile Sample.env Sample.root (js "# Hello") (js "/r/a.md") initial_world
      = (Ok r, w') /\
    fst (compile Sample.env Sample.root (js "# Hello") (js "/r/a.md") w') = Ok r /\
    trace (snd (compile Sample.env Sample.root (js "# Hello") (js "/r/a.md") w'))
      = trace w' /\
    cache (snd (compile Sample.env Sample.root (js "# Hello") (js "/r/a.md") w'))
      = cache w'.
Proof.
  eexists; eexists; split.
  - vm_compute; reflexivity.
  - apply (@compile_twice_is_cache_hit Sample.env Sample.root (js "# Hello")
             (js "/r/a.md") (js "/r/a.md") initial_world).
    vm_compute; reflexivity.
Defined.

(** C6: a compile that throws, at whatever step (frontmatter, render,
    description, file stat, demo generation with its transpiler), leaves
    the cache as it was and holds no entry for the source: a retry, with
    whatever collaborators, yields what a compile from an empty cache
    yields. *)
Theorem failed_compile_stores_nothing
    (E : Env) (root src file : jstring) (w w' : world) (e : error) :
  compile E root src file w = (Throw e, w') ->
  cache w' = cache w /\
  Lru.find src (cache w') = None /\
  forall E' file',
    fst (compile E' root src file' w') = fst (compile E' root src file' initial_world).
Proof.
  intros H.
  destruct (Lru.find src (cache w)) as [hit|] eqn:Hf.
  - rewrite (compile_hit E root src file w Hf) in H. discriminate.
  - destruct (compile_miss E root src file w Hf) as [t Ht]. rewrite Ht in H.
    destruct (page_result E root src file) as [r'|e']; [discriminate|].
    injection H as -> <-. simpl. repeat split; auto.
    intros E' file'. rewrite compile_fresh.
    destruct (compile_miss E' root src file' {| cache := cache w; trace := trace w ++ t |} Hf)
      as [t' ->].
    now destruct (page_result E' root src file').
Qed.

Lemma failed_compile_stores_nothing_witness :
  exists w',
    compile Sample.env Sample.root (js "# Hello") (js "/r/missing.md") initial_world
      = (Throw MissingFileError, w') /\
    cache w' = cache initial_world /\
    Lru.find (js "# Hello") (cache w') = None /\
    forall E' file',
      fst (compile E' Sample.root (js "# Hello") file' w')
      = fst (compile E' Sample.root (js "# Hello") file' initial_world).
Proof.
  eexists; split.
  - vm_compute; reflexivity.
  - apply (@failed_compile_stores_nothing Sample.env Sample.root (js "# Hello")
             (js "/r/missing.md") initial_world _ MissingFileError).
    vm_compute; reflexivity.
Defined.

(* ===================================================================== *)
(** * The [content] field *)
(* ===================================================================== *)

Section ContentFacts.

Variable E : Env.
Variable root : jstring.

Lemma compile_content_ok src file w :
  cache_content_ok E w ->
  cache_content_ok E (snd (compile E root src file w)) /\
  forall r, fst (compile E root src file w) = Ok r -> content_ok E src r.
Proof.
  intros Hw.
  destruct (Lru.find src (cache w)) as [hit|] eqn:Hf.
  - rewrite (compile_hit E root src file w Hf). simpl.
    assert (Hhit : content_ok E src hit) by (apply Hw; now apply find_In).
    split.
    + intros k v [[= <- <-]|Hin]; auto.
      apply Hw. eapply In_remove_key; eauto.
    + now intros r [= <-].
  - destruct (compile_miss E root src file w Hf) as [t ->].
    destruct (page_result E root src file) as [r'|e] eqn:Hp; simpl.
    + apply page_result_content in Hp. split.
      * intros k v Hin. apply In_set in Hin as [[= -> ->]|Hin]; auto.
      * now intros r [= <-].
    + split; [exact Hw|discriminate].
Qed.

Lemma reachable_content_ok w : reachable E root w -> cache_content_ok E w.
Proof.
  induction 1 as [|w src file Hr IH].
  - intros k v [].
  - now apply compile_content_ok.
Qed.

End ContentFacts.

(** C8: whatever a process has compiled before, the [content] of a
    compiled document is the HTML-escaped body that follows the
    frontmatter of its source, with or without a demo block in the
    rendered data. *)
Theorem content_is_escaped_body
    (E : Env) (root src file : jstring) (w w' : world) (r : MarkdownCompileResult) :
  reachable E root w ->
  compile E root src file w = (Ok r, w') ->
  exists body fm,
    matter E src = Ok (body, fm) /\
    content (pageData r) = escapeHtml E body.
Proof.
  intros Hw H.
  apply reachable_content_ok in Hw.
  destruct (compile_content_ok (E := E) root src file Hw) as [_ Hr].
  apply Hr. now rewrite H.
Qed.

Lemma content_is_escaped_body_witness :
  (exists body fm,
    matter Sample.env (js "a < b") = Ok (body, fm) /\
    content (pageData
      {| vueSrc := js "<template><article class=" ++ DQ ++ js "markdown" ++ DQ ++
                   js "><p>a < b</p></article></template>" ++ LF ++ LF ++
                   js "<script>" ++ LF ++
                   js "export default { pageData: {" ++
                   DQ ++ js "title" ++ DQ ++ js ":" ++ DQ ++ DQ ++ js "," ++
                   DQ ++ js "description" ++ DQ ++ js ":" ++ DQ ++ DQ ++ js "," ++
                   DQ ++ js "frontmatter" ++ DQ ++ js ":{}," ++
                   DQ ++ js "headers" ++ DQ ++ js ":[]," ++
                   DQ ++ js "relativePath" ++ DQ ++ js ":" ++ DQ ++ js "a.md" ++ DQ ++ js "," ++
                   DQ ++ js "content" ++ DQ ++ js ":" ++ DQ ++ js "a &lt; b" ++ DQ ++ js "," ++
                   DQ ++ js "html" ++ DQ ++ js ":" ++ DQ ++ js "<p>a < b</p>" ++ DQ ++ js "," ++
                   DQ ++ js "lastUpdated" ++ DQ ++ js ":1700000000000} }" ++ LF ++
                   js "</script>";
         pageData := {| title := [];
                        description := VStr [];
                        frontmatter := [];
                        headers := [];
                        relativePath := js "a.md";
                        content := js "a &lt; b";
                        html := js "<p>a < b</p>";
                        lastUpdated := 1700000000000 |} |})
    = escapeHtml Sample.env body) /\
  (exists r w',
     compile Sample.env Sample.root (js "demo page") (js "/r/a.md") initial_world
       = (Ok r, w') /\
     exists body fm,
       matter Sample.env (js "demo page") = Ok (body, fm) /\
       content (pageData r) = escapeHtml Sample.env body).
Proof.
  split.
  apply (@content_is_escaped_body Sample.env Sample.root (js "a < b") (js "/r/a.md")
           initial_world
           (snd (compile Sample.env Sample.root (js "a < b") (js "/r/a.md") initial_world))).
  - apply reach_init.
  - vm_compute; reflexivity.
  - eexists; eexists; split; [vm_compute; reflexivity|].
    eapply (@content_is_escaped_body Sample.env Sample.root (js "demo page")
              (js "/r/a.md") initial_world).
    + apply reach_init.
    + vm_compute; reflexivity.
Defined.

(* ===================================================================== *)
(** * Capacity and recency *)
(* ===================================================================== *)

Section Recency.

Lemma remove_str_absent k l : ~ In k l -> remove_str k l = l.
Proof.
  induction l as [|x l IH]; simpl; auto. intros H.
  destruct (jstring_eqb_spec k x) as [->|Hk]; [tauto|].
  rewrite IH; tauto.
Qed.

Lemma In_remove_str k x l : In x (remove_str k l) -> In x l /\ x <> k.
Proof.
  induction l as [|y l IH]; simpl; [tauto|].
  destruct (jstring_eqb_spec k y) as [->|Hk]; simpl.
  - intros H; apply IH in H; tauto.
  - intros [<-|H]; [split; auto|apply IH in H; tauto].
Qed.

Lemma NoDup_remove_str k l : NoDup l -> NoDup (remove_str k l).
Proof.
  induction 1 as [|x l Hx Hl IH]; simpl; [constructor|].
  destruct (jstring_eqb k x); auto. constructor; auto.
  intros H; apply In_remove_str in H; tauto.
Qed.

Lemma NoDup_distinct l : NoDup (distinct l).
Proof.
  induction l as [|x l IH]; simpl; constructor.
  - intros H; apply In_remove_str in H; tauto.
  - now apply NoDup_remove_str.
Qed.

Lemma In_firstn (A : Type) (x : A) n l : In x (firstn n l) -> In x l.
Proof.
  revert n; induction l as [|y l IH]; intros [|n]; simpl; try tauto.
  intros [H|H]; eauto.
Qed.

(** Removing a key that is not among the first [n] leaves them. *)
Lemma firstn_remove_str_later k n l :
  ~ In k (firstn n l) -> firstn n (remove_str k l) = firstn n l.
Proof.
  revert n; induction l as [|x l IH]; intros [|n]; simpl; auto.
  intros H. destruct (jstring_eqb_spec k x) as [->|Hk]; [tauto|].
  simpl. rewrite IH; tauto.
Qed.

(** Removing one of the first [S n] lets the next one in. *)
Lemma firstn_remove_str_among k n l :
  NoDup l -> In k (firstn (S n) l) ->
  firstn n (remove_str k l) = remove_str k (firstn (S n) l).
Proof.
  revert n; induction l as [|x l IH]; intros n Hnd Hin; [destruct Hin|].
  inversion Hnd as [|? ? Hx Hl]; subst.
  change (firstn (S n) (x :: l)) with (x :: firstn n l) in *.
  simpl remove_str. destruct (jstring_eqb_spec k x) as [->|Hk].
  - rewrite !remove_str_absent; auto.
    intros H; apply Hx. eapply In_firstn; eauto.
  - destruct Hin as [->|Hin]; [congruence|].
    destruct n as [|n]; [destruct Hin|].
    change (firstn (S n) (x :: remove_str k l)) with (x :: firstn n (remove_str k l)).
    now rewrite IH.
Qed.

Variable V : Type.
Implicit Types (c : Lru.lru V).

Lemma keys_remove_key k c : Lru.keys (Lru.remove_key k c) = remove_str k (Lru.keys c).
Proof.
  induction c as [|[k' v'] c IH]; simpl; auto.
  destruct (jstring_eqb k k'); simpl; now rewrite IH.
Qed.

Lemma find_some_keys k c : (exists v, Lru.find k c = Some v) <-> In k (Lru.keys c).
Proof.
  induction c as [|[k' v'] c IH]; simpl.
  - split; [intros [v H]; discriminate|tauto].
  - destruct (jstring_eqb_spec k k') as [->|Hk].
    + split; eauto.
    + rewrite IH. split; [tauto|]. intros [H|H]; [congruence|auto].
Qed.

Lemma find_none_keys k c : Lru.find k c = None <-> ~ In k (Lru.keys c).
Proof.
  rewrite <- find_some_keys. destruct (Lru.find k c) as [v0|]; split; try congruence.
  - intros H; exfalso; eauto.
  - intros _ [v1 H]; discriminate.
Qed.

Lemma keys_removelast c : Lru.keys (removelast c) = removelast (Lru.keys c).
Proof.
  induction c as [|[k v] c IH]; simpl; auto.
  destruct c as [|e c]; [reflexivity|].
  change (Lru.keys (e :: c)) with (fst e :: Lru.keys c) in *.
  simpl in *. now rewrite <- IH.
Qed.

Lemma lists_recent_hit max k v v0 c used :
  0 < max -> Lru.find k c = Some v0 -> lists_recent max c used ->
  lists_recent max ((k, v) :: Lru.remove_key k c) (k :: used).
Proof.
  unfold lists_recent. intros Hmax Hf Hc.
  destruct max as [|n]; [lia|].
  change (distinct (k :: used)) with (k :: remove_str k (distinct used)).
  change (Lru.keys ((k, v) :: Lru.remove_key k c))
    with (k :: Lru.keys (Lru.remove_key k c)).
  rewrite keys_remove_key, Hc.
  change (firstn (S n) (k :: remove_str k (distinct used)))
    with (k :: firstn n (remove_str k (distinct used))).
  f_equal. symmetry. apply firstn_remove_str_among.
  - apply NoDup_distinct.
  - rewrite <- Hc. apply find_some_keys; eauto.
Qed.

Lemma lists_recent_set max k v c used :
  0 < max -> lists_recent max c used ->
  lists_recent max (Lru.set max k v c) (k :: used).
Proof.
  intros Hmax Hc. unfold Lru.set.
  destruct (Lru.find k c) as [v0|] eqn:Hf.
  - eapply lists_recent_hit; eauto.
  - unfold lists_recent in *.
    apply find_none_keys in Hf. rewrite Hc in Hf.
    destruct max as [|n]; [lia|].
    change (distinct (k :: used)) with (k :: remove_str k (distinct used)).
    change (firstn (S n) (k :: remove_str k (distinct used)))
      with (k :: firstn n (remove_str k (distinct used))).
    assert (Hn : ~ In k (firstn n (distinct used))).
    { intros H; apply Hf. rewrite <- (firstn_skipn n (distinct used)) at 1.
      rewrite firstn_app, firstn_firstn.
      replace (Nat.min (S n) n) with n by lia.
      apply in_or_app; now left. }
    rewrite (firstn_remove_str_later _ _ _ Hn).
    assert (Hlen : List.length c = List.length (firstn (S n) (distinct used))).
    { rewrite <- Hc. unfold Lru.keys. now rewrite length_map. }
    rewrite length_firstn in Hlen.
    destruct (Nat.leb_spec (S n) (List.length c)) as [Hfull|Hroom].
    + change (Lru.keys ((k, v) :: removelast c)) with (k :: Lru.keys (removelast c)).
      rewrite keys_removelast, Hc. f_equal.
      rewrite removelast_firstn by lia. reflexivity.
    + change (Lru.keys ((k, v) :: c)) with (k :: Lru.keys c).
      rewrite Hc. f_equal.
      rewrite !firstn_all2 by lia. reflexivity.
Qed.

End Recency.

(** C9: after any sequence of compile calls the cache holds at most 1024
    entries, and its keys are the (at most 1024) most recently used
    distinct sources, the most recent first: a source is used when its
    compile returns, be it from the cache ([get]) or after a fresh
    compile ([set]); a key beyond the 1024 most recent ones, the least
    recently used, is gone. *)
Theorem cache_holds_most_recent
    (E : Env) (root : jstring) (calls : list (jstring * jstring)) :
  List.length (cache (fst (run E root calls initial_world []))) <= 1024 /\
  Lru.keys (cache (fst (run E root calls initial_world [])))
  = firstn 1024 (distinct (snd (run E root calls initial_world []))).
Proof.
  assert (Hgen : forall w used,
             lists_recent cache_max (cache w) used ->
             lists_recent cache_max (cache (fst (run E root calls w used)))
               (snd (run E root calls w used))).
  { induction calls as [|[src file] calls IH]; intros w used Hw; [exact Hw|].
    simpl run.
    destruct (Lru.find src (cache w)) as [hit|] eqn:Hf.
    - rewrite (compile_hit E root src file w Hf). apply IH. simpl.
      eapply lists_recent_hit; eauto. unfold cache_max; lia.
    - destruct (compile_miss E root src file w Hf) as [t ->].
      destruct (page_result E root src file) as [r|e]; apply IH; simpl; auto.
      apply lists_recent_set; auto. unfold cache_max; lia. }
  specialize (Hgen initial_world [] eq_refl).
  unfold lists_recent, cache_max in Hgen. split; [|exact Hgen].
  replace (List.length (cache (fst (run E root calls initial_world []))))
    with (List.length (Lru.keys (cache (fst (run E root calls initial_world []))))).
  - rewrite Hgen, length_firstn. lia.
  - unfold Lru.keys. apply length_map.
Qed.

(* ===================================================================== *)
(** * The result and the file path *)
(* ===================================================================== *)

Section FileDependence.

Variable E : Env.
Variable root : jstring.

Lemma same_result_settled A (c : M A) : settled c -> same_result c c.
Proof.
  intros [r Hr] w1 w2.
  destruct (Hr w1) as [-> _]. now destruct (Hr w2) as [-> _].
Qed.

Lemma same_result_call A ev1 ev2 (r : result A) :
  same_result (call ev1 r) (call ev2 r).
Proof. intros w1 w2; reflexivity. Qed.

Lemma same_result_bind A B (c1 c2 : M A) (f1 f2 : A -> M B) :
  same_result c1 c2 -> (forall a, same_result (f1 a) (f2 a)) ->
  same_result (bind c1 f1) (bind c2 f2).
Proof.
  intros Hc Hf w1 w2. unfold bind. specialize (Hc w1 w2).
  destruct (c1 w1) as [[a1|e1] w1'], (c2 w2) as [[a2|e2] w2'];
    simpl in Hc; try discriminate; try (injection Hc as ->); auto.
  apply Hf.
Qed.

Lemma build_page_same_result src f1 f2 :
  slash E (path_relative E root f1) = slash E (path_relative E root f2) ->
  statSync_mtimeMs E f1 = statSync_mtimeMs E f2 ->
  same_result (build_page E root src f1) (build_page E root src f2).
Proof.
  intros Hrel Hstat. unfold build_page. rewrite Hrel, Hstat.
  apply same_result_bind; [apply same_result_call|intros [body fm]].
  apply same_result_bind; [apply same_result_call|intros rendered].
  apply same_result_bind; [apply same_result_settled, settled_lift|intros t].
  apply same_result_bind; [apply same_result_settled, settled_lift|intros d].
  apply same_result_bind; [apply same_result_call|intros mt].
  apply same_result_settled.
  apply settled_bind; [|intros; apply settled_ret].
  destruct (r_vueCode rendered) as [[|c v]|]; try apply settled_ret.
  apply settled_genComponentCode.
Qed.

End FileDependence.

(** C2, as stated, fails: from one and the same (empty) cache the same
    source compiled under two file names gives two results, which differ
    in [relativePath]. *)
Lemma compile_depends_on_file :
  fst (compile Sample.env Sample.root (js "# Hello") (js "/r/a.md") initial_world)
  <> fst (compile Sample.env Sample.root (js "# Hello") (js "/r/b.md") initial_world).
Proof.
  intros H.
  apply (f_equal (fun r => match r with
                           | Ok x => relativePath (pageData x)
                           | Throw _ => []
                           end)) in H.
  vm_compute in H. discriminate H.
Qed.

(* ===================================================================== *)
(** * Trimming *)
(* ===================================================================== *)

Section TrimFacts.

Lemma trim_start_blank ws x : blank ws -> trim_start (ws ++ x) = trim_start x.
Proof.
  unfold blank. induction ws as [|c ws IH]; simpl; auto.
  intros H; apply andb_prop in H as [-> H]; auto.
Qed.

Lemma trim_start_app x y :
  trim_start (x ++ y) =
  match trim_start x with
  | [] => trim_start y
  | t => t ++ y
  end.
Proof.
  induction x as [|c x IH]; simpl.
  - now destruct (trim_start y).
  - destruct (is_space c); auto.
Qed.

Lemma blank_rev ws : blank ws -> blank (rev ws).
Proof.
  unfold blank. rewrite !forallb_forall. intros H c Hc. apply H.
  now apply in_rev.
Qed.

Lemma trim_end_blank x ws : blank ws -> trim_end (x ++ ws) = trim_end x.
Proof.
  intros H. unfold trim_end. rewrite rev_app_distr.
  now rewrite trim_start_blank by now apply blank_rev.
Qed.

(** White space around a text does not show in its trimmed form. *)
Lemma trim_blank_around ws1 x ws2 :
  blank ws1 -> blank ws2 -> trim (ws1 ++ x ++ ws2) = trim x.
Proof.
  intros H1 H2. unfold trim.
  rewrite trim_start_blank by exact H1. rewrite trim_start_app.
  destruct (trim_start x) as [|c t] eqn:Hx.
  - rewrite <- (app_nil_r ws2), trim_start_blank by exact H2. reflexivity.
  - now apply trim_end_blank.
Qed.

(** The trimmed form is a piece of the text. *)
Lemma trim_start_skipn s : exists n, trim_start s = skipn n s.
Proof.
  induction s as [|c s [n IH]]; simpl.
  - now exists 0.
  - destruct (is_space c); [exists (S n); exact IH|now exists 0].
Qed.

Lemma trim_end_prefix s : exists ws, s = trim_end s ++ ws.
Proof.
  unfold trim_end. destruct (trim_start_skipn (rev s)) as [n Hn].
  exists (rev (firstn n (rev s))).
  rewrite Hn, <- rev_app_distr, firstn_skipn. now rewrite rev_involutive.
Qed.

Lemma prefixb_app_l q x y : prefixb q x = true -> prefixb q (x ++ y) = true.
Proof.
  revert x; induction q as [|a q IH]; intros [|c x]; simpl; auto; try discriminate.
  intros H; apply andb_prop in H as [-> H]; simpl; auto.
Qed.

Lemma occursb_app_l q x y :
  q <> [] -> occursb q (x ++ y) = false -> occursb q x = false.
Proof.
  intros Hq. induction x as [|c x IH]; intros H.
  - now apply prefixb_nil_false.
  - change ((c :: x) ++ y) with (c :: x ++ y) in H. simpl in H.
    apply orb_false_elim in H as [H1 H2].
    simpl. apply orb_false_intro; auto.
    destruct (prefixb q (c :: x)) eqn:Hp; auto.
    apply (prefixb_app_l _ _ y) in Hp. simpl in Hp. congruence.
Qed.

Lemma occursb_trim q s : q <> [] -> occursb q s = false -> occursb q (trim s) = false.
Proof.
  intros Hq H. unfold trim.
  destruct (trim_start_skipn s) as [n Hn].
  destruct (trim_end_prefix (trim_start s)) as [ws Hws].
  apply (occursb_app_l _ ws Hq). rewrite <- Hws, Hn.
  now apply occursb_skipn.
Qed.

(** A text free of [mk] does not occur across an [mk]. *)
Lemma occursb_sep q mk a b :
  q <> [] -> ~ In mk q ->
  occursb q a = false -> occursb q b = false ->
  occursb q (a ++ mk :: b) = false.
Proof.
  intros Hq Hmk Ha Hb. induction a as [|c a IH].
  - simpl. apply orb_false_intro; auto.
    destruct q as [|a0 q]; [congruence|]. simpl.
    unfold char_eqb. destruct (N.eqb_spec a0 mk) as [->|]; auto.
    exfalso; apply Hmk; now left.
  - change ((c :: a) ++ mk :: b) with (c :: a ++ mk :: b).
    simpl in Ha. apply orb_false_elim in Ha as [Ha1 Ha2].
    simpl occursb. apply orb_false_intro; auto.
    destruct (prefixb q (c :: a ++ mk :: b)) eqn:Hp; auto.
    apply (@prefixb_before_marker (c :: a) mk q b []) in Hp; auto.
    rewrite app_nil_r in Hp. congruence.
Qed.

End TrimFacts.

(* ===================================================================== *)
(** * The vanilla variant of a demo *)
(* ===================================================================== *)

(** C7: when the transpiler returns nothing ([undefined]) or a text that
    is empty once trimmed, the vanilla variant is the template part, an
    empty line and the style part, trimmed: the template before the
    style and no script wrapper.  A text without line feed, such as the
    opening tag of the wrapper, that occurs in neither part does not
    occur in the variant. *)
Theorem vanilla_without_script
    (E : Env) (vueCode : jstring) (w w' : world) (out : option jstring) :
  tsToJs E (fetchCode E vueCode PScriptContent) w = (Ok out, w') ->
  out = None \/ (exists s, out = Some s /\ trim s = []) ->
  vanilla E vueCode w
  = (Ok (trim (fetchCode E vueCode PTemplate ++ LF ++ LF ++ fetchCode E vueCode PStyle)), w')
  /\
  forall q, q <> [] -> ~ In 10%N q ->
    occursb q (fetchCode E vueCode PTemplate) = false ->
    occursb q (fetchCode E vueCode PStyle) = false ->
    forall v, fst (vanilla E vueCode w) = Ok v -> occursb q v = false.
Proof.
  intros Hts Hout.
  assert (Hwrap : wrap_script out = []).
  { destruct Hout as [->|[s [-> Hs]]]; unfold wrap_script; simpl; auto.
    now rewrite Hs. }
  assert (Hv : vanilla E vueCode w
               = (Ok (trim (fetchCode E vueCode PTemplate ++ LF ++ LF ++
                            fetchCode E vueCode PStyle)), w')).
  { unfold vanilla, bind. rewrite Hts. unfold ret, assemble. rewrite Hwrap.
    do 2 f_equal.
    replace (LF ++ fetchCode E vueCode PTemplate ++ LF ++ [] ++ LF ++
             fetchCode E vueCode PStyle ++ LF ++ js "  ")
      with (LF ++ (fetchCode E vueCode PTemplate ++ LF ++ LF ++
                   fetchCode E vueCode PStyle) ++ (LF ++ js "  "))
      by (simpl; now rewrite <- !app_assoc).
    apply trim_blank_around; reflexivity. }
  split; [exact Hv|].
  intros q Hq Hlf Ht Hs v. rewrite Hv. intros [= <-].
  apply occursb_trim; auto.
  apply occursb_sep; auto.
  apply (@occursb_sep q 10%N [] (fetchCode E vueCode PStyle)); auto.
  now apply prefixb_nil_false.
Qed.

Lemma vanilla_without_script_witness :
  exists out w',
    tsToJs Sample.env (fetchCode Sample.env Sample.demo PScriptContent) initial_world
      = (Ok out, w') /\
    (vanilla Sample.env Sample.demo initial_world
     = (Ok (trim (fetchCode Sample.env Sample.demo PTemplate ++ LF ++ LF ++
                  fetchCode Sample.env Sample.demo PStyle)), w')
     /\
     forall q, q <> [] -> ~ In 10%N q ->
       occursb q (fetchCode Sample.env Sample.demo PTemplate) = false ->
       occursb q (fetchCode Sample.env Sample.demo PStyle) = false ->
       forall v, fst (vanilla Sample.env Sample.demo initial_world) = Ok v ->
                 occursb q v = false).
Proof.
  eexists; eexists; split.
  - vm_compute; reflexivity.
  - apply (@vanilla_without_script Sample.env Sample.demo initial_world _ None).
    + vm_compute; reflexivity.
    + left; reflexivity.
Defined.

(* ===================================================================== *)
(** * The demo payload *)
(* ===================================================================== *)

Section ObjectFacts.

Lemma obj_get_set_same k v o : obj_get k (obj_set k v o) = v.
Proof.
  induction o as [|[k' v'] o IH]; simpl.
  - now rewrite jstring_eqb_refl.
  - destruct (jstring_eqb k k') eqn:Hk; simpl; now rewrite Hk.
Qed.

Lemma obj_get_set_other k k' v o :
  k <> k' -> obj_get k (obj_set k' v o) = obj_get k o.
Proof.
  intros Hk. induction o as [|[k0 v0] o IH]; simpl.
  - apply jstring_eqb_neq in Hk. now rewrite Hk.
  - destruct (jstring_eqb_spec k' k0) as [->|Hk0]; simpl.
    + apply jstring_eqb_neq in Hk. now rewrite Hk.
    + now rewrite IH.
Qed.

Lemma obj_has_In k o : obj_has k o = true <-> In k (map fst o).
Proof.
  induction o as [|[k' v'] o IH]; simpl; [split; [discriminate|tauto]|].
  destruct (jstring_eqb_spec k k') as [->|Hk]; simpl.
  - tauto.
  - rewrite IH. split; auto. intros [H|H]; [congruence|auto].
Qed.

(** After a spread the properties of the source win over those present
    before. *)
Lemma obj_get_spread k src o :
  NoDup (map fst src) ->
  obj_get k (obj_spread src o) = if obj_has k src then obj_get k src else obj_get k o.
Proof.
  unfold obj_spread. revert o; induction src as [|[k' v'] src IH]; intros o Hnd;
    [reflexivity|].
  inversion Hnd as [|? ? Hk' Hsrc]; subst. simpl.
  rewrite IH by assumption.
  destruct (jstring_eqb_spec k k') as [->|Hk]; simpl.
  - destruct (obj_has k' src) eqn:Hh.
    + apply obj_has_In in Hh. contradiction.
    + apply obj_get_set_same.
  - destruct (obj_has k src); auto. now apply obj_get_set_other.
Qed.

End ObjectFacts.

(** C10: in the payload the frontmatter is spread after [us], [cn] and
    [docHtml] and before [relativePath], [sourceCode] and [jsSourceCode]:
    a frontmatter property named [us], [cn] or [docHtml] replaces the
    computed value, and the computed [relativePath], [sourceCode] and
    [jsSourceCode] replace frontmatter properties of these names. *)
Theorem payload_precedence
    (E : Env) (us cn : value) (pd : PageData) (vueCode jsSourceCode : jstring) :
  NoDup (map fst (frontmatter pd)) ->
  let p := payload E us cn pd vueCode jsSourceCode in
  let fm := frontmatter pd in
  obj_get (js "us") p = (if obj_has (js "us") fm then obj_get (js "us") fm else us) /\
  obj_get (js "cn") p = (if obj_has (js "cn") fm then obj_get (js "cn") fm else cn) /\
  obj_get (js "docHtml") p =
    (if obj_has (js "docHtml") fm then obj_get (js "docHtml") fm
     else VStr (before_first (js "<pre class=" ++ DQ ++ js "language-vue" ++ DQ ++ js " v-pre>")
                  (html pd))) /\
  obj_get (js "relativePath") p = VStr (relativePath pd) /\
  obj_get (js "sourceCode") p = VStr (base64 E vueCode) /\
  obj_get (js "jsSourceCode") p = VStr (base64 E jsSourceCode).
Proof.
  intros Hnd p fm. subst p fm. unfold payload, obj_literal.
  cbn [fold_left].
  repeat split.
  all: repeat first
    [ rewrite obj_get_set_same; reflexivity
    | rewrite obj_get_set_other by (vm_compute; discriminate) ].
  all: rewrite obj_get_spread by exact Hnd.
  all: destruct (obj_has _ (frontmatter pd)); try reflexivity.
Qed.

Lemma payload_precedence_witness :
  let pd := {| title := []; description := VStr [];
               frontmatter := [ (js "us", VStr (js "mine"));
                                (js "relativePath", VStr (js "elsewhere.md")) ];
               headers := []; relativePath := js "a.md"; content := [];
               html := js "<p>x</p>"; lastUpdated := 0 |} in
  let p := payload Sample.env (VStr (js "caption")) VUndefined pd Sample.demo (js "<b/>") in
  obj_get (js "us") p = VStr (js "mine") /\
  obj_get (js "cn") p = VUndefined /\
  obj_get (js "docHtml") p = VStr (js "<p>x</p>") /\
  obj_get (js "relativePath") p = VStr (js "a.md") /\
  obj_get (js "sourceCode") p = VStr Sample.demo /\
  obj_get (js "jsSourceCode") p = VStr (js "<b/>").
Proof.
  intros pd p.
  apply (@payload_precedence Sample.env (VStr (js "caption")) VUndefined pd
           Sample.demo (js "<b/>")).
  simpl. repeat constructor; simpl; intuition discriminate.
Defined.

(* ===================================================================== *)
(** * The header sanitizer on the documented inputs *)
(* ===================================================================== *)

(** C4, as stated, fails on its second input: the deep pipeline does not
    return the text with the backticks. *)
Lemma deep_sanitizer_strips_backticks :
  deeplyParseHeader backticked_tag <> backticked_tag.
Proof. vm_compute. discriminate. Qed.

(** C4, amended: the deep pipeline maps [<a> b] to [b]; the input with
    the tag between backticks passes the HTML-stripping step unchanged,
    and the shallow pipeline then takes the pair of backticks away, so
    that the deep pipeline maps it to [<a> b]. *)
Theorem deep_sanitizer_examples :
  deeplyParseHeader (js "<a> b") = js "b" /\
  removeNonCodeWrappedHTML backticked_tag = backticked_tag /\
  parseHeader backticked_tag = js "<a> b" /\
  deeplyParseHeader backticked_tag = js "<a> b".
Proof. repeat split; vm_compute; reflexivity. Qed.

(* ===================================================================== *)
(** * The title *)
(* ===================================================================== *)

(** C3, as stated, fails: with a second-level heading before the first
    top-level one, the title is taken from the second-level heading. *)
Lemma title_from_lower_level_heading :
  inferTitle [] two_headings = Ok (js "Sub") /\
  TitleSpec.title_of [] two_headings = Ok (js "Top") /\
  inferTitle [] two_headings <> TitleSpec.title_of [] two_headings.
Proof. repeat split; vm_compute; try reflexivity; discriminate. Qed.

(* ===================================================================== *)
(** * Properties of the matcher *)
(* ===================================================================== *)

Section MatcherFacts.

Variable multiline : bool.
Variable input : jstring.

(** ** The fuel of a repetition is never used up *)

Lemma total_on_le n n' k : n' <= n -> total_on n k -> total_on n' k.
Proof. intros Hn Hk st Hst. apply Hk. lia. Qed.

Lemma step_if_total ok st k :
  total_on (List.length (rest st)) k -> step_if ok st k <> OutOfFuel.
Proof.
  unfold step_if. intros Hk. destruct (rest st) as [|a t] eqn:Hr; [discriminate|].
  destruct (ok a); [|discriminate]. apply Hk. simpl. lia.
Qed.

Lemma rep_loop_total mr greedy :
  (forall st k, total_on (List.length (rest st)) k -> mr st k <> OutOfFuel) ->
  forall fuel lo hi st k,
    lo + List.length (rest st) < fuel ->
    total_on (List.length (rest st)) k ->
    rep_loop mr greedy k fuel lo hi st <> OutOfFuel.
Proof.
  intros Hmr. induction fuel as [|fuel IH]; intros lo hi st k Hfuel Hk; [lia|].
  assert (Hst : k st <> OutOfFuel) by (apply Hk; lia).
  simpl. destruct hi as [[|h]|]; auto.
  - destruct lo as [|lo].
    + match goal with
      | |- context [mr st ?c] => assert (Hagain : mr st c <> OutOfFuel)
      end.
      { apply Hmr. intros st' Hst'.
        destruct (Nat.eqb_spec (List.length (rest st')) (List.length (rest st)));
          [discriminate|].
        apply IH; [lia|]. eapply total_on_le; [|exact Hk]. lia. }
      destruct greedy.
      * match goal with |- match ?o with _ => _ end <> _ => destruct o end;
          auto; congruence.
      * destruct (k st); auto; congruence.
    + apply Hmr. intros st' Hst'. apply IH; [lia|].
      eapply total_on_le; [|exact Hk]. lia.
  - destruct lo as [|lo].
    + match goal with
      | |- context [mr st ?c] => assert (Hagain : mr st c <> OutOfFuel)
      end.
      { apply Hmr. intros st' Hst'.
        destruct (Nat.eqb_spec (List.length (rest st')) (List.length (rest st)));
          [discriminate|].
        apply IH; [lia|]. eapply total_on_le; [|exact Hk]. lia. }
      destruct greedy.
      * match goal with |- match ?o with _ => _ end <> _ => destruct o end;
          auto; congruence.
      * destruct (k st); auto; congruence.
    + apply Hmr. intros st' Hst'. apply IH; [lia|].
      eapply total_on_le; [|exact Hk]. lia.
Qed.

Lemma m_total r :
  forall st k, total_on (List.length (rest st)) k ->
               m multiline input r st k <> OutOfFuel.
Proof.
  induction r as [| c | | neg cs | | | | r1 IH1 r2 IH2 | r1 IH1 r2 IH2
                 | lo hi greedy r IH | i r IH | i]; intros st k Hk; simpl;
    try (now apply step_if_total).
  - apply Hk; lia.
  - destruct (at_bol multiline input st); [apply Hk; lia|discriminate].
  - destruct (at_eol multiline st); [apply Hk; lia|discriminate].
  - apply IH1. intros st' Hst'. apply IH2. eapply total_on_le; eauto.
  - specialize (IH1 st k Hk). specialize (IH2 st k Hk).
    destruct (m multiline input r1 st k); auto; congruence.
  - apply rep_loop_total; auto. lia.
  - apply IH. intros st' Hst'. apply Hk. simpl. lia.
  - destruct (get_cap i (caps st)) as [w|]; [|apply Hk; lia].
    destruct (prefixb w (rest st)); [|discriminate].
    apply Hk. simpl. rewrite length_skipn. lia.
Qed.

(** An attempt at a position either matches or fails. *)
Lemma match_here_total r s : match_here multiline input r s <> OutOfFuel.
Proof. apply m_total. intros st _. discriminate. Qed.

(** ** A greedy repetition of a class of code units

    It takes the whole run of code units of the class, if the rest of
    the pattern matches from there. *)

Lemma rep_loop_star_run mr ok k :
  (forall st k', mr st k' = step_if ok st k') ->
  forall seg tail cs fuel x,
    forallb ok seg = true -> stops ok tail ->
    List.length seg < fuel ->
    k (MState tail cs) = Matched x ->
    rep_loop mr true k fuel 0 None (MState (seg ++ tail) cs) = Matched x.
Proof.
  intros Hmr. induction seg as [|c seg IH]; intros tail cs fuel x Hrun Htail Hfuel Hk;
    (destruct fuel as [|fuel]; [simpl in Hfuel; lia|]); simpl.
  - rewrite Hmr. unfold step_if. simpl.
    destruct tail as [|a t]; [now rewrite Hk|].
    simpl in Htail. rewrite Htail. now rewrite Hk.
  - simpl in Hrun. apply andb_prop in Hrun as [Hc Hrun].
    rewrite Hmr. unfold step_if. simpl. rewrite Hc.
    destruct (Nat.eqb_spec (List.length (seg ++ tail)) (S (List.length (seg ++ tail))));
      [lia|].
    rewrite (IH tail cs fuel x); auto. simpl in Hfuel; lia.
Qed.

Lemma rep_loop_plus_run mr ok k :
  (forall st k', mr st k' = step_if ok st k') ->
  forall c seg tail cs fuel x,
    forallb ok (c :: seg) = true -> stops ok tail ->
    S (List.length seg) < fuel ->
    k (MState tail cs) = Matched x ->
    rep_loop mr true k fuel 1 None (MState ((c :: seg) ++ tail) cs) = Matched x.
Proof.
  intros Hmr c seg tail cs fuel x Hrun Htail Hfuel Hk.
  destruct fuel as [|fuel]; [lia|]. simpl.
  simpl in Hrun. apply andb_prop in Hrun as [Hc Hrun].
  rewrite Hmr. unfold step_if. simpl. rewrite Hc.
  eapply rep_loop_star_run; eauto. lia.
Qed.

Lemma search_here r s st :
  match_here multiline input r s = Matched st ->
  search multiline input r s = Some st.
Proof. intros H. destruct s; simpl; now rewrite H. Qed.

End MatcherFacts.

(* ===================================================================== *)
(** * Headings of any level *)
(* ===================================================================== *)

Section HeadingFacts.

Lemma forallb_hashes n : forallb (char_eqb (ch "#")) (hashes n) = true.
Proof. induction n; simpl; auto. Qed.

Lemma space_is_no_hash c : is_space c = true -> char_eqb (ch "#") c = false.
Proof.
  intros H. unfold char_eqb. destruct (N.eqb_spec (ch "#") c) as [<-|]; auto.
Qed.

Lemma firstn_consumed (text tail : jstring) :
  firstn (List.length (text ++ tail) - List.length tail) (text ++ tail) = text.
Proof.
  rewrite length_app, Nat.add_sub, firstn_app, Nat.sub_diag, firstn_all.
  simpl. apply app_nil_r.
Qed.

(** A body that opens, after optional white space, with one or more [#],
    white space and a text up to the end of its line: the pattern of
    [inferTitle] matches there and captures the text, whatever the
    number of [#]. *)
Lemma heading_at_start ind n w ws c text tail :
  blank ind -> blank (w :: ws) ->
  is_space c = false -> no_line_end (c :: text) ->
  stops (fun a => negb (is_line_terminator a)) tail ->
  regex_match true re_heading
    (ind ++ hashes (S n) ++ (w :: ws) ++ (c :: text) ++ tail)
  = Some (MState tail [(1, c :: text)]).
Proof.
  intros Hind Hws Hc Htext Htail.
  unfold regex_match. apply search_here.
  unfold match_here, re_heading. cbn [Seq m].
  unfold at_bol, prev_char. cbn [rest]. rewrite Nat.sub_diag.
  unfold Star, Plus. cbn [m].
  eapply rep_loop_star_run with (ok := is_space); try reflexivity; auto.
  { cbn [rest]. length_lia. }
  cbn [m rest].
  apply rep_loop_plus_run with (ok := char_eqb (ch "#")); try reflexivity.
  { apply (forallb_hashes (S n)). }
  { simpl. apply space_is_no_hash. unfold blank in Hws. simpl in Hws.
    now apply andb_prop in Hws as [Hw _]. }
  { unfold hashes. length_lia. }
  cbn [m rest].
  apply rep_loop_plus_run with (ok := is_space); try reflexivity; auto.
  { length_lia. }
  cbn [m rest].
  change (c :: text ++ tail) with ((c :: text) ++ tail).
  apply rep_loop_star_run with (ok := fun a => negb (is_line_terminator a));
    try reflexivity; auto.
  { length_lia. }
  unfold consumed. cbn [rest caps]. now rewrite firstn_consumed.
Qed.

End HeadingFacts.

(* ===================================================================== *)
(** * Literal patterns *)
(* ===================================================================== *)

(** The patterns of the escaper and of [unescapeHtml] are literal texts.
    On such a pattern the matcher and the global replacement agree with
    [prefixb] and [replace_all]. *)

Section LiteralFacts.

Variable multiline : bool.

Lemma prefixb_length p s : prefixb p s = true -> List.length p <= List.length s.
Proof.
  revert s; induction p as [|a p IH]; intros [|c s]; simpl; try lia; try discriminate.
  intros H; apply andb_prop in H as [_ H]. apply IH in H. lia.
Qed.

Lemma m_literal input p :
  p <> [] ->
  forall st k,
    m multiline input (literal p) st k =
    if prefixb p (rest st)
    then k (MState (skipn (List.length p) (rest st)) (caps st))
    else Failed.
Proof.
  unfold literal. induction p as [|a p IH]; [congruence|]. intros _ st k.
  destruct p as [|b p].
  - simpl. unfold step_if. destruct (rest st) as [|c t]; [reflexivity|].
    now rewrite andb_true_r.
  - change (Seq (map Chr (a :: b :: p)))
      with (Cat (Chr a) (Seq (map Chr (b :: p)))).
    cbn [m]. unfold step_if. destruct (rest st) as [|c t]; [reflexivity|].
    rewrite prefixb_cons. destruct (char_eqb a c); [|reflexivity].
    rewrite IH by discriminate. reflexivity.
Qed.

Lemma replace_loop_literal input p r :
  p <> [] ->
  forall s skip,
    replace_loop multiline input (literal p) [Lit r] skip s = replace_from p r skip s.
Proof.
  intros Hp. induction s as [|c s IH]; intros [|skip].
  - cbn [replace_loop replace_from]. unfold match_here.
    rewrite m_literal by exact Hp. cbn [rest].
    now rewrite prefixb_nil_false.
  - reflexivity.
  - cbn [replace_loop replace_from]. unfold match_here.
    rewrite m_literal by exact Hp. cbn [rest caps].
    destruct (prefixb p (c :: s)) eqn:Hpre.
    + apply prefixb_length in Hpre. cbn [expand get_cap rest].
      rewrite length_skipn.
      replace (List.length (c :: s) - (List.length (c :: s) - List.length p))
        with (S (List.length p - 1))
        by (destruct p; [congruence|cbn [List.length] in *; lia]).
      now rewrite app_nil_r, IH.
    + now rewrite IH.
  - cbn [replace_loop replace_from]. apply IH.
Qed.

Lemma regex_replace_literal p r s :
  p <> [] -> regex_replace multiline (literal p) [Lit r] s = replace_all p r s.
Proof. intros Hp. now apply replace_loop_literal. Qed.

End LiteralFacts.

(** The escaper in terms of its two patterns, [/import\.meta/g] and
    [/process\.env/g]. *)
Lemma escape_by_patterns html :
  Escaper.escape html =
  regex_replace false (literal Escaper.process_env) [Lit Escaper.process_wbr_env]
    (regex_replace false (literal Escaper.import_meta) [Lit Escaper.import_wbr_meta]
       html).
Proof.
  unfold Escaper.escape. now rewrite !regex_replace_literal by discriminate.
Qed.

(* ===================================================================== *)
(** * Trimmed texts *)
(* ===================================================================== *)

Section TrimmedFacts.

Lemma trim_start_head c s : is_space c = false -> trim_start (c :: s) = c :: s.
Proof. intros H; simpl; now rewrite H. Qed.

Lemma trim_start_cases s :
  trim_start s = [] \/ exists c t, trim_start s = c :: t /\ is_space c = false.
Proof.
  induction s as [|c s IH]; simpl; auto.
  destruct (is_space c) eqn:Hc; auto. right; eauto.
Qed.

(** Trimming at the start stops at the latest at a code unit that is no
    white space. *)
Lemma trim_start_keeps_suffix x c y :
  is_space c = false -> exists t, trim_start (x ++ c :: y) = t ++ c :: y.
Proof.
  intros Hc. induction x as [|a x [t IH]]; simpl.
  - rewrite Hc. now exists [].
  - destruct (is_space a); [now exists t|]. now exists (a :: x).
Qed.

Lemma trim_end_keeps_prefix x c y :
  is_space c = false -> exists t, trim_end (x ++ c :: y) = x ++ c :: t.
Proof.
  intros Hc. unfold trim_end.
  rewrite rev_app_distr. simpl. rewrite <- app_assoc. simpl.
  destruct (@trim_start_keeps_suffix (rev y) c (rev x) Hc) as [t Ht].
  rewrite Ht. exists (rev t).
  rewrite rev_app_distr. simpl. rewrite rev_involutive, <- app_assoc. reflexivity.
Qed.

Lemma trim_start_idempotent s : trim_start (trim_start s) = trim_start s.
Proof.
  destruct (trim_start_cases s) as [->|(c & t & -> & Hc)]; [reflexivity|].
  now apply trim_start_head.
Qed.

Lemma trim_end_idempotent s : trim_end (trim_end s) = trim_end s.
Proof.
  unfold trim_end. now rewrite rev_involutive, trim_start_idempotent.
Qed.

Lemma trim_start_trim_end s :
  trim_start s = s -> trim_start (trim_end s) = trim_end s.
Proof.
  intros Hs. destruct s as [|c s]; [reflexivity|].
  assert (Hc : is_space c = false).
  { simpl in Hs. destruct (is_space c) eqn:Hc; auto.
    destruct (trim_start_skipn s) as [n Hn]. rewrite Hn in Hs.
    apply (f_equal (@List.length _)) in Hs. rewrite length_skipn in Hs.
    simpl in Hs. lia. }
  destruct (@trim_end_keeps_prefix [] c s Hc) as [t Ht]. simpl in Ht.
  rewrite Ht. now apply trim_start_head.
Qed.

Lemma trim_idempotent s : trim (trim s) = trim s.
Proof.
  unfold trim.
  rewrite trim_start_trim_end by apply trim_start_idempotent.
  apply trim_end_idempotent.
Qed.

(** A trimmed text that follows white space and opens with a text ending
    in a code unit that is no white space opens with that text. *)
Lemma trim_keeps_opening ws x c y :
  blank ws -> is_space c = false ->
  match x ++ [c] with a :: _ => is_space a = false | [] => True end ->
  prefixb (x ++ [c]) (trim (ws ++ (x ++ [c]) ++ y)) = true.
Proof.
  intros Hws Hc Ha. unfold trim. rewrite trim_start_blank by exact Hws.
  assert (Hst : trim_start ((x ++ [c]) ++ y) = (x ++ [c]) ++ y).
  { destruct (x ++ [c]) as [|a l] eqn:Hx; [destruct x; discriminate Hx|].
    now apply trim_start_head. }
  rewrite Hst, <- app_assoc. simpl.
  destruct (@trim_end_keeps_prefix x c y Hc) as [t ->].
  replace (x ++ c :: t) with ((x ++ [c]) ++ t) by (now rewrite <- app_assoc).
  apply prefixb_app_l. clear. induction (x ++ [c]) as [|a l IH]; simpl; auto.
  unfold char_eqb. now rewrite N.eqb_refl.
Qed.

End TrimmedFacts.

(* ===================================================================== *)
(** * [compose] *)
(* ===================================================================== *)

Lemma fold_compose (ps : list (jstring -> jstring)) (f : jstring -> jstring) x :
  fold_left (fun prev next => fun str => next (prev str)) ps f x
  = fold_left (fun acc g => g acc) ps (f x).
Proof. revert f; induction ps as [|g ps IH]; intros f; simpl; auto. Qed.

(** X1: [compose] applies its processors to the input one after the
    other, the first one first; with no processor it is the identity,
    and the composition of two lists put end to end is the composition
    of the second after that of the first. *)
Theorem compose_in_order (ps qs : list (jstring -> jstring)) (x : jstring) :
  compose ps x = fold_left (fun acc g => g acc) ps x /\
  compose [] x = x /\
  compose (ps ++ qs) x = compose qs (compose ps x).
Proof.
  assert (H : forall l y, compose l y = fold_left (fun acc g => g acc) l y).
  { intros [|f l] y; [reflexivity|]. unfold compose. apply fold_compose. }
  repeat split; auto.
  now rewrite !H, fold_left_app.
Qed.

Lemma parseHeader_unfold s :
  parseHeader s = trim (removeMarkdownTokens (unescapeHtml s)).
Proof. reflexivity. Qed.

Lemma deeplyParseHeader_unfold s :
  deeplyParseHeader s = parseHeader (removeNonCodeWrappedHTML s).
Proof. reflexivity. Qed.

(** X2: what [parseHeader] and [deeplyParseHeader] return has no white
    space at either end: trimming it again changes nothing. *)
Theorem parseHeader_trimmed (s : jstring) :
  trim (parseHeader s) = parseHeader s /\
  trim (deeplyParseHeader s) = deeplyParseHeader s.
Proof.
  rewrite deeplyParseHeader_unfold, !parseHeader_unfold.
  split; apply trim_idempotent.
Qed.

(** X3: a title that [inferTitle] returns has no white space at either
    end, whatever the frontmatter and the body. *)
Theorem inferTitle_trimmed (fm : obj) (body t : jstring) :
  inferTitle fm body = Ok t -> trim t = t.
Proof.
  unfold inferTitle.
  destruct (truthy (obj_get (js "home") fm)); [now intros [= <-]|].
  destruct (truthy (obj_get (js "title") fm)).
  - destruct (to_string (obj_get (js "title") fm)) as [s|]; [|discriminate].
    intros [= <-].
    rewrite deeplyParseHeader_unfold, parseHeader_unfold. apply trim_idempotent.
  - destruct (regex_match true re_heading body) as [st|]; intros [= <-];
      [|reflexivity].
    rewrite deeplyParseHeader_unfold, parseHeader_unfold. apply trim_idempotent.
Qed.

Lemma inferTitle_trimmed_witness :
  trim (js "Guide") = js "Guide".
Proof.
  apply (@inferTitle_trimmed [(js "title", VStr (js " *Guide* "))] (js "# Other")).
  vm_compute. reflexivity.
Defined.

(* ===================================================================== *)
(** * [unescapeHtml] *)
(* ===================================================================== *)

Section UnescapeFacts.

(** A replacement by one code unit [c] brings no occurrence of a text
    that is free of [c]. *)
Lemma occursb_replace_char p c q s :
  q <> [] -> ~ In c q ->
  q = p \/ occursb q s = false ->
  occursb q (replace_all p [c] s) = false.
Proof.
  intros Hq Hc Hcase.
  apply (@occursb_replace_all p [c] [] p [] c); auto.
  intros t. simpl. destruct q as [|a q]; [congruence|]. simpl.
  unfold char_eqb. destruct (N.eqb_spec a c) as [->|]; auto.
  exfalso; apply Hc; now left.
Qed.

Lemma occursb_without_head a q s : ~ In a s -> occursb (a :: q) s = false.
Proof.
  induction s as [|c s IH]; intros H; [reflexivity|].
  simpl. unfold char_eqb. destruct (N.eqb_spec a c) as [->|]; simpl.
  - exfalso; apply H; now left.
  - apply IH. intros Hin; apply H; now right.
Qed.

Ltac entity_gone :=
  repeat first
    [ apply occursb_replace_char;
      [ discriminate
      | vm_compute; intuition discriminate
      | first [ left; reflexivity | right ] ] ].

Lemma unescapeHtml_clean s e :
  In e entities -> occursb e (unescapeHtml s) = false.
Proof.
  unfold entities, unescapeHtml.
  intros [<-|[<-|[<-|[<-|[<-|[]]]]]]; entity_gone.
Qed.

End UnescapeFacts.

(** X4: [unescapeHtml] leaves none of the five entities it knows in its
    result, and is idempotent. *)
Theorem unescapeHtml_idempotent (s : jstring) :
  (forall e, In e entities -> occursb e (unescapeHtml s) = false) /\
  unescapeHtml (unescapeHtml s) = unescapeHtml s.
Proof.
  split; [intros e He; now apply unescapeHtml_clean|].
  unfold unescapeHtml at 1.
  rewrite (@replace_all_absent (js "&quot;") _ (unescapeHtml s))
    by (apply unescapeHtml_clean; unfold entities; simpl; tauto).
  rewrite (@replace_all_absent (js "&#39;") _ (unescapeHtml s))
    by (apply unescapeHtml_clean; unfold entities; simpl; tauto).
  rewrite (@replace_all_absent (js "&#x3A;") _ (unescapeHtml s))
    by (apply unescapeHtml_clean; unfold entities; simpl; tauto).
  rewrite (@replace_all_absent (js "&lt;") _ (unescapeHtml s))
    by (apply unescapeHtml_clean; unfold entities; simpl; tauto).
  apply replace_all_absent.
  apply unescapeHtml_clean; unfold entities; simpl; tauto.
Qed.

(** X5: a text without ampersand passes [unescapeHtml] unchanged. *)
Theorem unescapeHtml_without_ampersand (s : jstring) :
  ~ In (ch "&") s -> unescapeHtml s = s.
Proof.
  intros H. unfold unescapeHtml.
  rewrite (@replace_all_absent (js "&quot;") _ s) by now apply occursb_without_head.
  rewrite (@replace_all_absent (js "&#39;") _ s) by now apply occursb_without_head.
  rewrite (@replace_all_absent (js "&#x3A;") _ s) by now apply occursb_without_head.
  rewrite (@replace_all_absent (js "&lt;") _ s) by now apply occursb_without_head.
  apply replace_all_absent. now apply occursb_without_head.
Qed.

Lemma unescapeHtml_without_ampersand_witness :
  unescapeHtml (js "a < b") = js "a < b".
Proof.
  apply unescapeHtml_without_ampersand. vm_compute. intuition discriminate.
Defined.

(* ===================================================================== *)
(** * What every compiled page satisfies *)
(* ===================================================================== *)

Section ResultFacts.

Variable E : Env.
Variable root : jstring.

(** The fields of a freshly built page. *)
Lemma page_result_inv src file r :
  page_result E root src file = Ok r ->
  exists body fm rendered t d mt nc,
    matter E src = Ok (body, fm) /\
    md_render E body = Ok rendered /\
    inferTitle fm body = Ok t /\
    inferDescription fm = Ok d /\
    statSync_mtimeMs E file = Ok mt /\
    let pd := {| title := t;
                 description := d;
                 frontmatter := fm;
                 headers := r_headers rendered;
                 relativePath := slash E (path_relative E root file);
                 content := escapeHtml E body;
                 html := Escaper.escape (r_html rendered);
                 lastUpdated := Math_round mt |} in
    r = {| vueSrc := trim nc; pageData := pd |} /\
    ((exists c v w, r_vueCode rendered = Some (c :: v) /\
                    fst (genComponentCode E rendered (c :: v) pd w) = Ok nc) \/
     ((r_vueCode rendered = None \/ r_vueCode rendered = Some []) /\
      nc = plain_component E (Escaper.escape (r_html rendered)) pd body)).
Proof.
  unfold page_result, build_page, bind, call, lift.
  destruct (matter E src) as [[body fm]|e] eqn:H1; simpl; [|discriminate].
  destruct (md_render E body) as [rendered|e] eqn:H2; simpl; [|discriminate].
  destruct (inferTitle fm body) as [t|e] eqn:H0; simpl; [|discriminate].
  destruct (inferDescription fm) as [d|e] eqn:H3; simpl; [|discriminate].
  destruct (statSync_mtimeMs E file) as [mt|e] eqn:H4; simpl; [|discriminate].
  match goal with
  | |- context [match ?c ?w with _ => _ end] =>
      destruct (c w) as [[nc|e] w5] eqn:Hnc
  end; simpl; [|discriminate].
  intros [= <-]. exists body, fm, rendered, t, d, mt, nc.
  do 5 (split; [first [reflexivity | assumption]|]). cbv zeta. split; [reflexivity|].
  destruct (r_vueCode rendered) as [[|c v]|].
  - right. split; auto. unfold ret in Hnc. now injection Hnc as <- _.
  - left. eexists c, v, _. split; auto. now rewrite Hnc.
  - right. split; auto. unfold ret in Hnc. now injection Hnc as <- _.
Qed.

(** A property of the freshly built pages holds for all that the cache
    holds and for all that [compile] returns. *)
Lemma cache_result_inv (P : jstring -> MarkdownCompileResult -> Prop) :
  (forall src file r, page_result E root src file = Ok r -> P src r) ->
  forall w, reachable E root w ->
  forall k v, In (k, v) (cache w) -> P k v.
Proof.
  intros HP w Hw. induction Hw as [|w src file Hw IH]; [intros k v []|].
  intros k v Hin.
  destruct (Lru.find src (cache w)) as [hit|] eqn:Hf.
  - rewrite (compile_hit E root src file w Hf) in Hin. simpl in Hin.
    destruct Hin as [[= <- <-]|Hin].
    + apply IH. now apply find_In.
    + apply IH. eapply In_remove_key; eauto.
  - destruct (compile_miss E root src file w Hf) as [t Ht].
    rewrite Ht in Hin.
    destruct (page_result E root src file) as [r'|e] eqn:Hp; simpl in Hin.
    + apply In_set in Hin as [[= -> ->]|Hin]; eauto.
    + auto.
Qed.

Lemma compile_result_inv (P : jstring -> MarkdownCompileResult -> Prop) :
  (forall src file r, page_result E root src file = Ok r -> P src r) ->
  forall w src file r w',
    reachable E root w ->
    compile E root src file w = (Ok r, w') -> P src r.
Proof.
  intros HP w src file r w' Hw H.
  apply (@cache_result_inv P HP w' (eq_ind _ (reachable E root)
           (reach_compile src file Hw) _ (f_equal snd H)) src r).
  destruct (Lru.find src (cache w)) as [hit|] eqn:Hf.
  - rewrite (compile_hit E root src file w Hf) in H.
    injection H as <- <-. now left.
  - destruct (compile_miss E root src file w Hf) as [t Ht]. rewrite Ht in H.
    destruct (page_result E root src file) as [r'|e]; [|discriminate].
    injection H as <- <-. simpl. unfold Lru.set. rewrite Hf.
    destruct (Nat.leb cache_max (List.length (cache w))); now left.
Qed.

Lemma genComponentCode_opening data v pd w nc :
  fst (genComponentCode E data v pd w) = Ok nc ->
  exists tl, nc = (LF ++ js "    ") ++ (js "<template" ++ [ch ">"]) ++ tl.
Proof.
  unfold genComponentCode, bind, call.
  destruct (md_render E (fence (trim v))) as [r1|e]; simpl; [|discriminate].
  match goal with
  | |- context [vanilla E v ?w0] => destruct (vanilla E v w0) as [[j|e] w2]
  end; simpl; [|discriminate].
  destruct (md_render E (fence j)) as [r2|e]; simpl; [|discriminate].
  intros [= <-]. eexists. reflexivity.
Qed.

Lemma page_result_vueSrc src file r :
  page_result E root src file = Ok r ->
  trim (vueSrc r) = vueSrc r /\ prefixb (js "<template>") (vueSrc r) = true.
Proof.
  intros H. apply page_result_inv in H.
  destruct H as (body & fm & rendered & t & d & mt & nc & _ & _ & _ & _ & _ & H).
  cbv zeta in H. destruct H as [-> Hnc]. simpl vueSrc.
  split; [apply trim_idempotent|].
  destruct Hnc as [(c & v & w & _ & Hg)|[_ ->]].
  - apply genComponentCode_opening in Hg as [tl ->].
    apply (@trim_keeps_opening (LF ++ js "    ") (js "<template") (ch ">") tl);
      reflexivity.
  - unfold plain_component.
    change (js "<template><article class=")
      with ((js "<template" ++ [ch ">"]) ++ js "<article class=").
    rewrite <- (app_assoc (js "<template" ++ [ch ">"])).
    apply (@trim_keeps_opening LF (js "<template") (ch ">")); reflexivity.
Qed.

Lemma page_result_html src file r :
  page_result E root src file = Ok r ->
  occursb Escaper.import_meta (html (pageData r)) = false /\
  occursb Escaper.process_env (html (pageData r)) = false.
Proof.
  intros H. apply page_result_inv in H.
  destruct H as (body & fm & rendered & t & d & mt & nc & _ & _ & _ & _ & _ & H).
  cbv zeta in H. destruct H as [-> _]. simpl. apply escape_clean.
Qed.

End ResultFacts.

(** X6: the [html] of the page data of every compiled page, fresh or
    from the cache, holds neither [import.meta] nor [process.env]. *)
Theorem page_html_has_no_reserved_sequence
    (E : Env) (root src file : jstring) (w w' : world) (r : MarkdownCompileResult) :
  reachable E root w ->
  compile E root src file w = (Ok r, w') ->
  occursb Escaper.import_meta (html (pageData r)) = false /\
  occursb Escaper.process_env (html (pageData r)) = false.
Proof.
  intros Hw H.
  apply (@compile_result_inv E root
           (fun _ r => occursb Escaper.import_meta (html (pageData r)) = false /\
                       occursb Escaper.process_env (html (pageData r)) = false)
           (page_result_html E root) w src file r w' Hw H).
Qed.

Lemma page_html_has_no_reserved_sequence_witness :
  exists r w',
    compile Sample.env Sample.root (js "see import.meta.env") (js "/r/a.md")
      initial_world = (Ok r, w') /\
    html (pageData r) = js "<p>see import.<wbr/>meta.env</p>" /\
    occursb Escaper.import_meta (html (pageData r)) = false /\
    occursb Escaper.process_env (html (pageData r)) = false.
Proof.
  eexists; eexists; split; [vm_compute; reflexivity|].
  split; [vm_compute; reflexivity|].
  eapply (@page_html_has_no_reserved_sequence Sample.env Sample.root
            (js "see import.meta.env") (js "/r/a.md") initial_world).
  - apply reach_init.
  - vm_compute; reflexivity.
Defined.

(** X7: the plugin's [transform] returns nothing for an id that does not
    end in [.md], and then leaves the cache and the collaborators alone;
    for an id that does, the code it returns is the component source of
    the compiled page, which has no white space at either end and opens
    with [<template>], and the source map is [null]. *)
Theorem transform_returns_component
    (E : Env) (root code id : jstring) (w : world) :
  reachable E root w ->
  (Plugin.endsWith id (js ".md") = false ->
   Plugin.transform E root code id w = (Ok None, w)) /\
  (forall out w',
     Plugin.transform E root code id w = (Ok (Some out), w') ->
     Plugin.endsWith id (js ".md") = true /\
     (exists r, compile E root code id w = (Ok r, w') /\ Plugin.code out = vueSrc r) /\
     trim (Plugin.code out) = Plugin.code out /\
     prefixb (js "<template>") (Plugin.code out) = true /\
     Plugin.map out = VNull).
Proof.
  intros Hw. unfold Plugin.transform. split.
  - now intros ->.
  - intros out w'. destruct (Plugin.endsWith id (js ".md")); [|discriminate].
    unfold bind. destruct (compile E root code id w) as [[r|e] w1] eqn:Hc;
      [|discriminate].
    unfold ret. intros [= <- <-]. simpl.
    destruct (@compile_result_inv E root
                (fun _ r => trim (vueSrc r) = vueSrc r /\
                            prefixb (js "<template>") (vueSrc r) = true)
                (page_result_vueSrc E root) w code id r w1 Hw Hc) as [H1 H2].
    repeat split; eauto.
Qed.

Lemma transform_returns_component_witness :
  Plugin.transform Sample.env Sample.root (js "x") (js "/r/a.vue") initial_world
    = (Ok None, initial_world) /\
  exists out w',
    Plugin.transform Sample.env Sample.root (js "demo page") (js "/r/a.md")
      initial_world = (Ok (Some out), w') /\
    trim (Plugin.code out) = Plugin.code out /\
    prefixb (js "<template>") (Plugin.code out) = true.
Proof.
  split.
  - apply (@transform_returns_component Sample.env Sample.root (js "x")
             (js "/r/a.vue") initial_world (reach_init _ _)).
    vm_compute; reflexivity.
  - eexists; eexists; split; [vm_compute; reflexivity|].
    destruct (@transform_returns_component Sample.env Sample.root (js "demo page")
                (js "/r/a.md") initial_world (reach_init _ _)) as [_ H].
    edestruct H as (_ & _ & H3 & H4 & _); [vm_compute; reflexivity|].
    split; [exact H3|exact H4].
Defined.

(* ===================================================================== *)
(** * More on the demo payload *)
(* ===================================================================== *)

Section PayloadFacts.

Lemma before_first_split sep s :
  exists tl, s = before_first sep s ++ tl /\ (tl = [] \/ prefixb sep tl = true).
Proof.
  induction s as [|c s (tl & IH & Htl)]; simpl.
  - exists []. auto.
  - destruct (prefixb sep (c :: s)) eqn:Hp.
    + exists (c :: s). auto.
    + exists tl. split; [simpl; f_equal; exact IH|exact Htl].
Qed.

Lemma before_first_free sep s :
  sep <> [] -> occursb sep (before_first sep s) = false.
Proof.
  intros Hsep. induction s as [|c s IH]; simpl.
  - now apply prefixb_nil_false.
  - destruct (prefixb sep (c :: s)) eqn:Hp.
    + now apply prefixb_nil_false.
    + simpl occursb. apply orb_false_intro; auto.
      destruct (prefixb sep (c :: before_first sep s)) eqn:Hq; auto.
      destruct (before_first_split sep s) as (tl & Hs & _).
      apply (prefixb_app_l _ _ tl) in Hq. simpl in Hq.
      rewrite <- Hs in Hq. congruence.
Qed.

Lemma obj_get_absent k o : obj_has k o = false -> obj_get k o = VUndefined.
Proof.
  induction o as [|[k' v'] o IH]; simpl; auto.
  destruct (jstring_eqb k k'); [discriminate|auto].
Qed.

End PayloadFacts.

(** X8: under a name the payload does not compute itself, the payload
    reads as the frontmatter does: a frontmatter property reaches the
    payload as it is, and a name the frontmatter lacks reads as
    [undefined]. *)
Theorem payload_passes_frontmatter
    (E : Env) (us cn : value) (pd : PageData) (vueCode jsSourceCode k : jstring) :
  NoDup (List.map fst (frontmatter pd)) ->
  ~ In k payload_names ->
  obj_get k (payload E us cn pd vueCode jsSourceCode) = obj_get k (frontmatter pd).
Proof.
  intros Hnd Hk. unfold payload_names in Hk. simpl in Hk.
  unfold payload, obj_literal. cbn [fold_left].
  repeat (rewrite obj_get_set_other by (intros ->; tauto)).
  rewrite obj_get_spread by exact Hnd.
  destruct (obj_has k (frontmatter pd)) eqn:Hh; [reflexivity|].
  repeat (rewrite obj_get_set_other by (intros ->; tauto)).
  symmetry. now apply obj_get_absent.
Qed.

Lemma payload_passes_frontmatter_witness :
  let pd := {| title := []; description := VStr [];
               frontmatter := [ (js "order", VInt 3); (js "us", VStr (js "mine")) ];
               headers := []; relativePath := js "a.md"; content := [];
               html := js "<p>x</p>"; lastUpdated := 0 |} in
  obj_get (js "order") (payload Sample.env VUndefined VUndefined pd Sample.demo (js "<b/>"))
  = obj_get (js "order") (frontmatter pd).
Proof.
  intros pd.
  apply (@payload_passes_frontmatter Sample.env VUndefined VUndefined pd
           Sample.demo (js "<b/>") (js "order")).
  - simpl. repeat constructor; simpl; intuition discriminate.
  - vm_compute. intuition discriminate.
Defined.

(** X9: unless the frontmatter has a [docHtml] of its own, the [docHtml]
    of the payload is the part of the page's [html] before the first
    mark of the highlighted demo: the mark does not occur in it, and it
    is the whole [html] or is followed there by the mark. *)
Theorem payload_docHtml
    (E : Env) (us cn : value) (pd : PageData) (vueCode jsSourceCode : jstring) :
  NoDup (List.map fst (frontmatter pd)) ->
  obj_has (js "docHtml") (frontmatter pd) = false ->
  exists d tl,
    obj_get (js "docHtml") (payload E us cn pd vueCode jsSourceCode) = VStr d /\
    html pd = d ++ tl /\
    occursb demo_marker d = false /\
    (tl = [] \/ prefixb demo_marker tl = true).
Proof.
  intros Hnd Hno.
  destruct (before_first_split demo_marker (html pd)) as (tl & Hs & Htl).
  exists (before_first demo_marker (html pd)), tl.
  split; [|split; [exact Hs|split; [|exact Htl]]].
  - unfold payload, obj_literal. cbn [fold_left].
    repeat (rewrite obj_get_set_other by (vm_compute; discriminate)).
    rewrite obj_get_spread by exact Hnd. rewrite Hno.
    apply obj_get_set_same.
  - apply before_first_free. discriminate.
Qed.

Lemma payload_docHtml_witness :
  let pd := {| title := []; description := VStr [];
               frontmatter := []; headers := []; relativePath := js "a.md";
               content := [];
               html := js "<h1>Demo</h1>" ++ demo_marker ++ js "<code/></pre>";
               lastUpdated := 0 |} in
  exists d tl,
    obj_get (js "docHtml") (payload Sample.env VUndefined VUndefined pd Sample.demo [])
      = VStr d /\
    html pd = d ++ tl /\
    occursb demo_marker d = false /\
    (tl = [] \/ prefixb demo_marker tl = true).
Proof.
  intros pd.
  apply (@payload_docHtml Sample.env VUndefined VUndefined pd Sample.demo []).
  - constructor.
  - reflexivity.
Defined.

(* ===================================================================== *)
(** * The description *)
(* ===================================================================== *)

Section DescriptionFacts.

Lemma is_meta_named_entry e :
  is_meta_named (js "description") (head_entry e) = Ok (describes e).
Proof.
  destruct e as [tag attrs]. unfold is_meta_named, head_entry, describes. simpl.
  destruct (jstring_eqb tag _); [|reflexivity].
  destruct (strict_eq_str _ _); reflexivity.
Qed.

Lemma find_meta_entries entries :
  find_meta (js "description") (List.map head_entry entries)
  = Ok (option_map head_entry (List.find describes entries)).
Proof.
  induction entries as [|e entries IH]; [reflexivity|].
  cbn [List.map find_meta List.find]. rewrite is_meta_named_entry.
  destruct (describes e); [reflexivity|exact IH].
Qed.

Lemma find_meta_bad pre bad post :
  forallb (fun e => negb (describes e)) pre = true ->
  iterable bad = false ->
  find_meta (js "description") (List.map head_entry pre ++ bad :: post)
  = Throw TypeError.
Proof.
  intros Hpre Hbad. induction pre as [|e pre IH].
  - simpl. destruct bad; try discriminate; reflexivity.
  - simpl in Hpre. apply andb_prop in Hpre as [He Hpre].
    cbn [List.map app find_meta]. rewrite is_meta_named_entry.
    destruct (describes e); [discriminate|auto].
Qed.

End DescriptionFacts.

(** X10: on a head list of [[tag, attrs]] entries the description is the
    [content] of the first [meta] entry named [description] with a
    truthy [content], and the empty string if there is none; nothing is
    thrown. *)
Theorem inferDescription_first_match (fm : obj) (entries : list (jstring * obj)) :
  obj_get (js "head") fm = VArr (List.map head_entry entries) ->
  inferDescription fm =
  Ok (match List.find describes entries with
      | Some e => obj_get (js "content") (snd e)
      | None => VStr []
      end).
Proof.
  intros Hhead. unfold inferDescription. rewrite Hhead. simpl truthy. simpl negb.
  cbv iota. unfold getHeadMetaContent.
  destruct entries as [|e0 entries]; [reflexivity|].
  remember (e0 :: entries) as l eqn:Hl.
  assert (Hne : List.map head_entry l <> []) by (subst l; discriminate).
  destruct (List.map head_entry l) as [|x xs] eqn:Hm; [congruence|].
  rewrite <- Hm, find_meta_entries.
  destruct (List.find describes l) as [e|] eqn:Hf; [|reflexivity].
  apply find_some in Hf as [_ Hd]. unfold describes in Hd.
  apply andb_prop in Hd as [_ Hd].
  destruct e as [tag attrs]. cbn [option_map head_entry fst snd nth get_prop] in *.
  now rewrite Hd.
Qed.

Lemma inferDescription_first_match_witness :
  inferDescription
    [(js "head",
      VArr (List.map head_entry
              [ (js "meta", [(js "name", VStr (js "author")); (js "content", VStr (js "X"))]);
                (js "meta", [(js "name", VStr (js "description")); (js "content", VStr [])]);
                (js "meta", [(js "name", VStr (js "description")); (js "content", VStr (js "Y"))]) ]))]
  = Ok (VStr (js "Y")).
Proof.
  apply (@inferDescription_first_match _
           [ (js "meta", [(js "name", VStr (js "author")); (js "content", VStr (js "X"))]);
             (js "meta", [(js "name", VStr (js "description")); (js "content", VStr [])]);
             (js "meta", [(js "name", VStr (js "description")); (js "content", VStr (js "Y"))]) ]).
  reflexivity.
Defined.

(** X11: a head list in which an entry that is neither an array nor a
    string ([null], a number, an object) comes before any description
    makes [inferDescription] throw a [TypeError]. *)
Theorem inferDescription_throws
    (fm : obj) (pre : list (jstring * obj)) (bad : value) (post : list value) :
  obj_get (js "head") fm = VArr (List.map head_entry pre ++ bad :: post) ->
  forallb (fun e => negb (describes e)) pre = true ->
  iterable bad = false ->
  inferDescription fm = Throw TypeError.
Proof.
  intros Hhead Hpre Hbad. unfold inferDescription. rewrite Hhead. simpl truthy.
  simpl negb. cbv iota. unfold getHeadMetaContent.
  destruct (List.map head_entry pre ++ bad :: post) as [|x xs] eqn:Hm.
  - destruct pre; discriminate.
  - rewrite <- Hm, find_meta_bad; auto.
Qed.

Lemma inferDescription_throws_witness :
  inferDescription
    [(js "head",
      VArr [head_entry (js "link", [(js "rel", VStr (js "icon"))]); VNull;
            head_entry (js "meta", [(js "name", VStr (js "description"));
                                    (js "content", VStr (js "Y"))])])]
  = Throw TypeError.
Proof.
  apply (@inferDescription_throws _ [(js "link", [(js "rel", VStr (js "icon"))])] VNull
           [head_entry (js "meta", [(js "name", VStr (js "description"));
                                    (js "content", VStr (js "Y"))])]);
    reflexivity.
Defined.

(* ===================================================================== *)
(** * The transpiler call and the script of the vanilla variant *)
(* ===================================================================== *)



(** X13: when the transpiler returns a text that is not empty once
    trimmed, the vanilla variant holds, trimmed, the template part, the
    wrapper [<script>] ... [</script>] around the trimmed text on lines
    of their own, and the style part, in this order. *)
Theorem vanilla_with_script
    (E : Env) (vueCode s : jstring) (w w' : world) :
  tsToJs E (fetchCode E vueCode PScriptContent) w = (Ok (Some s), w') ->
  trim s <> [] ->
  vanilla E vueCode w
  = (Ok (trim (fetchCode E vueCode PTemplate ++ LF ++
               js "<script>" ++ LF ++ trim s ++ LF ++ js "</script>" ++ LF ++
               fetchCode E vueCode PStyle)), w').
Proof.
  intros Hts Hs. unfold vanilla, bind. rewrite Hts. unfold ret, assemble.
  do 2 f_equal. unfold wrap_script. simpl option_map.
  destruct (trim s) as [|c j] eqn:Ht; [congruence|].
  replace (LF ++ fetchCode E vueCode PTemplate ++ LF ++
           (js "<script>" ++ LF ++ (c :: j) ++ LF ++ js "</script>") ++ LF ++
           fetchCode E vueCode PStyle ++ LF ++ js "  ")
    with (LF ++ (fetchCode E vueCode PTemplate ++ LF ++
                 js "<script>" ++ LF ++ (c :: j) ++ LF ++ js "</script>" ++ LF ++
                 fetchCode E vueCode PStyle) ++ (LF ++ js "  ")).
  - apply trim_blank_around; reflexivity.
  - repeat rewrite <- app_assoc. reflexivity.
Qed.

Lemma vanilla_with_script_witness :
  exists w',
    vanilla SampleLint.env Sample.demo initial_world
    = (Ok (js "<template><b/></template>" ++ LF ++ js "<script>" ++ LF ++
           js "type A = number" ++ LF ++ js "</script>" ++ LF ++
           js "<style>b{}</style>"), w').
Proof.
  eexists.
  rewrite (@vanilla_with_script SampleLint.env Sample.demo
             (js "type A = number") initial_world
             (snd (tsToJs SampleLint.env (js "type A = number") initial_world))).
  - vm_compute; reflexivity.
  - vm_compute; reflexivity.
  - vm_compute; discriminate.
Defined.

(* ===================================================================== *)
(** * Global replacement, position by position *)
(* ===================================================================== *)

Section ReplaceFacts.

Variable multiline : bool.
Variable input : jstring.
Variable r : regex.
Variable t : list repl_item.

Local Notation "'loop'" := (replace_loop multiline input r t).

Lemma replace_loop_skipn n s :
  n <= List.length s -> loop n s = loop 0 (skipn n s).
Proof.
  revert s; induction n as [|n IH]; intros s Hn; [reflexivity|].
  destruct s as [|c s]; [simpl in Hn; lia|].
  simpl skipn. rewrite <- IH by (simpl in Hn; lia). reflexivity.
Qed.

(** Where the pattern does not match, the text is copied. *)
Lemma replace_loop_copy c s :
  no_match multiline input r (c :: s) -> loop 0 (c :: s) = c :: loop 0 s.
Proof.
  intros H. cbn [replace_loop]. specialize (H).
  destruct (match_here multiline input r (c :: s)) as [st| |] eqn:Hm;
    [exfalso; eapply H; eauto|reflexivity|reflexivity].
Qed.

Lemma replace_loop_prefix pre s :
  (forall i, i < List.length pre -> no_match multiline input r (skipn i (pre ++ s))) ->
  loop 0 (pre ++ s) = pre ++ loop 0 s.
Proof.
  induction pre as [|c pre IH]; intros H; [reflexivity|].
  change ((c :: pre) ++ s) with (c :: pre ++ s).
  rewrite replace_loop_copy by (apply (H 0); simpl; lia).
  simpl. f_equal. apply IH. intros i Hi. apply (H (S i)). simpl; lia.
Qed.

Lemma replace_loop_end : no_match multiline input r [] -> loop 0 [] = [].
Proof.
  intros H. cbn [replace_loop].
  destruct (match_here multiline input r []) as [st| |] eqn:Hm;
    [exfalso; eapply H; eauto|reflexivity|reflexivity].
Qed.

(** A text in which the pattern matches nowhere is left as it is. *)
Lemma replace_loop_nowhere s :
  (forall i, i <= List.length s -> no_match multiline input r (skipn i s)) ->
  loop 0 s = s.
Proof.
  intros H. rewrite <- (app_nil_r s) at 1.
  rewrite replace_loop_prefix.
  - rewrite replace_loop_end; [apply app_nil_r|].
    specialize (H (List.length s) (le_n _)). now rewrite skipn_all in H.
  - intros i Hi. rewrite app_nil_r. apply H. lia.
Qed.

(** Where the pattern matches a text that is not empty, the replacement
    is written and the scan goes on behind the match. *)
Lemma replace_loop_match mtext post st :
  mtext <> [] ->
  match_here multiline input r (mtext ++ post) = Matched st ->
  rest st = post ->
  loop 0 (mtext ++ post) = expand t (caps st) ++ loop 0 post.
Proof.
  intros Hm Hmatch Hrest.
  destruct mtext as [|c mtext]; [congruence|].
  change ((c :: mtext) ++ post) with (c :: mtext ++ post) in *.
  cbn [replace_loop]. rewrite Hmatch, Hrest. f_equal.
  replace (List.length (c :: mtext ++ post) - List.length post)
    with (S (List.length mtext)) by lengths_lia.
  rewrite replace_loop_skipn by lengths_lia.
  rewrite skipn_app, skipn_all, Nat.sub_diag. reflexivity.
Qed.

End ReplaceFacts.

Lemma skipn_suffix_In (A : Type) (i : nat) (s : list A) (x : A) :
  In x (skipn i s) -> In x s.
Proof.
  revert s; induction i as [|i IH]; intros [|a s]; simpl; auto.
Qed.

Lemma free_of_skipn cs i s : free_of cs s = true -> free_of cs (skipn i s) = true.
Proof.
  unfold free_of. rewrite !forallb_forall. intros H x Hx. apply H.
  eapply skipn_suffix_In; eauto.
Qed.

Lemma free_of_app cs s1 s2 :
  free_of cs (s1 ++ s2) = free_of cs s1 && free_of cs s2.
Proof. apply forallb_app. Qed.

Lemma free_of_weaken cs cs' s :
  (forall c, In c cs' -> In c cs) -> free_of cs s = true -> free_of cs' s = true.
Proof.
  intros Hsub. unfold free_of. rewrite !forallb_forall. intros H x Hx.
  specialize (H x Hx). apply negb_true_iff in H. apply negb_true_iff.
  destruct (existsb (char_eqb x) cs') eqn:He; auto.
  apply existsb_exists in He as (c & Hc & Hxc).
  assert (Hex : existsb (char_eqb x) cs = true)
    by (apply existsb_exists; exists c; auto).
  congruence.
Qed.

(* ===================================================================== *)
(** * Where the patterns of the sanitizer cannot match *)
(* ===================================================================== *)

Section NoMatchFacts.

Variable multiline : bool.
Variable input : jstring.

Lemma char_eqb_sym a b : char_eqb a b = char_eqb b a.
Proof. apply N.eqb_sym. Qed.

Lemma head_not_in_skipn cs i s :
  free_of cs s = true -> head_not_in cs (skipn i s).
Proof.
  intros H. apply (free_of_skipn _ i) in H.
  destruct (skipn i s) as [|c tl]; simpl; auto.
  simpl in H. apply andb_prop in H as [H _]. now apply negb_true_iff in H.
Qed.

Lemma re_escaped_no_match s :
  head_not_in [ch "\"] s -> no_match multiline input re_escaped s.
Proof.
  intros H st. unfold match_here, re_escaped. cbn [m]. unfold step_if. cbn [rest].
  destruct s as [|c tl]; [discriminate|].
  cbn [head_not_in existsb] in H. apply orb_false_elim in H as [H _].
  rewrite char_eqb_sym, H. discriminate.
Qed.

Lemma re_link_no_match s :
  head_not_in [ch "["] s -> no_match multiline input re_link s.
Proof.
  intros H st. unfold match_here, re_link. cbn [m Seq]. unfold step_if. cbn [rest].
  destruct s as [|c tl]; [discriminate|].
  cbn [head_not_in existsb] in H. apply orb_false_elim in H as [H _].
  rewrite char_eqb_sym, H. discriminate.
Qed.

Lemma re_emphasis_no_match s :
  head_not_in [ch "`"; ch "*"; ch "_"] s -> no_match multiline input re_emphasis s.
Proof.
  intros H st. unfold match_here, re_emphasis. cbn [m Seq].
  cbn [rest Nat.add rep_loop option_map]. cbn [m]. unfold step_if. cbn [rest].
  destruct s as [|c tl]; [discriminate|].
  cbn [head_not_in existsb] in H. apply orb_false_elim in H as [H1 H].
  apply orb_false_elim in H as [H2 H]. apply orb_false_elim in H as [H3 _].
  rewrite (char_eqb_sym _ c), H1, (char_eqb_sym _ c), H2, (char_eqb_sym _ c), H3.
  discriminate.
Qed.

End NoMatchFacts.

(** Inside the input a position is no start of the input. *)
Lemma at_bol_inside pre s cs :
  pre <> [] -> at_bol false (pre ++ s) (MState s cs) = false.
Proof.
  intros Hpre. unfold at_bol, prev_char. cbn [rest].
  replace (List.length (pre ++ s) - List.length s) with (List.length pre)
    by lengths_lia.
  destruct pre as [|a pre]; [congruence|]. cbn [List.length].
  destruct (nth_error ((a :: pre) ++ s) (List.length pre)) as [x|] eqn:Hn;
    [reflexivity|].
  apply nth_error_None in Hn. exfalso. revert Hn. lengths_lia.
Qed.

Lemma re_html_no_match input s :
  tag_start (at_bol false input (MState s [])) s = false ->
  no_match false input re_html s.
Proof.
  intros H st. unfold match_here, re_html. cbn [m Seq].
  destruct s as [|a tl].
  - destruct (at_bol false input (MState [] [])); cbn; discriminate.
  - unfold tag_start in H. apply orb_false_elim in H as [H1 H2].
    unfold step_if. cbn [rest caps].
    assert (Hsecond :
              xorb true (existsb (char_eqb a) [ch ">"; ch "<"; ch "`"; ch "\"]) = true ->
              match tl with b :: _ => char_eqb (ch "<") b = false | [] => True end).
    { intros Hx. unfold tag_guards in H2.
      destruct (existsb (char_eqb a) [ch ">"; ch "<"; ch "`"; ch "\"]);
        [discriminate|].
      destruct tl as [|b tl']; [exact I|]. now rewrite char_eqb_sym. }
    destruct (xorb true (existsb (char_eqb a) [ch ">"; ch "<"; ch "`"; ch "\"]));
      [specialize (Hsecond eq_refl)|clear Hsecond].
    + destruct tl as [|b tl'].
      * destruct (at_bol false input (MState [a] [])); cbn [andb] in H1.
        -- rewrite (char_eqb_sym (ch "<") a), H1. discriminate.
        -- discriminate.
      * rewrite Hsecond.
        destruct (at_bol false input (MState (a :: b :: tl') [])); cbn [andb] in H1.
        -- rewrite (char_eqb_sym (ch "<") a), H1. discriminate.
        -- discriminate.
    + destruct (at_bol false input (MState (a :: tl) [])); cbn [andb] in H1.
      * rewrite (char_eqb_sym (ch "<") a), H1. discriminate.
      * discriminate.
Qed.

Lemma guarded_skipn i s : guarded s = true -> guarded (skipn i s) = true.
Proof.
  revert s; induction i as [|i IH]; intros s H; [exact H|].
  destruct s as [|a [|b s]]; try reflexivity.
  - simpl. now destruct i.
  - apply IH. cbn [guarded] in H. now apply andb_prop in H as [_ H].
Qed.

Lemma guarded_no_tag_start s : guarded s = true -> tag_start false s = false.
Proof.
  destruct s as [|a [|b s]]; [reflexivity| |].
  - intros _. cbn [tag_start andb orb]. apply andb_false_r.
  - cbn [guarded tag_start andb orb]. intros H. apply andb_prop in H as [H _].
    destruct (char_eqb b (ch "<")), (existsb (char_eqb a) tag_guards);
      try reflexivity; discriminate.
Qed.

Lemma tag_start_nowhere s i :
  head_not_in [ch "<"] s -> guarded s = true -> i <= List.length s ->
  tag_start (at_bol false s (MState (skipn i s) [])) (skipn i s) = false.
Proof.
  intros Hhead Hg Hi. destruct i as [|i].
  - cbn [skipn]. pose proof (guarded_no_tag_start s Hg) as Hs.
    destruct s as [|a tl]; [reflexivity|].
    unfold tag_start in *. cbn [andb orb] in Hs. rewrite Hs.
    cbn [head_not_in existsb] in Hhead. apply orb_false_elim in Hhead as [Hhead _].
    rewrite Hhead. now rewrite andb_false_r.
  - rewrite <- (firstn_skipn (S i) s) at 1.
    rewrite at_bol_inside.
    + apply guarded_no_tag_start. now apply guarded_skipn.
    + destruct s; [simpl in Hi; lia|discriminate].
Qed.

(** X14: [removeNonCodeWrappedHTML] leaves a text as it is if the text
    does not start with [<] and every [<] in it comes right after a
    backtick, a backslash, [<] or [>]: a tag after a backtick is kept
    whatever follows it. *)
Theorem removeNonCodeWrappedHTML_keeps_guarded (s : jstring) :
  head_not_in [ch "<"] s -> guarded s = true ->
  removeNonCodeWrappedHTML s = s.
Proof.
  intros Hhead Hg. unfold removeNonCodeWrappedHTML, regex_replace.
  apply replace_loop_nowhere. intros i Hi.
  apply re_html_no_match. now apply tag_start_nowhere.
Qed.

Lemma removeNonCodeWrappedHTML_keeps_guarded_witness :
  removeNonCodeWrappedHTML (js "use `<a> here and a\<b>") = js "use `<a> here and a\<b>".
Proof.
  apply removeNonCodeWrappedHTML_keeps_guarded; vm_compute; reflexivity.
Defined.

Section PlainFacts.

Lemma free_of_In cs s c : free_of cs s = true -> In c cs -> ~ In c s.
Proof.
  unfold free_of. rewrite forallb_forall. intros H Hc Hs.
  specialize (H c Hs). apply negb_true_iff in H.
  assert (Hex : existsb (char_eqb c) cs = true).
  { apply existsb_exists. exists c. split; auto. apply N.eqb_refl. }
  congruence.
Qed.

Lemma replace_nowhere_by_head multiline r t cs s :
  (forall input s', head_not_in cs s' -> no_match multiline input r s') ->
  free_of cs s = true ->
  regex_replace multiline r t s = s.
Proof.
  intros Hr Hs. unfold regex_replace. apply replace_loop_nowhere.
  intros i _. apply Hr. now apply head_not_in_skipn.
Qed.

Lemma link_pass_plain t s :
  free_of [ch "["] s = true -> regex_replace false re_link t s = s.
Proof.
  apply replace_nowhere_by_head. intros input s'. apply re_link_no_match.
Qed.

Lemma emphasis_pass_plain t s :
  free_of [ch "`"; ch "*"; ch "_"] s = true ->
  regex_replace false re_emphasis t s = s.
Proof.
  apply replace_nowhere_by_head. intros input s'. apply re_emphasis_no_match.
Qed.

Lemma escaped_pass_plain t s :
  free_of [ch "\"] s = true -> regex_replace false re_escaped t s = s.
Proof.
  apply replace_nowhere_by_head. intros input s'. apply re_escaped_no_match.
Qed.

Lemma md_marks_cases s :
  free_of md_marks s = true ->
  free_of [ch "["] s = true /\
  free_of [ch "`"; ch "*"; ch "_"] s = true /\
  free_of [ch "\"] s = true.
Proof.
  intros H. repeat split; revert H; apply free_of_weaken;
    unfold md_marks; simpl; tauto.
Qed.

Lemma guarded_without_lt s : free_of [ch "<"] s = true -> guarded s = true.
Proof.
  induction s as [|a s IH]; [reflexivity|].
  intros H. destruct s as [|b s]; [reflexivity|].
  change (guarded (a :: b :: s))
    with ((negb (char_eqb b (ch "<")) || existsb (char_eqb a) tag_guards)
          && guarded (b :: s)).
  cbn [free_of forallb] in H. apply andb_prop in H as [_ H].
  rewrite IH by exact H.
  cbn [forallb existsb] in H. apply andb_prop in H as [H _].
  rewrite orb_false_r in H. now rewrite H.
Qed.

End PlainFacts.

(** X15: a text with none of the code units [[], backtick, [*], [_] and
    backslash passes [removeMarkdownTokens] unchanged. *)
Theorem removeMarkdownTokens_keeps_plain (s : jstring) :
  free_of md_marks s = true -> removeMarkdownTokens s = s.
Proof.
  intros H. apply md_marks_cases in H as (Hlink & Hemph & Hesc).
  unfold removeMarkdownTokens.
  rewrite link_pass_plain by exact Hlink.
  rewrite emphasis_pass_plain by exact Hemph.
  now apply escaped_pass_plain.
Qed.

Lemma removeMarkdownTokens_keeps_plain_witness :
  removeMarkdownTokens (js "Getting started (v2): a < b") = js "Getting started (v2): a < b".
Proof. apply removeMarkdownTokens_keeps_plain. vm_compute; reflexivity. Defined.

(** X16: on a text without markup (no ampersand, [<], [[], backtick,
    [*], [_], backslash) the shallow and the deep sanitizer only trim;
    so a frontmatter title that is such a text gives, trimmed, the title
    of the page. *)
Theorem sanitizer_trims_plain (s : jstring) (fm : obj) (body : jstring) :
  free_of markup s = true ->
  parseHeader s = trim s /\
  deeplyParseHeader s = trim s /\
  (truthy (obj_get (js "home") fm) = false ->
   obj_get (js "title") fm = VStr s -> s <> [] ->
   inferTitle fm body = Ok (trim s)).
Proof.
  intros H.
  assert (Hamp : ~ In (ch "&") s)
    by (apply (@free_of_In markup s _ H); unfold markup; simpl; tauto).
  assert (Hlt : free_of [ch "<"] s = true)
    by (revert H; apply free_of_weaken; unfold markup; simpl; tauto).
  assert (Hmd : free_of md_marks s = true)
    by (revert H; apply free_of_weaken; unfold markup; simpl; tauto).
  apply md_marks_cases in Hmd as (Hlink & Hemph & Hesc).
  assert (Hp : parseHeader s = trim s).
  { rewrite parseHeader_unfold. unfold unescapeHtml.
    rewrite (@replace_all_absent (js "&quot;") _ s) by now apply occursb_without_head.
    rewrite (@replace_all_absent (js "&#39;") _ s) by now apply occursb_without_head.
    rewrite (@replace_all_absent (js "&#x3A;") _ s) by now apply occursb_without_head.
    rewrite (@replace_all_absent (js "&lt;") _ s) by now apply occursb_without_head.
    rewrite (@replace_all_absent (js "&gt;") _ s) by now apply occursb_without_head.
    unfold removeMarkdownTokens.
    rewrite link_pass_plain by exact Hlink.
    rewrite emphasis_pass_plain by exact Hemph.
    now rewrite escaped_pass_plain. }
  assert (Hd : deeplyParseHeader s = trim s).
  { rewrite deeplyParseHeader_unfold.
    replace (removeNonCodeWrappedHTML s) with s; [exact Hp|].
    symmetry. unfold removeNonCodeWrappedHTML, regex_replace.
    apply replace_loop_nowhere. intros i Hi. apply re_html_no_match.
    apply tag_start_nowhere; auto.
    - apply (@head_not_in_skipn [ch "<"] 0 s Hlt).
    - now apply guarded_without_lt. }
  repeat split; auto.
  intros Hhome Htitle Hne. unfold inferTitle. rewrite Hhome, Htitle.
  destruct s; [congruence|]. cbn [truthy to_string]. now rewrite Hd.
Qed.

Lemma sanitizer_trims_plain_witness :
  parseHeader (js "  Getting started  ") = trim (js "  Getting started  ") /\
  deeplyParseHeader (js "  Getting started  ") = trim (js "  Getting started  ") /\
  inferTitle [(js "title", VStr (js "  Getting started  "))] (js "# Other")
    = Ok (trim (js "  Getting started  ")).
Proof.
  destruct (@sanitizer_trims_plain (js "  Getting started  ")
              [(js "title", VStr (js "  Getting started  "))] (js "# Other"))
    as (H1 & H2 & H3); [vm_compute; reflexivity|].
  split; [exact H1|split; [exact H2|]].
  apply H3; [reflexivity|reflexivity|discriminate].
Defined.

(* ===================================================================== *)
(** * More on repetitions *)
(* ===================================================================== *)

Section RepetitionFacts.

Variable mr : mstate -> (mstate -> outcome) -> outcome.
Variable ok : char -> bool.
Hypothesis mr_step : forall st k, mr st k = step_if ok st k.

(** A repetition fails if the rest of the pattern fails wherever the
    repetition can stop. *)
Lemma rep_loop_fails greedy k cs :
  forall s fuel,
    List.length s < fuel ->
    (forall i, k (MState (skipn i s) cs) = Failed) ->
    rep_loop mr greedy k fuel 0 None (MState s cs) = Failed.
Proof.
  induction s as [|c s IH]; intros fuel Hfuel Hk;
    (destruct fuel as [|fuel]; [simpl in Hfuel; lia|]); cbn [rep_loop option_map].
  - rewrite mr_step. unfold step_if. cbn [rest].
    specialize (Hk 0). cbn [skipn] in Hk. rewrite Hk. now destruct greedy.
  - rewrite mr_step. unfold step_if. cbn [rest caps].
    pose proof (Hk 0) as Hk0. cbn [skipn] in Hk0. rewrite Hk0.
    destruct (ok c).
    + destruct (Nat.eqb_spec (List.length s) (List.length (c :: s)));
        [simpl in *; lia|].
      rewrite IH; [now destruct greedy|simpl in Hfuel; lia|].
      intros i. apply (Hk (S i)).
    + now destruct greedy.
Qed.

(** A lazy repetition stops at the first place from which the rest of
    the pattern matches. *)
Lemma rep_loop_lazy_run k :
  forall seg tail cs fuel x,
    forallb ok seg = true ->
    List.length seg < fuel ->
    (forall i, i < List.length seg -> k (MState (skipn i seg ++ tail) cs) = Failed) ->
    k (MState tail cs) = Matched x ->
    rep_loop mr false k fuel 0 None (MState (seg ++ tail) cs) = Matched x.
Proof.
  induction seg as [|c seg IH]; intros tail cs fuel x Hseg Hfuel Hfail Hk;
    (destruct fuel as [|fuel]; [simpl in Hfuel; lia|]); cbn [rep_loop option_map].
  - cbn [app]. now rewrite Hk.
  - pose proof (Hfail 0 ltac:(simpl; lia)) as H0. cbn [skipn] in H0. rewrite H0.
    rewrite mr_step. unfold step_if. cbn [rest caps app].
    simpl in Hseg. apply andb_prop in Hseg as [Hc Hseg]. rewrite Hc.
    destruct (Nat.eqb_spec (List.length (seg ++ tail)) (List.length (c :: seg ++ tail)));
      [simpl in *; lia|].
    apply IH; auto; [simpl in Hfuel; lia|].
    intros i Hi. apply (Hfail (S i)). simpl; lia.
Qed.

(** A greedy repetition gives back what it took until the rest of the
    pattern matches. *)
Lemma rep_loop_star_backtrack k :
  forall seg1 seg2 cs fuel x,
    forallb ok (seg1 ++ seg2) = true ->
    List.length (seg1 ++ seg2) < fuel ->
    (forall i, k (MState (skipn (S i) seg2) cs) = Failed) ->
    k (MState seg2 cs) = Matched x ->
    rep_loop mr true k fuel 0 None (MState (seg1 ++ seg2) cs) = Matched x.
Proof.
  induction seg1 as [|c seg1 IH]; intros seg2 cs fuel x Hok Hfuel Hfail Hk;
    (destruct fuel as [|fuel]; [simpl in Hfuel; lia|]); cbn [rep_loop option_map app].
  - rewrite mr_step. unfold step_if. cbn [rest caps].
    destruct seg2 as [|c seg2]; [now rewrite Hk|].
    simpl in Hok. apply andb_prop in Hok as [Hc Hok]. rewrite Hc.
    destruct (Nat.eqb_spec (List.length seg2) (List.length (c :: seg2)));
      [simpl in *; lia|].
    rewrite rep_loop_fails; [now rewrite Hk|simpl in Hfuel; lia|].
    intros i. apply (Hfail i).
  - rewrite mr_step. unfold step_if. cbn [rest caps].
    simpl in Hok. apply andb_prop in Hok as [Hc Hok]. rewrite Hc.
    destruct (Nat.eqb_spec (List.length (seg1 ++ seg2))
                (List.length (c :: seg1 ++ seg2))); [simpl in *; lia|].
    rewrite (IH seg2 cs fuel x); auto. simpl in Hfuel; lia.
Qed.

(** A greedy repetition with an upper bound takes a run of code units
    of its class that ends at the bound or where the class ends. *)
Lemma rep_loop_bounded_run k :
  forall seg tail cs fuel lo h x,
    forallb ok seg = true ->
    lo <= List.length seg -> List.length seg <= h ->
    List.length seg = h \/ stops ok tail ->
    List.length seg < fuel ->
    k (MState tail cs) = Matched x ->
    rep_loop mr true k fuel lo (Some h) (MState (seg ++ tail) cs) = Matched x.
Proof.
  induction seg as [|c seg IH]; intros tail cs fuel lo h x Hok Hlo Hh Hend Hfuel Hk;
    (destruct fuel as [|fuel]; [simpl in Hfuel; lia|]); cbn [rep_loop option_map app].
  - destruct h as [|h]; [exact Hk|].
    destruct lo as [|lo]; [|simpl in Hlo; lia].
    rewrite mr_step. unfold step_if. cbn [rest].
    destruct Hend as [Hend|Hend]; [simpl in Hend; lia|].
    destruct tail as [|a tl]; [now rewrite Hk|].
    simpl in Hend. rewrite Hend. now rewrite Hk.
  - destruct h as [|h]; [simpl in Hh; lia|].
    simpl in Hok. apply andb_prop in Hok as [Hc Hok].
    assert (Hend' : List.length seg = h \/ stops ok tail)
      by (destruct Hend as [Hend|Hend]; [left; simpl in Hend; lia|now right]).
    cbn [Nat.pred].
    destruct lo as [|lo]; rewrite mr_step; unfold step_if; cbn [rest caps];
      rewrite Hc.
    + destruct (Nat.eqb_spec (List.length (seg ++ tail))
                  (List.length (c :: seg ++ tail))); [simpl in *; lia|].
      rewrite (IH tail cs fuel 0 h x); auto; simpl in *; lia.
    + apply IH; auto; simpl in *; lia.
Qed.

End RepetitionFacts.

(* ===================================================================== *)
(** * Pairs of delimiters *)
(* ===================================================================== *)

Section EmphasisFacts.

Variable multiline : bool.
Variable input : jstring.

Lemma prefixb_refl_app d post : prefixb d (d ++ post) = true.
Proof.
  induction d as [|a d IH]; simpl; auto. unfold char_eqb. now rewrite N.eqb_refl.
Qed.

Lemma prefixb_head_mismatch dc d s :
  head_not_in [dc] s -> prefixb (dc :: d) s = false.
Proof.
  destruct s as [|c s]; [reflexivity|]. cbn [head_not_in existsb prefixb].
  intros H. apply orb_false_elim in H as [H _].
  now rewrite char_eqb_sym, H.
Qed.

Lemma head_not_in_app cs s tl :
  s <> [] -> free_of cs s = true -> head_not_in cs (s ++ tl).
Proof.
  destruct s as [|c s]; [congruence|]. intros _ H.
  cbn [app head_not_in]. cbn [free_of forallb] in H.
  apply andb_prop in H as [H _]. now apply negb_true_iff in H.
Qed.

Lemma emphasis_body dc d t post :
  t <> [] -> free_of [dc; ch "\"] t = true -> no_line_end t ->
  m multiline input (Grp 2 (Cat (LazyStar Dot) (Cls true [ch "\"])))
    (MState (t ++ (dc :: d) ++ post) [(1, dc :: d)])
    (fun st2 => m multiline input (Ref 1) st2 Matched)
  = Matched (MState post [(2, t); (1, dc :: d)]).
Proof.
  intros Ht Hfree Hline.
  destruct (exists_last Ht) as (t0 & e & ->).
  unfold LazyStar. cbn [m].
  rewrite <- (app_assoc t0 [e]). cbn [app rest].
  unfold no_line_end in Hline. rewrite forallb_app in Hline.
  apply andb_prop in Hline as [Hline0 _].
  rewrite free_of_app in Hfree. apply andb_prop in Hfree as [Hfree0 Hfreee].
  apply rep_loop_lazy_run with (ok := fun a => negb (is_line_terminator a)).
  - reflexivity.
  - exact Hline0.
  - lengths_lia.
  - intros i Hi.
    destruct (skipn i t0) as [|h tl0] eqn:Hskip.
    { apply (f_equal (@List.length _)) in Hskip. rewrite length_skipn in Hskip.
      simpl in Hskip. lia. }
    unfold step_if. cbn [rest caps app get_cap Nat.eqb].
    destruct (xorb true (existsb (char_eqb h) [ch "\"])); [|reflexivity].
    rewrite prefixb_head_mismatch; [reflexivity|].
    assert (Hsuf : free_of [dc; ch "\"] (tl0 ++ [e]) = true).
    { rewrite free_of_app, Hfreee, andb_true_r.
      apply (free_of_skipn _ (S i)) in Hfree0.
      replace (skipn (S i) t0) with tl0 in Hfree0; auto.
      rewrite <- (Nat.add_1_l i), <- skipn_skipn, Hskip. reflexivity. }
    replace (tl0 ++ e :: dc :: d ++ post) with ((tl0 ++ [e]) ++ dc :: d ++ post)
      by (now rewrite <- app_assoc).
    apply head_not_in_app; [destruct tl0; discriminate|].
    revert Hsuf. apply free_of_weaken. simpl. tauto.
  - unfold step_if. cbn [rest caps app get_cap Nat.eqb].
    cbn [free_of forallb existsb] in Hfreee.
    apply andb_prop in Hfreee as [He _]. apply negb_true_iff in He.
    apply orb_false_elim in He as [_ He]. rewrite orb_false_r in He.
    cbn [existsb]. rewrite He. cbn [orb xorb].
    change (dc :: d ++ post) with ((dc :: d) ++ post).
    rewrite prefixb_refl_app, skipn_app, skipn_all, Nat.sub_diag. cbn [skipn app].
    unfold consumed. cbn [rest].
    replace (t0 ++ e :: dc :: d ++ post) with ((t0 ++ [e]) ++ (dc :: d ++ post))
      by (now rewrite <- app_assoc).
    now rewrite (firstn_consumed (t0 ++ [e]) (dc :: d ++ post)).
Qed.

Lemma m_Cat r1 r2 st k :
  m multiline input (Cat r1 r2) st k
  = m multiline input r1 st (fun st' => m multiline input r2 st' k).
Proof. reflexivity. Qed.

Lemma m_Grp i r st k :
  m multiline input (Grp i r) st k
  = m multiline input r st
      (fun st' => k (MState (rest st') ((i, consumed st st') :: caps st'))).
Proof. reflexivity. Qed.

Lemma m_Alt r1 r2 st k :
  m multiline input (Alt r1 r2) st k
  = match m multiline input r1 st k with
    | Failed => m multiline input r2 st k
    | o => o
    end.
Proof. reflexivity. Qed.

Lemma m_Chr_head c a tl cs k :
  m multiline input (Chr c) (MState (a :: tl) cs) k
  = if char_eqb c a then k (MState tl cs) else Failed.
Proof. reflexivity. Qed.

(** The opening delimiter: the first group of the second pattern. *)
Lemma delimiter_match d tl k x :
  In d delimiters -> head_not_in [ch "*"] tl ->
  k (MState tl []) = Matched x ->
  m multiline input
    (Alt (Chr (ch "`")) (Alt (Rep 1 (Some 3) true (Chr (ch "*"))) (Chr (ch "_"))))
    (MState (d ++ tl) []) k
  = Matched x.
Proof.
  intros Hd Htl Hk.
  assert (Hstop : stops (char_eqb (ch "*")) tl).
  { destruct tl as [|c tl']; [exact I|]. cbn [head_not_in existsb] in Htl.
    apply orb_false_elim in Htl as [Htl _]. unfold stops.
    rewrite char_eqb_sym. exact Htl. }
  assert (Hstars : forall seg,
             seg = js "*" \/ seg = js "**" \/ seg = js "***" ->
             m multiline input (Rep 1 (Some 3) true (Chr (ch "*")))
               (MState (seg ++ tl) []) k = Matched x).
  { intros seg Hseg. cbn [m rest].
    assert (Hlen : 1 <= List.length seg <= 3 /\
                   (List.length seg = 3 \/ stops (char_eqb (ch "*")) tl) /\
                   forallb (char_eqb (ch "*")) seg = true).
    { destruct Hseg as [-> | [-> | ->]]; cbn [List.length js];
        repeat split; auto; lia. }
    destruct Hlen as ((H1 & H3) & Hend & Hok).
    apply rep_loop_bounded_run with (ok := char_eqb (ch "*")); auto.
    lengths_lia. }
  unfold delimiters in Hd.
  destruct Hd as [<-|[<-|[<-|[<-|[<-|[]]]]]].
  - rewrite m_Alt. cbn [js app]. rewrite m_Chr_head.
    change (char_eqb (ch "`") (N_of_ascii "`")) with true. cbv iota.
    now rewrite Hk.
  - rewrite !m_Alt. rewrite (Hstars (js "*")) by auto.
    cbn [js app]. rewrite m_Chr_head. reflexivity.
  - rewrite !m_Alt. rewrite (Hstars (js "**")) by auto.
    cbn [js app]. rewrite m_Chr_head. reflexivity.
  - rewrite !m_Alt. rewrite (Hstars (js "***")) by auto.
    cbn [js app]. rewrite m_Chr_head. reflexivity.
  - rewrite !m_Alt. cbn [js app]. rewrite !m_Chr_head.
    change (char_eqb (ch "`") (N_of_ascii "_")) with false.
    change (char_eqb (ch "_") (N_of_ascii "_")) with true.
    cbv iota. rewrite Hk.
    cbn [m rest Nat.add rep_loop option_map]. unfold step_if. cbn [rest].
    change (char_eqb (ch "*") (N_of_ascii "_")) with false. reflexivity.
Qed.

(** The second pattern of [removeMarkdownTokens] on a delimited text. *)
Lemma emphasis_match d t post :
  In d delimiters ->
  t <> [] -> free_of [ch "`"; ch "*"; ch "_"; ch "\"] t = true -> no_line_end t ->
  match_here multiline input re_emphasis (d ++ t ++ d ++ post)
  = Matched (MState post [(2, t); (1, d)]).
Proof.
  intros Hd Ht Hfree Hline.
  assert (Hdc : exists dc d', d = dc :: d' /\ In dc [ch "`"; ch "*"; ch "_"]).
  { unfold delimiters in Hd.
    destruct Hd as [<-|[<-|[<-|[<-|[<-|[]]]]]]; eexists; eexists;
      (split; [reflexivity|simpl; tauto]). }
  destruct Hdc as (dc & d' & Hdd & Hdc).
  unfold match_here, re_emphasis.
  change (Seq [?g1; ?g2; ?g3]) with (Cat g1 (Cat g2 g3)).
  rewrite m_Cat, m_Grp.
  apply delimiter_match; auto.
  - apply head_not_in_app; [exact Ht|]. revert Hfree. apply free_of_weaken.
    simpl. tauto.
  - cbn [rest caps]. unfold consumed. cbn [rest].
    rewrite firstn_consumed. rewrite m_Cat. subst d.
    apply emphasis_body; [exact Ht| |exact Hline].
    revert Hfree. apply free_of_weaken.
    intros c [<-|[<-|[]]]; simpl in *; intuition.
Qed.

End EmphasisFacts.

Section OneMatch.

Lemma head_not_in_inside cs pre tl i :
  free_of cs pre = true -> i < List.length pre ->
  head_not_in cs (skipn i (pre ++ tl)).
Proof.
  intros Hpre Hi. rewrite skipn_app.
  replace (i - List.length pre) with 0 by lia. cbn [skipn].
  apply head_not_in_app.
  - intros Hs. apply (f_equal (@List.length _)) in Hs.
    rewrite length_skipn in Hs. simpl in Hs. lia.
  - now apply free_of_skipn.
Qed.

(** One match between two texts in which the pattern cannot start. *)
Lemma regex_replace_one multiline r tpl cs pre mtext post st :
  (forall input s', head_not_in cs s' -> no_match multiline input r s') ->
  free_of cs pre = true -> free_of cs post = true ->
  mtext <> [] ->
  (forall input, match_here multiline input r (mtext ++ post) = Matched st) ->
  rest st = post ->
  regex_replace multiline r tpl (pre ++ mtext ++ post)
  = pre ++ expand tpl (caps st) ++ post.
Proof.
  intros Hr Hpre Hpost Hm Hmatch Hrest. unfold regex_replace.
  rewrite replace_loop_prefix
    by (intros i Hi; apply Hr; now apply head_not_in_inside).
  rewrite (@replace_loop_match _ _ _ _ mtext post st) by auto.
  rewrite replace_loop_nowhere; [reflexivity|].
  intros i _. apply Hr. now apply head_not_in_skipn.
Qed.

End OneMatch.

Lemma delimiters_free d :
  In d delimiters -> d <> [] /\ free_of [ch "["; ch "\"] d = true.
Proof.
  unfold delimiters. intros [<-|[<-|[<-|[<-|[<-|[]]]]]]; split;
    try discriminate; reflexivity.
Qed.

(** X17: around a one-line text without marks, [removeMarkdownTokens]
    takes a pair of delimiters away and keeps the text.  The delimiters are
    a backtick, one to three [*], or [_]; the texts before and after the
    pair hold no marks. *)
Theorem removeMarkdownTokens_strips_pair (pre d t post : jstring) :
  In d delimiters ->
  free_of md_marks pre = true -> free_of md_marks post = true ->
  t <> [] -> free_of md_marks t = true -> no_line_end t ->
  removeMarkdownTokens (pre ++ d ++ t ++ d ++ post) = pre ++ t ++ post.
Proof.
  intros Hd Hpre Hpost Ht Hfree Hline.
  destruct (@delimiters_free d Hd) as [Hdne Hdfree].
  apply md_marks_cases in Hpre as (Hpre1 & Hpre2 & Hpre3).
  apply md_marks_cases in Hpost as (Hpost1 & Hpost2 & Hpost3).
  pose proof (@md_marks_cases t Hfree) as (Ht1 & Ht2 & Ht3).
  unfold removeMarkdownTokens.
  rewrite link_pass_plain.
  2:{ rewrite !free_of_app, Hpre1, Ht1, Hpost1. cbn [andb].
      assert (Hd1 : free_of [ch "["] d = true)
        by (revert Hdfree; apply free_of_weaken; simpl; tauto).
      now rewrite Hd1. }
  replace (pre ++ d ++ t ++ d ++ post) with (pre ++ (d ++ t ++ d) ++ post)
    by (now rewrite <- !app_assoc).
  rewrite (@regex_replace_one false re_emphasis [Cap 2] [ch "`"; ch "*"; ch "_"]
             pre (d ++ t ++ d) post (MState post [(2, t); (1, d)])); auto.
  - cbn [expand get_cap caps Nat.eqb]. rewrite app_nil_r.
    apply escaped_pass_plain. now rewrite !free_of_app, Hpre3, Ht3, Hpost3.
  - intros input s'. apply re_emphasis_no_match.
  - destruct d; [congruence|discriminate].
  - intros input. rewrite <- !app_assoc. apply emphasis_match; auto.
    revert Hfree. apply free_of_weaken. unfold md_marks. simpl. tauto.
Qed.

Lemma removeMarkdownTokens_strips_pair_witness :
  removeMarkdownTokens (js "The " ++ js "**" ++ js "compile" ++ js "**" ++ js " step")
  = js "The " ++ js "compile" ++ js " step".
Proof.
  apply removeMarkdownTokens_strips_pair; try (vm_compute; reflexivity).
  - vm_compute. tauto.
  - discriminate.
Defined.

(* ===================================================================== *)
(** * Links *)
(* ===================================================================== *)

Section LinkFacts.

Variable multiline : bool.
Variable input : jstring.

Lemma m_Rep lo hi greedy r st k :
  m multiline input (Rep lo hi greedy r) st k
  = rep_loop (m multiline input r) greedy k (lo + List.length (rest st) + 1) lo hi st.
Proof. reflexivity. Qed.

Lemma m_Dot_head a tl cs k :
  m multiline input Dot (MState (a :: tl) cs) k
  = if negb (is_line_terminator a) then k (MState tl cs) else Failed.
Proof. reflexivity. Qed.

Lemma consumed_app x tl c1 c2 : consumed (MState (x ++ tl) c1) (MState tl c2) = x.
Proof. unfold consumed. cbn [rest]. apply firstn_consumed. Qed.

(** [.[^s]+] in front of [s]: one code unit of the line, then all up to
    the next [s]. *)
Lemma dot_plus_match stop a c seg tl cs k x :
  is_line_terminator a = false ->
  free_of [stop] (c :: seg) = true ->
  k (MState (stop :: tl) cs) = Matched x ->
  m multiline input (Cat Dot (Plus (Cls true [stop])))
    (MState (a :: (c :: seg) ++ stop :: tl) cs) k
  = Matched x.
Proof.
  intros Ha Hseg Hk. rewrite m_Cat, m_Dot_head, Ha. cbn [negb].
  unfold Plus. rewrite m_Rep.
  apply rep_loop_plus_run
    with (ok := fun a => xorb true (existsb (char_eqb a) [stop])); auto.
  - unfold stops. cbn [existsb]. unfold char_eqb. rewrite N.eqb_refl. reflexivity.
  - cbn [rest]. lengths_lia.
Qed.

Lemma link_match a c text b e url post :
  is_line_terminator a = false -> free_of [ch "]"] (c :: text) = true ->
  is_line_terminator b = false -> free_of [ch ")"] (e :: url) = true ->
  match_here multiline input re_link
    ((ch "[" :: (a :: c :: text) ++ ch "]" :: ch "(" :: (b :: e :: url) ++ [ch ")"])
     ++ post)
  = Matched (MState post
               [(1, ch "[" :: (a :: c :: text) ++ ch "]" :: ch "(" :: (b :: e :: url)
                      ++ [ch ")"]);
                (3, b :: e :: url); (2, a :: c :: text)]).
Proof.
  intros Ha Htext Hb Hurl. unfold match_here, re_link.
  change (Seq [?r1; ?r2; ?r3; ?r4; ?r5; ?r6])
    with (Cat r1 (Cat r2 (Cat r3 (Cat r4 (Cat r5 r6))))).
  set (whole := ch "[" :: (a :: c :: text) ++ ch "]" :: ch "(" :: (b :: e :: url)
                  ++ [ch ")"]).
  replace (whole ++ post)
    with (ch "[" :: a :: c :: text ++ ch "]" :: ch "(" :: b :: e :: url
            ++ ch ")" :: post)
    by (subst whole; cbn [app]; rewrite <- !app_assoc; cbn [app];
        rewrite <- !app_assoc; reflexivity).
  rewrite m_Grp, m_Cat. rewrite m_Chr_head.
  change (char_eqb (ch "[") (ch "[")) with true. cbv iota.
  rewrite m_Cat, m_Grp.
  eapply dot_plus_match; eauto.
  cbn [rest caps]. rewrite m_Cat, m_Chr_head.
  change (char_eqb (ch "]") (ch "]")) with true. cbv iota.
  rewrite m_Cat, m_Chr_head.
  change (char_eqb (ch "(") (ch "(")) with true. cbv iota.
  rewrite m_Cat, m_Grp.
  eapply dot_plus_match; eauto.
  cbn [rest caps]. rewrite m_Chr_head.
  change (char_eqb (ch ")") (ch ")")) with true. cbv iota.
  cbn [rest caps]. unfold consumed. cbn [rest].
  assert (Hcut : forall (x tl full : jstring),
             full = x ++ tl ->
             firstn (List.length full - List.length tl) full = x)
    by (intros x tl full ->; apply firstn_consumed).
  rewrite (Hcut whole post), (Hcut (b :: e :: url) (ch ")" :: post)),
    (Hcut (a :: c :: text)
       (ch "]" :: ch "(" :: b :: e :: url ++ ch ")" :: post));
    try reflexivity.
  subst whole. cbn [app]. rewrite <- !app_assoc. cbn [app].
  rewrite <- !app_assoc. reflexivity.
Qed.

(** A bracket around a single code unit opens no link. *)
Lemma link_single_no_match a tl :
  no_match multiline input re_link (ch "[" :: a :: ch "]" :: tl).
Proof.
  intros st. unfold match_here, re_link.
  change (Seq [?r1; ?r2; ?r3; ?r4; ?r5; ?r6])
    with (Cat r1 (Cat r2 (Cat r3 (Cat r4 (Cat r5 r6))))).
  rewrite m_Grp, m_Cat, m_Chr_head.
  change (char_eqb (ch "[") (ch "[")) with true. cbv iota.
  rewrite m_Cat, m_Grp, m_Cat, m_Dot_head.
  destruct (negb (is_line_terminator a)); [|discriminate].
  unfold Plus. rewrite m_Rep.
  cbn [rest List.length Nat.add rep_loop option_map]. cbn [m]. unfold step_if.
  cbn [rest existsb].
  change (char_eqb (ch "]") (ch "]")) with true. cbn [orb xorb]. discriminate.
Qed.

End LinkFacts.

(** X18: [removeMarkdownTokens] replaces a link by its text, if the text
    and the address are two code units or more, start on the line, and
    hold no [[]] resp. no [)]; the texts around the link and the text of
    the link hold no marks. *)
Theorem removeMarkdownTokens_strips_link (pre text url post : jstring) :
  free_of md_marks pre = true -> free_of md_marks post = true ->
  2 <= List.length text -> 2 <= List.length url ->
  free_of (ch "]" :: md_marks) text = true -> free_of [ch ")"] url = true ->
  no_line_end (firstn 1 text) -> no_line_end (firstn 1 url) ->
  removeMarkdownTokens
    (pre ++ (ch "[" :: text ++ ch "]" :: ch "(" :: url ++ [ch ")"]) ++ post)
  = pre ++ text ++ post.
Proof.
  intros Hpre Hpost Hlt Hlu Htext Hurl Hat Hau.
  destruct text as [|a [|c text]]; try (simpl in Hlt; lia).
  destruct url as [|b [|e url]]; try (simpl in Hlu; lia).
  assert (Ha : is_line_terminator a = false).
  { unfold no_line_end in Hat. cbn [firstn forallb] in Hat.
    rewrite andb_true_r in Hat. now apply negb_true_iff in Hat. }
  assert (Hb : is_line_terminator b = false).
  { unfold no_line_end in Hau. cbn [firstn forallb] in Hau.
    rewrite andb_true_r in Hau. now apply negb_true_iff in Hau. }
  assert (Htm : free_of md_marks (a :: c :: text) = true)
    by (revert Htext; apply free_of_weaken; simpl; tauto).
  assert (Htb : free_of [ch "]"] (c :: text) = true).
  { assert (H : free_of [ch "]"] (a :: c :: text) = true)
      by (revert Htext; apply free_of_weaken; simpl; tauto).
    cbn [free_of forallb] in H. now apply andb_prop in H as [_ H]. }
  assert (Hub : free_of [ch ")"] (e :: url) = true).
  { cbn [free_of forallb] in Hurl. now apply andb_prop in Hurl as [_ H]. }
  apply md_marks_cases in Hpre as (Hpre1 & Hpre2 & Hpre3).
  apply md_marks_cases in Hpost as (Hpost1 & Hpost2 & Hpost3).
  apply md_marks_cases in Htm as (Ht1 & Ht2 & Ht3).
  unfold removeMarkdownTokens.
  rewrite (@regex_replace_one false re_link [Cap 2] [ch "["] pre _ post
             (MState post
                [(1, ch "[" :: (a :: c :: text) ++ ch "]" :: ch "(" :: (b :: e :: url)
                       ++ [ch ")"]);
                 (3, b :: e :: url); (2, a :: c :: text)])); auto.
  - cbn [expand get_cap caps Nat.eqb]. rewrite app_nil_r.
    rewrite emphasis_pass_plain
      by (now rewrite !free_of_app, Hpre2, Ht2, Hpost2).
    apply escaped_pass_plain. now rewrite !free_of_app, Hpre3, Ht3, Hpost3.
  - intros input s'. apply re_link_no_match.
  - discriminate.
  - intros input. now apply link_match.
Qed.

Lemma removeMarkdownTokens_strips_link_witness :
  removeMarkdownTokens
    (js "See " ++ (ch "[" :: js "the guide" ++ ch "]" :: ch "(" :: js "/guide_v2/"
                     ++ [ch ")"]) ++ js " first")
  = js "See " ++ js "the guide" ++ js " first".
Proof.
  apply removeMarkdownTokens_strips_link; try (vm_compute; reflexivity);
    vm_compute; lia.
Defined.

(** X19: a bracket around a single code unit is no link text for
    [removeMarkdownTokens]: with no other marks around, the text stays
    as it is, whatever address follows. *)
Theorem removeMarkdownTokens_keeps_short_link (pre tl : jstring) (a : char) :
  free_of md_marks pre = true -> free_of md_marks (a :: ch "]" :: tl) = true ->
  removeMarkdownTokens (pre ++ ch "[" :: a :: ch "]" :: tl)
  = pre ++ ch "[" :: a :: ch "]" :: tl.
Proof.
  intros Hpre Htl.
  apply md_marks_cases in Hpre as (Hpre1 & Hpre2 & Hpre3).
  apply md_marks_cases in Htl as (Htl1 & Htl2 & Htl3).
  unfold removeMarkdownTokens.
  replace (regex_replace false re_link [Cap 2] (pre ++ ch "[" :: a :: ch "]" :: tl))
    with (pre ++ ch "[" :: a :: ch "]" :: tl).
  - rewrite emphasis_pass_plain.
    + apply escaped_pass_plain.
      rewrite free_of_app, Hpre3. cbn [andb].
      change (ch "[" :: a :: ch "]" :: tl) with ([ch "["] ++ a :: ch "]" :: tl).
      now rewrite free_of_app, Htl3.
    + rewrite free_of_app, Hpre2. cbn [andb].
      change (ch "[" :: a :: ch "]" :: tl) with ([ch "["] ++ a :: ch "]" :: tl).
      now rewrite free_of_app, Htl2.
  - symmetry. unfold regex_replace.
    rewrite replace_loop_prefix
      by (intros i Hi; apply re_link_no_match; now apply head_not_in_inside).
    rewrite replace_loop_copy by apply link_single_no_match.
    rewrite replace_loop_nowhere; [reflexivity|].
    intros i _. apply re_link_no_match. now apply head_not_in_skipn.
Qed.

Lemma removeMarkdownTokens_keeps_short_link_witness :
  removeMarkdownTokens (js "note [1](#fn1) here") = js "note [1](#fn1) here".
Proof.
  apply (@removeMarkdownTokens_keeps_short_link (js "note ") (js "(#fn1) here")
           (ch "1")); vm_compute; reflexivity.
Defined.

(* ===================================================================== *)
(** * Escaped marks *)
(* ===================================================================== *)

Section EscapeFacts.

Variable multiline : bool.
Variable input : jstring.

Lemma escaped_match c post :
  In c escapable ->
  match_here multiline input re_escaped (ch "\" :: c :: post)
  = Matched (MState post [(2, [c]); (1, [ch "\"])]).
Proof.
  intros Hc. unfold match_here, re_escaped.
  rewrite m_Cat, m_Grp, m_Chr_head.
  change (char_eqb (ch "\") (ch "\")) with true. cbv iota. cbn [rest caps].
  rewrite (@consumed_app [ch "\"] (c :: post)).
  rewrite m_Grp. rewrite !m_Alt, !m_Chr_head. cbn [rest caps].
  rewrite (@consumed_app [c] post).
  unfold escapable in Hc.
  destruct Hc as [<-|[<-|[<-|[<-|[<-|[<-|[]]]]]]]; reflexivity.
Qed.

(** A delimiter that is not closed opens no pair. *)
Lemma delimiter_fail c tl k :
  In c [ch "`"; ch "*"; ch "_"] -> head_not_in [ch "*"] tl ->
  k (MState tl []) = Failed ->
  m multiline input
    (Alt (Chr (ch "`")) (Alt (Rep 1 (Some 3) true (Chr (ch "*"))) (Chr (ch "_"))))
    (MState (c :: tl) []) k
  = Failed.
Proof.
  intros Hc Htl Hk.
  assert (Hstar : step_if (char_eqb (ch "*")) (MState tl [])
                    (fun st' =>
                       if Nat.eqb (List.length (rest st')) (List.length tl)
                       then Failed
                       else rep_loop (m multiline input (Chr (ch "*"))) true k
                              (List.length tl + 1) 0 (Some 1) st') = Failed).
  { unfold step_if. cbn [rest]. destruct tl as [|a tl']; [reflexivity|].
    cbn [head_not_in existsb] in Htl. apply orb_false_elim in Htl as [Htl _].
    now rewrite char_eqb_sym, Htl. }
  rewrite !m_Alt, !m_Chr_head, m_Rep.
  cbn [rest List.length Nat.add rep_loop option_map Nat.pred].
  cbn [m]. unfold step_if at 1. cbn [rest caps].
  destruct Hc as [<-|[<-|[<-|[]]]].
  - change (char_eqb (ch "`") (ch "`")) with true.
    change (char_eqb (ch "*") (ch "`")) with false.
    change (char_eqb (ch "_") (ch "`")) with false.
    cbv iota. now rewrite Hk.
  - change (char_eqb (ch "`") (ch "*")) with false.
    change (char_eqb (ch "*") (ch "*")) with true.
    change (char_eqb (ch "_") (ch "*")) with false.
    cbv iota. cbn [m] in Hstar. rewrite Hstar. now rewrite Hk.
  - change (char_eqb (ch "`") (ch "_")) with false.
    change (char_eqb (ch "*") (ch "_")) with false.
    change (char_eqb (ch "_") (ch "_")) with true.
    cbv iota. now rewrite Hk.
Qed.

Lemma emphasis_lone_no_match c post :
  In c [ch "`"; ch "*"; ch "_"] ->
  free_of [ch "`"; ch "*"; ch "_"] post = true ->
  no_match multiline input re_emphasis (c :: post).
Proof.
  intros Hc Hpost st. unfold match_here, re_emphasis.
  change (Seq [?g1; ?g2; ?g3]) with (Cat g1 (Cat g2 g3)).
  rewrite m_Cat, m_Grp, delimiter_fail; auto; [discriminate| |].
  - apply (@head_not_in_skipn [ch "*"] 0 post).
    revert Hpost. apply free_of_weaken. simpl. tauto.
  - cbn [rest caps]. rewrite (@consumed_app [c] post).
    rewrite m_Cat, m_Grp, m_Cat. unfold LazyStar. rewrite m_Rep.
    apply rep_loop_fails with (ok := fun a => negb (is_line_terminator a)).
    + reflexivity.
    + cbn [rest]. lia.
    + intros i. cbn [m]. unfold step_if. cbn [rest caps get_cap Nat.eqb].
      destruct (skipn i post) as [|h tl] eqn:Hs; [reflexivity|].
      destruct (xorb true (existsb (char_eqb h) [ch "\"])); [|reflexivity].
      rewrite prefixb_head_mismatch; [reflexivity|].
      assert (Hf : free_of [ch "`"; ch "*"; ch "_"] tl = true).
      { apply (free_of_skipn _ (S i)) in Hpost.
        replace (skipn (S i) post) with tl in Hpost; auto.
        rewrite <- (Nat.add_1_l i), <- skipn_skipn, Hs. reflexivity. }
      apply (@head_not_in_skipn [c] 0 tl).
      revert Hf. apply free_of_weaken. intros x [<-|[]]. exact Hc.
Qed.

End EscapeFacts.

(** X20: a backslash in front of an escapable mark is taken away by
    [removeMarkdownTokens] and the mark stays, when the text around them
    holds no marks: the mark is one of [*], [_], a backtick, [!], [<]
    and [$]. *)
Theorem removeMarkdownTokens_unescapes (pre post : jstring) (c : char) :
  In c escapable ->
  free_of md_marks pre = true -> free_of md_marks post = true ->
  removeMarkdownTokens (pre ++ ch "\" :: c :: post) = pre ++ c :: post.
Proof.
  intros Hc Hpre Hpost.
  apply md_marks_cases in Hpre as (Hpre1 & Hpre2 & Hpre3).
  apply md_marks_cases in Hpost as (Hpost1 & Hpost2 & Hpost3).
  assert (Hc1 : existsb (char_eqb c) [ch "["] = false).
  { unfold escapable in Hc.
    destruct Hc as [<-|[<-|[<-|[<-|[<-|[<-|[]]]]]]]; reflexivity. }
  unfold removeMarkdownTokens.
  rewrite link_pass_plain.
  2:{ rewrite free_of_app, Hpre1. cbn [andb free_of forallb].
      rewrite Hc1. exact Hpost1. }
  assert (Hem : regex_replace false re_emphasis [Cap 2] (pre ++ ch "\" :: c :: post)
                = pre ++ ch "\" :: c :: post).
  { unfold regex_replace.
    rewrite replace_loop_prefix
      by (intros i Hi; apply re_emphasis_no_match; now apply head_not_in_inside).
    rewrite replace_loop_copy by (apply re_emphasis_no_match; reflexivity).
    rewrite replace_loop_copy.
    - rewrite replace_loop_nowhere; [reflexivity|].
      intros i _. apply re_emphasis_no_match. now apply head_not_in_skipn.
    - unfold escapable in Hc.
      destruct Hc as [<-|[<-|[<-|[<-|[<-|[<-|[]]]]]]];
        first [ apply re_emphasis_no_match; reflexivity
              | apply emphasis_lone_no_match; [simpl; tauto|exact Hpost2] ]. }
  rewrite Hem.
  change (pre ++ ch "\" :: c :: post) with (pre ++ [ch "\"; c] ++ post).
  rewrite (@regex_replace_one false re_escaped [Cap 2] [ch "\"]
             pre [ch "\"; c] post (MState post [(2, [c]); (1, [ch "\"])])); auto.
  - intros input s'. apply re_escaped_no_match.
  - discriminate.
  - intros input. now apply escaped_match.
Qed.

Lemma removeMarkdownTokens_unescapes_witness :
  removeMarkdownTokens (js "price in \$ per unit") = js "price in $ per unit".
Proof.
  apply (@removeMarkdownTokens_unescapes (js "price in ") (js " per unit") (ch "$"));
    [vm_compute; tauto|reflexivity|reflexivity].
Defined.

(* ===================================================================== *)
(** * Tags *)
(* ===================================================================== *)

Section TagFacts.

Variable input : jstring.

Lemma m_Bol multiline st k :
  m multiline input Bol st k = if at_bol multiline input st then k st else Failed.
Proof. reflexivity. Qed.

Lemma m_Cls_head neg cs a tl c k :
  m false input (Cls neg cs) (MState (a :: tl) c) k
  = if xorb neg (existsb (char_eqb a) cs) then k (MState tl c) else Failed.
Proof. reflexivity. Qed.

Lemma tag_start_free first s tl :
  s <> [] -> free_of [ch "<"] s = true -> head_not_in [ch "<"] tl ->
  tag_start first (s ++ tl) = false.
Proof.
  destruct s as [|x s']; [congruence|]. intros _ Hs Htl.
  cbn [free_of forallb existsb] in Hs. apply andb_prop in Hs as [Hx Hs].
  apply negb_true_iff, orb_false_elim in Hx as [Hx _].
  cbn [app tag_start]. rewrite Hx, andb_false_r. cbn [orb].
  destruct s' as [|y s''].
  - cbn [app]. destruct tl as [|b tl']; [apply andb_false_r|].
    cbn [head_not_in existsb] in Htl. apply orb_false_elim in Htl as [Htl _].
    rewrite Htl. apply andb_false_r.
  - cbn [app]. cbn [forallb existsb] in Hs. apply andb_prop in Hs as [Hy _].
    apply negb_true_iff, orb_false_elim in Hy as [Hy _].
    rewrite Hy. apply andb_false_r.
Qed.

Lemma tag_start_free_all first s :
  free_of [ch "<"] s = true -> tag_start first s = false.
Proof.
  intros Hs. destruct s as [|x s']; [reflexivity|].
  rewrite <- (app_nil_r (x :: s')).
  apply tag_start_free; [discriminate|exact Hs|exact I].
Qed.

(** From the [<] on: the greedy [.*] runs to the end of the line and comes
    back to the last [>]. *)
Lemma html_tail_match a after cs :
  no_line_end (a ++ after) ->
  free_of [ch "<"; ch ">"] after = true -> head_not_in [ch "`"] after ->
  m false input
    (Seq [Chr (ch "<"); Star Dot; Chr (ch ">");
          Grp 2 (Alt (Cls true [ch ">"; ch "<"; ch "`"]) Eol)])
    (MState (ch "<" :: a ++ ch ">" :: after) cs) Matched
  = Matched (MState (skipn 1 after) ((2, firstn 1 after) :: cs)).
Proof.
  intros Hline Hfree Htick.
  change (Seq [?g1; ?g2; ?g3; ?g4]) with (Cat g1 (Cat g2 (Cat g3 g4))).
  rewrite m_Cat, m_Chr_head.
  change (char_eqb (ch "<") (ch "<")) with true. cbv iota.
  rewrite m_Cat. unfold Star. rewrite m_Rep.
  apply rep_loop_star_backtrack
    with (ok := fun c => negb (is_line_terminator c)) (seg1 := a)
         (seg2 := ch ">" :: after).
  - reflexivity.
  - unfold no_line_end in Hline. rewrite forallb_app in *.
    apply andb_prop in Hline as [Ha Hafter]. rewrite Ha.
    cbn [forallb andb]. exact Hafter.
  - cbn [rest]. lia.
  - intros i. change (skipn (S i) (ch ">" :: after)) with (skipn i after).
    rewrite m_Cat.
    assert (Hh : head_not_in [ch ">"] (skipn i after)).
    { apply head_not_in_skipn. revert Hfree. apply free_of_weaken.
      simpl. tauto. }
    destruct (skipn i after) as [|h t]; [reflexivity|].
    rewrite m_Chr_head. cbn [head_not_in existsb] in Hh.
    apply orb_false_elim in Hh as [Hh _]. now rewrite char_eqb_sym, Hh.
  - rewrite m_Cat, m_Chr_head.
    change (char_eqb (ch ">") (ch ">")) with true. cbv iota.
    rewrite m_Grp, m_Alt.
    destruct after as [|c post]; [reflexivity|].
    rewrite m_Cls_head. cbn [rest caps].
    rewrite (@consumed_app [c] post).
    cbn [free_of forallb existsb] in Hfree. apply andb_prop in Hfree as [Hc _].
    apply negb_true_iff in Hc.
    apply orb_false_elim in Hc as [Hc1 Hc]. apply orb_false_elim in Hc as [Hc2 _].
    cbn [head_not_in existsb] in Htick. apply orb_false_elim in Htick as [Hc3 _].
    cbn [existsb]. rewrite Hc1, Hc2, Hc3. reflexivity.
Qed.

Lemma html_match_first a after :
  at_bol false input (MState (ch "<" :: a ++ ch ">" :: after) []) = true ->
  no_line_end (a ++ after) ->
  free_of [ch "<"; ch ">"] after = true -> head_not_in [ch "`"] after ->
  match_here false input re_html (ch "<" :: a ++ ch ">" :: after)
  = Matched (MState (skipn 1 after) [(2, firstn 1 after); (1, [])]).
Proof.
  intros Hbol Hline Hfree Htick. unfold match_here, re_html.
  change (Seq (?g1 :: ?rs)) with (Cat g1 (Seq rs)).
  rewrite m_Cat, m_Grp, m_Alt, m_Bol, Hbol. cbn [rest caps].
  unfold consumed at 1. cbn [rest]. rewrite Nat.sub_diag. cbn [firstn].
  now rewrite html_tail_match.
Qed.

Lemma html_match_behind b a after :
  existsb (char_eqb b) tag_guards = false ->
  no_line_end (a ++ after) ->
  free_of [ch "<"; ch ">"] after = true -> head_not_in [ch "`"] after ->
  match_here false input re_html (b :: ch "<" :: a ++ ch ">" :: after)
  = Matched (MState (skipn 1 after) [(2, firstn 1 after); (1, [b])]).
Proof.
  intros Hb Hline Hfree Htick. unfold match_here, re_html.
  change (Seq (?g1 :: ?rs)) with (Cat g1 (Seq rs)).
  rewrite m_Cat, m_Grp, m_Alt, m_Bol. cbn [rest caps].
  assert (Hlt : char_eqb (ch "<") b = false).
  { unfold tag_guards in Hb. cbn [existsb] in Hb.
    apply orb_false_elim in Hb as [_ Hb]. apply orb_false_elim in Hb as [Hb _].
    now rewrite char_eqb_sym. }
  assert (Hbol : (if at_bol false input (MState (b :: ch "<" :: a ++ ch ">" :: after) [])
                  then m false input
                         (Seq [Chr (ch "<"); Star Dot; Chr (ch ">");
                               Grp 2 (Alt (Cls true [ch ">"; ch "<"; ch "`"]) Eol)])
                         (MState (b :: ch "<" :: a ++ ch ">" :: after)
                            [(1, consumed
                                   (MState (b :: ch "<" :: a ++ ch ">" :: after) [])
                                   (MState (b :: ch "<" :: a ++ ch ">" :: after) []))])
                         Matched
                  else Failed) = Failed).
  { destruct (at_bol _ _ _); [|reflexivity].
    change (Seq (?g1 :: ?rs)) with (Cat g1 (Seq rs)).
    now rewrite m_Cat, m_Chr_head, Hlt. }
  rewrite Hbol. rewrite m_Cls_head. unfold tag_guards in Hb. rewrite Hb.
  cbn [xorb rest caps].
  rewrite (@consumed_app [b] (ch "<" :: a ++ ch ">" :: after)).
  now rewrite html_tail_match.
Qed.

End TagFacts.

(** X21: [removeNonCodeWrappedHTML] takes away everything from a [<] to
    the last [>] of the line.  The text in front of the [<] holds no [<]
    and does not end with [>], a backtick or a backslash; the text behind
    the last [>] holds neither [<] nor [>] and does not start with a
    backtick; the tag and the text behind it are on one line. *)
Theorem removeNonCodeWrappedHTML_strips_tag (lead a after : jstring) :
  free_of [ch "<"] lead = true -> head_not_in tag_guards (rev lead) ->
  no_line_end (a ++ after) ->
  free_of [ch "<"; ch ">"] after = true -> head_not_in [ch "`"] after ->
  removeNonCodeWrappedHTML (lead ++ ch "<" :: a ++ ch ">" :: after) = lead ++ after.
Proof.
  intros Hlead Hlast Hline Hfree Htick.
  assert (Hafter : free_of [ch "<"] (skipn 1 after) = true).
  { apply free_of_skipn. revert Hfree. apply free_of_weaken. simpl. tauto. }
  assert (Hrest : forall input,
             replace_loop false input re_html [Cap 1; Cap 2] 0 (skipn 1 after)
             = skipn 1 after).
  { intros input. apply replace_loop_nowhere. intros i _.
    apply re_html_no_match, tag_start_free_all. now apply free_of_skipn. }
  unfold removeNonCodeWrappedHTML, regex_replace.
  induction lead as [|b pre _] using rev_ind.
  - cbn [app]. set (whole := ch "<" :: a ++ ch ">" :: after) at 1.
    assert (Hbol : at_bol false whole (MState (ch "<" :: a ++ ch ">" :: after) []) = true).
    { unfold at_bol, prev_char, whole. cbn [rest app].
      now rewrite Nat.sub_diag. }
    replace (ch "<" :: a ++ ch ">" :: after)
      with ((ch "<" :: a ++ ch ">" :: firstn 1 after) ++ skipn 1 after).
    2:{ cbn [app]. rewrite <- app_assoc. cbn [app].
        now rewrite firstn_skipn. }
    rewrite (@replace_loop_match false whole re_html [Cap 1; Cap 2]
               (ch "<" :: a ++ ch ">" :: firstn 1 after) (skipn 1 after)
               (MState (skipn 1 after) [(2, firstn 1 after); (1, [])])).
    + cbn [expand get_cap caps Nat.eqb app]. rewrite Hrest, app_nil_r.
      apply firstn_skipn.
    + discriminate.
    + cbn [app]. rewrite <- app_assoc. cbn [app]. rewrite firstn_skipn.
      now apply html_match_first.
    + reflexivity.
  - rewrite rev_unit in Hlast. cbn [head_not_in] in Hlast.
    rewrite free_of_app in Hlead. apply andb_prop in Hlead as [Hpre _].
    assert (Hlt : head_not_in [ch "<"] (b :: ch "<" :: a ++ ch ">" :: after)).
    { cbn [head_not_in existsb]. unfold tag_guards in Hlast.
      cbn [existsb] in Hlast.
      apply orb_false_elim in Hlast as [_ Hb]. apply orb_false_elim in Hb as [Hb _].
      now rewrite Hb. }
    rewrite <- app_assoc. cbn [app].
    set (whole := pre ++ b :: ch "<" :: a ++ ch ">" :: after) at 1.
    rewrite replace_loop_prefix.
    2:{ intros i Hi. apply re_html_no_match. rewrite skipn_app.
        replace (i - List.length pre) with 0 by lia. cbn [skipn].
        apply tag_start_free; auto.
        - intros Hs. apply (f_equal (@List.length _)) in Hs.
          rewrite length_skipn in Hs. simpl in Hs. lia.
        - now apply free_of_skipn. }
    replace (b :: ch "<" :: a ++ ch ">" :: after)
      with ((b :: ch "<" :: a ++ ch ">" :: firstn 1 after) ++ skipn 1 after).
    2:{ cbn [app]. rewrite <- app_assoc. cbn [app].
        now rewrite firstn_skipn. }
    rewrite (@replace_loop_match false whole re_html [Cap 1; Cap 2]
               (b :: ch "<" :: a ++ ch ">" :: firstn 1 after) (skipn 1 after)
               (MState (skipn 1 after) [(2, firstn 1 after); (1, [b])])).
    + cbn [expand get_cap caps Nat.eqb app]. rewrite Hrest, app_nil_r.
      rewrite <- app_assoc. cbn [app]. now rewrite firstn_skipn.
    + discriminate.
    + cbn [app]. rewrite <- app_assoc. cbn [app]. rewrite firstn_skipn.
      now apply html_match_behind.
    + reflexivity.
Qed.

Lemma removeNonCodeWrappedHTML_strips_tag_witness :
  removeNonCodeWrappedHTML (js "Install " ++ ch "<" :: js "Badge text=beta/" ++ ch ">" :: [])
  = js "Install " ++ [].
Proof.
  apply removeNonCodeWrappedHTML_strips_tag; reflexivity.
Defined.

(* ===================================================================== *)
(** * Pages without a heading *)
(* ===================================================================== *)

Lemma search_none multiline input r s :
  (forall i, no_match multiline input r (skipn i s)) ->
  search multiline input r s = None.
Proof.
  induction s as [|c s IH]; intros H.
  - cbn [search]. pose proof (H 0) as H0. cbn [skipn] in H0.
    destruct (match_here multiline input r []) eqn:Hm; try reflexivity.
    exfalso. eapply H0; eauto.
  - cbn [search]. pose proof (H 0) as H0. cbn [skipn] in H0.
    destruct (match_here multiline input r (c :: s)) eqn:Hm;
      [exfalso; eapply H0; eauto| |];
      apply IH; intros i; apply (H (S i)).
Qed.

Lemma re_heading_no_match input s :
  free_of [ch "#"] s = true -> no_match true input re_heading s.
Proof.
  intros Hs st. unfold match_here, re_heading.
  change (Seq (?g1 :: ?rs)) with (Cat g1 (Seq rs)).
  rewrite m_Cat, m_Bol.
  destruct (at_bol true input (MState s [])); [|discriminate].
  change (Seq (?g1 :: ?rs)) with (Cat g1 (Seq rs)).
  rewrite m_Cat. unfold Star at 1. rewrite m_Rep.
  rewrite rep_loop_fails with (ok := is_space); [discriminate|reflexivity| |].
  - cbn [rest]. lia.
  - intros i. change (Seq (?g1 :: ?rs)) with (Cat g1 (Seq rs)).
    rewrite m_Cat. unfold Plus at 1. rewrite m_Rep.
    cbn [rest caps Nat.add rep_loop option_map]. cbn [m]. unfold step_if.
    cbn [rest].
    pose proof (@head_not_in_skipn [ch "#"] i s Hs) as Hh.
    destruct (skipn i s) as [|h t]; [reflexivity|].
    cbn [head_not_in existsb] in Hh. apply orb_false_elim in Hh as [Hh _].
    now rewrite char_eqb_sym, Hh.
Qed.

(** X22: a page whose frontmatter gives neither a truthy [home] nor a
    truthy [title], and whose body holds no [#], has the empty title. *)
Theorem inferTitle_without_heading (fm : obj) (body : jstring) :
  truthy (obj_get (js "home") fm) = false ->
  truthy (obj_get (js "title") fm) = false ->
  free_of [ch "#"] body = true ->
  inferTitle fm body = Ok [].
Proof.
  intros Hhome Htitle Hbody. unfold inferTitle. rewrite Hhome, Htitle.
  unfold regex_match. rewrite search_none; [reflexivity|].
  intros i. apply re_heading_no_match. now apply free_of_skipn.
Qed.

Lemma inferTitle_without_heading_witness :
  inferTitle [(js "layout", VStr (js "doc"))] (js "Plain text." ++ LF ++ js "More text.")
  = Ok [].
Proof.
  apply inferTitle_without_heading; reflexivity.
Defined.

(* ===================================================================== *)
(** * The first heading of a body *)
(* ===================================================================== *)

Section RunFacts.

Import TitleRule.

Variable ok : char -> bool.

Lemma take_drop_while s : take_while ok s ++ drop_while ok s = s.
Proof.
  induction s as [|c s IH]; [reflexivity|]. simpl.
  destruct (ok c); [|reflexivity]. simpl. now rewrite IH.
Qed.

Lemma take_while_run s : forallb ok (take_while ok s) = true.
Proof.
  induction s as [|c s IH]; [reflexivity|]. simpl.
  destruct (ok c) eqn:Hc; [|reflexivity]. simpl. now rewrite Hc.
Qed.

Lemma drop_while_stops s : stops ok (drop_while ok s).
Proof.
  induction s as [|c s IH]; [exact I|]. simpl.
  destruct (ok c) eqn:Hc; [exact IH|]. exact Hc.
Qed.

(** Inside the run every code unit is of the class. *)
Lemma skipn_in_run s i :
  i < List.length (take_while ok s) ->
  exists c tl, skipn i s = c :: tl /\ ok c = true.
Proof.
  revert i. induction s as [|c s IH]; intros i Hi; [simpl in Hi; lia|].
  simpl in Hi. destruct (ok c) eqn:Hc; [|simpl in Hi; lia].
  destruct i as [|i]; [now exists c, s|].
  simpl in Hi. apply IH. lia.
Qed.

Lemma consumed_run s cs1 cs2 :
  consumed (MState s cs1) (MState (drop_while ok s) cs2) = take_while ok s.
Proof.
  unfold consumed. cbn [rest].
  rewrite <- (take_drop_while s) at 1 3. apply firstn_consumed.
Qed.

Variable mr : mstate -> (mstate -> outcome) -> outcome.
Hypothesis mr_step : forall st k, mr st k = step_if ok st k.

(** A greedy repetition of the class hands over at the end of the run,
    when what follows cannot start inside the run. *)
Lemma rep_loop_greedy k cs :
  forall s fuel lo,
    List.length s < fuel ->
    lo <= List.length (take_while ok s) ->
    (forall i, i < List.length (take_while ok s) ->
               k (MState (skipn i s) cs) = Failed) ->
    rep_loop mr true k fuel lo None (MState s cs)
    = k (MState (drop_while ok s) cs).
Proof.
  induction s as [|c s IH]; intros fuel lo Hfuel Hlo Hk;
    (destruct fuel as [|fuel]; [simpl in Hfuel; lia|]); cbn [rep_loop option_map].
  - simpl in Hlo. destruct lo; [|lia].
    rewrite mr_step. unfold step_if. cbn [rest drop_while]. reflexivity.
  - cbn [take_while drop_while] in *. destruct (ok c) eqn:Hc.
    + assert (IH' : forall lo', lo' <= List.length (take_while ok s) ->
                rep_loop mr true k fuel lo' None (MState s cs)
                = k (MState (drop_while ok s) cs)).
      { intros lo' Hlo'. apply IH; [simpl in Hfuel; lia|exact Hlo'|].
        intros i Hi. apply (Hk (S i)). simpl. lia. }
      destruct lo as [|lo]; rewrite mr_step; unfold step_if; cbn [rest caps];
        rewrite Hc.
      * destruct (Nat.eqb_spec (List.length s) (List.length (c :: s)));
          [simpl in *; lia|].
        rewrite IH' by lia.
        destruct (k (MState (drop_while ok s) cs)) eqn:Hend; try reflexivity.
        apply (Hk 0). simpl. lia.
      * apply IH'. simpl in Hlo. lia.
    + simpl in Hlo. destruct lo; [|lia].
      rewrite mr_step. unfold step_if. cbn [rest]. now rewrite Hc.
Qed.

(** It takes the whole run when what follows matches behind it. *)
Lemma rep_loop_greedy_matched k cs x :
  forall s fuel lo,
    List.length s < fuel ->
    lo <= List.length (take_while ok s) ->
    k (MState (drop_while ok s) cs) = Matched x ->
    rep_loop mr true k fuel lo None (MState s cs) = Matched x.
Proof.
  induction s as [|c s IH]; intros fuel lo Hfuel Hlo Hk;
    (destruct fuel as [|fuel]; [simpl in Hfuel; lia|]); cbn [rep_loop option_map].
  - simpl in Hlo. destruct lo; [|lia].
    rewrite mr_step. unfold step_if. cbn [rest drop_while]. exact Hk.
  - cbn [take_while drop_while] in *. destruct (ok c) eqn:Hc.
    + destruct lo as [|lo]; rewrite mr_step; unfold step_if; cbn [rest caps];
        rewrite Hc.
      * destruct (Nat.eqb_spec (List.length s) (List.length (c :: s)));
          [simpl in *; lia|].
        rewrite IH; [reflexivity|simpl in Hfuel; lia|lia|exact Hk].
      * apply IH; [simpl in Hfuel; lia|simpl in Hlo; lia|exact Hk].
    + simpl in Hlo. destruct lo; [|lia].
      rewrite mr_step. unfold step_if. cbn [rest]. now rewrite Hc, Hk.
Qed.

(** One or more of the class: none at hand is a failure. *)
Lemma rep_loop_none k cs s fuel lo :
  take_while ok s = [] ->
  rep_loop mr true k (S fuel) (S lo) None (MState s cs) = Failed.
Proof.
  intros Hs. cbn [rep_loop option_map]. rewrite mr_step. unfold step_if.
  cbn [rest]. destruct s as [|c s]; [reflexivity|].
  simpl in Hs. destruct (ok c); [discriminate|reflexivity].
Qed.

End RunFacts.

Section HeadingRule.

Import TitleRule.

Variable input : jstring.

Lemma hash_is_no_space c : is_hash c = true -> is_space c = false.
Proof.
  unfold is_hash, char_eqb. intros H. apply N.eqb_eq in H. now subst c.
Qed.

Lemma text_match s cs :
  m true input (Grp 1 (Star Dot)) (MState s cs) Matched
  = Matched (MState (drop_while on_line s) ((1, take_while on_line s) :: cs)).
Proof.
  rewrite m_Grp. unfold Star. rewrite m_Rep.
  apply rep_loop_greedy_matched with (ok := on_line).
  - reflexivity.
  - cbn [rest]. lia.
  - lia.
  - cbn [rest caps]. now rewrite consumed_run.
Qed.

Lemma after_marks_match s cs :
  m true input after_marks (MState s cs) Matched
  = match take_while is_space s with
    | _ :: _ =>
        Matched (MState (drop_while on_line (drop_while is_space s))
                   ((1, take_while on_line (drop_while is_space s)) :: cs))
    | [] => Failed
    end.
Proof.
  unfold after_marks. change (Seq [?a; ?b]) with (Cat a b).
  rewrite m_Cat. unfold Plus. rewrite m_Rep.
  cbn [rest Nat.add]. 
  destruct (take_while is_space s) as [|w ws] eqn:Hw.
  - now apply rep_loop_none with (ok := is_space).
  - apply rep_loop_greedy_matched with (ok := is_space).
    + reflexivity.
    + lia.
    + rewrite Hw. simpl. lia.
    + apply text_match.
Qed.

Lemma after_marks_at_hash c tl cs :
  is_hash c = true -> m true input after_marks (MState (c :: tl) cs) Matched = Failed.
Proof.
  intros Hc. rewrite after_marks_match. simpl.
  now rewrite (hash_is_no_space c Hc).
Qed.

Lemma from_marks_match s cs :
  m true input from_marks (MState s cs) Matched
  = match take_while is_hash s with
    | _ :: _ => m true input after_marks (MState (drop_while is_hash s) cs) Matched
    | [] => Failed
    end.
Proof.
  unfold from_marks. change (Seq (?a :: ?rs)) with (Cat a (Seq rs)).
  rewrite m_Cat. unfold Plus at 1. rewrite m_Rep. cbn [rest Nat.add].
  fold after_marks.
  destruct (take_while is_hash s) as [|h hs] eqn:Hh.
  - now apply rep_loop_none with (ok := is_hash).
  - apply rep_loop_greedy with (ok := is_hash).
    + reflexivity.
    + lia.
    + rewrite Hh. simpl. lia.
    + intros i Hi. destruct (@skipn_in_run is_hash s i Hi) as (c & tl & -> & Hc).
      now apply after_marks_at_hash.
Qed.

Lemma from_marks_at_space c tl cs :
  is_space c = true -> m true input from_marks (MState (c :: tl) cs) Matched = Failed.
Proof.
  intros Hc. rewrite from_marks_match. simpl.
  unfold is_hash. now rewrite (space_is_no_hash c Hc).
Qed.

(** An attempt of the heading pattern at the position where [s] starts. *)
Lemma heading_here s :
  match_here true input re_heading s
  = if at_bol true input (MState s []) then
      match heading_text s with
      | Some text =>
          Matched (MState (drop_while on_line
                             (drop_while is_space
                                (drop_while is_hash (drop_while is_space s))))
                     [(1, text)])
      | None => Failed
      end
    else Failed.
Proof.
  unfold match_here, re_heading.
  change (Seq (?a :: ?b :: ?rs)) with (Cat a (Cat b (Seq rs))).
  rewrite m_Cat, m_Bol. destruct (at_bol true input (MState s [])); [|reflexivity].
  rewrite m_Cat. unfold Star. rewrite m_Rep. fold from_marks.
  rewrite rep_loop_greedy with (ok := is_space).
  - rewrite from_marks_match. unfold heading_text.
    destruct (take_while is_hash (drop_while is_space s)); [reflexivity|].
    rewrite after_marks_match.
    destruct (take_while is_space (drop_while is_hash (drop_while is_space s)));
      reflexivity.
  - reflexivity.
  - cbn [rest]. lia.
  - lia.
  - intros i Hi. destruct (@skipn_in_run is_space s i Hi) as (c & tl & -> & Hc).
    now apply from_marks_at_space.
Qed.

End HeadingRule.

Section FirstHeading.

Import TitleRule.

Lemma at_bol_after pre c s :
  at_bol true ((pre ++ [c]) ++ s) (MState s []) = is_line_terminator c.
Proof.
  unfold at_bol, prev_char. cbn [rest].
  replace (List.length ((pre ++ [c]) ++ s) - List.length s)
    with (S (List.length pre)) by lengths_lia.
  rewrite <- app_assoc. rewrite nth_error_app2 by lia.
  rewrite Nat.sub_diag. reflexivity.
Qed.

Lemma at_bol_start s : at_bol true s (MState s []) = true.
Proof. unfold at_bol, prev_char. cbn [rest]. now rewrite Nat.sub_diag. Qed.

(** The search for the heading pattern is the scan of the rule. *)
Lemma search_scan :
  forall s pre,
    option_map (fun st => get_cap 1 (caps st))
      (search true (pre ++ s) re_heading s)
    = option_map Some (scan (at_bol true (pre ++ s) (MState s [])) s).
Proof.
  induction s as [|c s IH]; intros pre; cbn [search scan]; rewrite heading_here;
    destruct (at_bol true _ _).
  - destruct (heading_text []); reflexivity.
  - reflexivity.
  - destruct (heading_text (c :: s)); [reflexivity|].
    replace (pre ++ c :: s) with ((pre ++ [c]) ++ s) by (now rewrite <- app_assoc).
    rewrite IH. now rewrite at_bol_after.
  - replace (pre ++ c :: s) with ((pre ++ [c]) ++ s) by (now rewrite <- app_assoc).
    rewrite IH. now rewrite at_bol_after.
Qed.

Lemma heading_found body :
  option_map (fun st => get_cap 1 (caps st)) (regex_match true re_heading body)
  = option_map Some (first_heading body).
Proof.
  unfold regex_match, first_heading.
  pose proof (search_scan body []) as H. cbn [app] in H.
  now rewrite H, at_bol_start.
Qed.

End FirstHeading.

(** C3, amended: the title follows a chain of precedence in which one
    branch is taken.  A truthy [home] gives [Home].  Otherwise a truthy
    [title] gives the deep-sanitized [String(title)], and a [TypeError]
    where [String] throws.  Otherwise the body is scanned for the first
    line start (the start of the body or the position after a line
    terminator) at which a heading opens: optional white space, one or
    more [#], one or more white space, where white space includes the
    line terminators; the title is the deep-sanitized, trimmed rest of
    the line behind that white space, whatever the number of [#].  With
    no such line start the title is the empty string. *)
Theorem inferTitle_precedence (fm : obj) (body : jstring) :
  (truthy (obj_get (js "home") fm) = true -> inferTitle fm body = Ok (js "Home")) /\
  (truthy (obj_get (js "home") fm) = false ->
   truthy (obj_get (js "title") fm) = true ->
   inferTitle fm body
   = match to_string (obj_get (js "title") fm) with
     | Some s => Ok (deeplyParseHeader s)
     | None => Throw TypeError
     end) /\
  (truthy (obj_get (js "home") fm) = false ->
   truthy (obj_get (js "title") fm) = false ->
   inferTitle fm body
   = Ok (match TitleRule.first_heading body with
         | Some text => deeplyParseHeader (trim text)
         | None => []
         end)).
Proof.
  unfold inferTitle. split; [|split].
  - intros ->. reflexivity.
  - intros -> ->. reflexivity.
  - intros -> ->. pose proof (heading_found body) as H.
    destruct (regex_match true re_heading body) as [st|],
             (TitleRule.first_heading body) as [text|];
      try discriminate H; [|reflexivity].
    cbn [option_map] in H. injection H as ->. reflexivity.
Qed.

Lemma inferTitle_precedence_witness :
  inferTitle [(js "home", VBool true); (js "title", VStr (js "T"))] (js "# Hello")
    = Ok (js "Home") /\
  inferTitle [(js "title", VStr (js "T"))] (js "# Hello") = Ok (js "T") /\
  inferTitle [(js "title", VInt (10 ^ 21))] (js "# Hello") = Ok (js "1e+21") /\
  inferTitle [(js "title", VObj [(js "toString", VNull)])] (js "# Hello")
    = Throw TypeError /\
  inferTitle [] (js "intro" ++ LF ++ js "  ### Deep  title " ++ LF ++ js "# Top")
    = Ok (js "Deep  title") /\
  inferTitle [] (js "#" ++ LF ++ js "foo") = Ok (js "foo") /\
  inferTitle [] (js "text # not a heading") = Ok [].
Proof.
  split; [|split; [|split; [|split; [|split; [|split]]]]].
  - destruct (inferTitle_precedence
                [(js "home", VBool true); (js "title", VStr (js "T"))] (js "# Hello"))
      as (H1 & _ & _).
    apply H1. vm_compute; reflexivity.
  - destruct (inferTitle_precedence [(js "title", VStr (js "T"))] (js "# Hello"))
      as (_ & H2 & _).
    rewrite H2 by (vm_compute; reflexivity). vm_compute; reflexivity.
  - destruct (inferTitle_precedence [(js "title", VInt (10 ^ 21))] (js "# Hello"))
      as (_ & H2 & _).
    rewrite H2 by (vm_compute; reflexivity). vm_compute; reflexivity.
  - destruct (inferTitle_precedence
                [(js "title", VObj [(js "toString", VNull)])] (js "# Hello"))
      as (_ & H2 & _).
    rewrite H2 by (vm_compute; reflexivity). vm_compute; reflexivity.
  - destruct (inferTitle_precedence []
                (js "intro" ++ LF ++ js "  ### Deep  title " ++ LF ++ js "# Top"))
      as (_ & _ & H3).
    rewrite H3 by (vm_compute; reflexivity). vm_compute; reflexivity.
  - destruct (inferTitle_precedence [] (js "#" ++ LF ++ js "foo")) as (_ & _ & H3).
    rewrite H3 by (vm_compute; reflexivity). vm_compute; reflexivity.
  - destruct (inferTitle_precedence [] (js "text # not a heading")) as (_ & _ & H3).
    rewrite H3 by (vm_compute; reflexivity). vm_compute; reflexivity.
Defined.

(* ===================================================================== *)
(** * What of the result depends on the file *)
(* ===================================================================== *)

Section FileFacts.

Variable E : Env.
Variable root : jstring.

(** The fields of a fresh page that the file does not enter. *)
Lemma page_result_same_fields src f1 f2 r1 r2 :
  page_result E root src f1 = Ok r1 ->
  page_result E root src f2 = Ok r2 ->
  title (pageData r1) = title (pageData r2) /\
  description (pageData r1) = description (pageData r2) /\
  frontmatter (pageData r1) = frontmatter (pageData r2) /\
  headers (pageData r1) = headers (pageData r2) /\
  content (pageData r1) = content (pageData r2) /\
  html (pageData r1) = html (pageData r2).
Proof.
  intros H1 H2.
  apply page_result_inv in H1
    as (body & fm & rendered & t & d & mt & nc & Hm & Hr & Ht & Hd & _ & H1).
  apply page_result_inv in H2
    as (body' & fm' & rendered' & t' & d' & mt' & nc' & Hm' & Hr' & Ht' & Hd' & _ & H2).
  cbv zeta in H1, H2. destruct H1 as [-> _]. destruct H2 as [-> _].
  rewrite Hm in Hm'. injection Hm' as <- <-.
  rewrite Hr in Hr'. injection Hr' as <-.
  rewrite Ht in Ht'. injection Ht' as <-.
  rewrite Hd in Hd'. injection Hd' as <-.
  cbn [pageData title description frontmatter headers content html].
  repeat split.
Qed.

(** The fields of a fresh page that come from the file. *)
Lemma page_result_file_fields src file r :
  page_result E root src file = Ok r ->
  relativePath (pageData r) = slash E (path_relative E root file) /\
  exists mtimeMs,
    statSync_mtimeMs E file = Ok mtimeMs /\
    lastUpdated (pageData r) = Math_round mtimeMs.
Proof.
  intros H.
  apply page_result_inv in H
    as (body & fm & rendered & t & d & mt & nc & _ & _ & _ & _ & Hs & H).
  cbv zeta in H. destruct H as [-> _].
  cbn [pageData relativePath lastUpdated]. split; [reflexivity|].
  now exists mt.
Qed.

Lemma compile_miss_result src file w r w' :
  Lru.find src (cache w) = None ->
  compile E root src file w = (Ok r, w') ->
  page_result E root src file = Ok r.
Proof.
  intros Hf H. destruct (compile_miss E root src file w Hf) as [t Ht].
  rewrite Ht in H.
  destruct (page_result E root src file) as [r'|e]; [|discriminate].
  now injection H as <- _.
Qed.

End FileFacts.

(** C2, amended: started from the same cache, the compiles of a source
    under two file paths give the same result (and the same cache) if the
    source is cached already, or if the two paths have the same
    root-relative path and the same outcome of the file stat.  Under any
    two paths, two compiles that succeed agree in the [title],
    [description], [frontmatter], [headers], [content] and [html] of the
    page data.  The file enters a freshly compiled result through
    [relativePath], the root-relative path of the file, and
    [lastUpdated], the rounded modification time of the file. *)
Theorem compile_same_result
    (E : Env) (root src f1 f2 : jstring) (w : world) :
  (Lru.find src (cache w) <> None \/
   (slash E (path_relative E root f1) = slash E (path_relative E root f2) /\
    statSync_mtimeMs E f1 = statSync_mtimeMs E f2) ->
   fst (compile E root src f1 w) = fst (compile E root src f2 w) /\
   cache (snd (compile E root src f1 w)) = cache (snd (compile E root src f2 w))) /\
  (forall r1 r2 w1 w2,
     compile E root src f1 w = (Ok r1, w1) ->
     compile E root src f2 w = (Ok r2, w2) ->
     title (pageData r1) = title (pageData r2) /\
     description (pageData r1) = description (pageData r2) /\
     frontmatter (pageData r1) = frontmatter (pageData r2) /\
     headers (pageData r1) = headers (pageData r2) /\
     content (pageData r1) = content (pageData r2) /\
     html (pageData r1) = html (pageData r2)) /\
  (forall r1 w1,
     Lru.find src (cache w) = None ->
     compile E root src f1 w = (Ok r1, w1) ->
     relativePath (pageData r1) = slash E (path_relative E root f1) /\
     exists mtimeMs,
       statSync_mtimeMs E f1 = Ok mtimeMs /\
       lastUpdated (pageData r1) = Math_round mtimeMs).
Proof.
  split; [|split].
  - intros H.
    destruct (Lru.find src (cache w)) as [hit|] eqn:Hf.
    + now rewrite !(compile_hit E root src _ w Hf).
    + destruct H as [H|[Hrel Hstat]]; [congruence|].
      destruct (compile_miss E root src f1 w Hf) as [t1 ->].
      destruct (compile_miss E root src f2 w Hf) as [t2 ->].
      assert (Hp : page_result E root src f1 = page_result E root src f2)
        by (apply build_page_same_result; auto).
      rewrite Hp. now destruct (page_result E root src f2).
  - intros r1 r2 w1 w2 H1 H2.
    destruct (Lru.find src (cache w)) as [hit|] eqn:Hf.
    + rewrite (compile_hit E root src f1 w Hf) in H1.
      rewrite (compile_hit E root src f2 w Hf) in H2.
      injection H1 as <- _. injection H2 as <- _. repeat split.
    + apply (@page_result_same_fields E root src f1 f2);
        eapply compile_miss_result; eauto.
  - intros r1 w1 Hf H1.
    apply (@page_result_file_fields E root src f1).
    eapply compile_miss_result; eauto.
Qed.

Lemma compile_same_result_witness :
  (fst (compile Sample.env Sample.root (js "# Hello") (js "/r/a.md") initial_world)
   = fst (compile Sample.env Sample.root (js "# Hello") (js "a.md") initial_world) /\
   cache (snd (compile Sample.env Sample.root (js "# Hello") (js "/r/a.md") initial_world))
   = cache (snd (compile Sample.env Sample.root (js "# Hello") (js "a.md") initial_world))) /\
  match compile Sample.env Sample.root (js "# Hello") (js "/r/a.md") initial_world,
        compile Sample.env Sample.root (js "# Hello") (js "/r/b.md") initial_world
  with
  | (Ok r1, _), (Ok r2, _) =>
      title (pageData r1) = title (pageData r2) /\
      html (pageData r1) = html (pageData r2) /\
      relativePath (pageData r1) = js "a.md" /\
      relativePath (pageData r2) = js "b.md" /\
      exists mtimeMs,
        statSync_mtimeMs Sample.env (js "/r/a.md") = Ok mtimeMs /\
        lastUpdated (pageData r1) = Math_round mtimeMs
  | _, _ => False
  end.
Proof.
  split.
  - apply compile_same_result. right. split; vm_compute; reflexivity.
  - destruct (compile_same_result Sample.env Sample.root (js "# Hello")
                (js "/r/a.md") (js "/r/b.md") initial_world) as (_ & Hsame & Hfile1).
    destruct (compile_same_result Sample.env Sample.root (js "# Hello")
                (js "/r/b.md") (js "/r/a.md") initial_world) as (_ & _ & Hfile2).
    destruct (compile Sample.env Sample.root (js "# Hello") (js "/r/a.md") initial_world)
      as [[r1|e1] w1] eqn:H1; [|vm_compute in H1; discriminate H1].
    destruct (compile Sample.env Sample.root (js "# Hello") (js "/r/b.md") initial_world)
      as [[r2|e2] w2] eqn:H2; [|vm_compute in H2; discriminate H2].
    destruct (Hsame r1 r2 w1 w2 eq_refl eq_refl) as (Ht & _ & _ & _ & _ & Hh).
    destruct (Hfile1 r1 w1 eq_refl eq_refl) as (Hr1 & Hm).
    destruct (Hfile2 r2 w2 eq_refl eq_refl) as (Hr2 & _).
    split; [exact Ht|split; [exact Hh|split; [exact Hr1|split; [exact Hr2|exact Hm]]]].
Defined.
